(** * Minesweeper engine of [Kasianova-Kate/script.js]

    A shallow embedding of the board generator ([createCell],
    [countAdjacentMines], [createBoard], [createGame]), of the rendering
    ([renderBoard], [applyCellAppearance], [numberClassFor]), of the game
    engine ([inBounds], [floodOpen], [openCell], [toggleFlag],
    [revealAllMines], [checkWinCondition], [getFlagCount],
    [updateMinesCounter]) and of the input and start of a game
    ([attachEvents], [formatTime], [initGame]), followed by their
    properties.

    Conventions of the embedding.
    - JavaScript numbers that the engine uses as coordinates, sizes and
      counters are integers ([Z]); [Math.random()] yields a binary64
      value of the unit interval, given as the rational it is, and its
      product with a size is rounded as binary64 arithmetic rounds it.
    - An array is a list; [a[i]] is [arr_get a i], which is [None]
      ([undefined]) outside [0 .. length-1].
    - Reading a property of [undefined] raises a [TypeError], and
      [classList.add] of an empty token a [SyntaxError]: outcome
      [Throws].  A [while] loop that has not finished when its fuel (or
      the supply of random numbers) is used up yields [Running].
    - Strings hold ASCII characters.
    - The global variables [game], [firstClickHappened],
      [timerIntervalId], [elapsedSeconds] and the text of the
      [#mines-counter] element form the record [World], threaded through
      the operations.  The asynchronous timer tick is not part of the
      engine and is left out; the DOM elements are assumed present. *)

From Stdlib Require Import ZArith QArith Qround Lia Ascii DecimalString DecimalZ.
From stdpp Require Import base decidable numbers list option strings.
Local Open Scope Z_scope.
#[local] Set Warnings "-clear-no-such-hyp".

(** ** Outcomes of JavaScript code *)

Inductive outcome (A : Type) : Type :=
| Done (a : A)
| Throws
| Running.
Arguments Done {A} a.
Arguments Throws {A}.
Arguments Running {A}.

#[global] Instance outcome_ret : MRet outcome := @Done.
#[global] Instance outcome_bind : MBind outcome := λ A B f m,
  match m with
  | Done a => f a
  | Throws => Throws
  | Running => Running
  end.

(** [for (let i = lo; i < hi; i++) body]: the body neither assigns [i]
    nor changes [hi], so the loop runs [hi - lo] times. *)
Fixpoint for_iter {S : Type} (n : nat) (i : Z)
    (body : Z → S → outcome S) (s : S) : outcome S :=
  match n with
  | O => Done s
  | S n' => s' ← body i s; for_iter n' (i + 1) body s'
  end.

Definition for_loop {S : Type} (lo hi : Z)
    (body : Z → S → outcome S) (s : S) : outcome S :=
  for_iter (Z.to_nat (hi - lo)) lo body s.

(** [a[i]] on an array. *)
Definition arr_get {A : Type} (l : list A) (i : Z) : option A :=
  if decide (0 ≤ i) then l !! Z.to_nat i else None.

(** ** Data model *)

Inductive CellState := Closed | Open | Flagged.

#[global] Instance CellState_eq_dec : EqDecision CellState.
Proof. solve_decision. Defined.

Record Cell := mkCell {
  hasMine : bool;
  neighborMines : Z;
  state : CellState
}.

#[global] Instance Cell_eq_dec : EqDecision Cell.
Proof. solve_decision. Defined.

Definition set_hasMine (v : bool) (x : Cell) : Cell :=
  {| hasMine := v; neighborMines := neighborMines x; state := state x |}.
Definition set_neighborMines (v : Z) (x : Cell) : Cell :=
  {| hasMine := hasMine x; neighborMines := v; state := state x |}.
Definition set_state (v : CellState) (x : Cell) : Cell :=
  {| hasMine := hasMine x; neighborMines := neighborMines x; state := v |}.

Abbreviation Board := (list (list Cell)).
Abbreviation coord := (Z * Z)%type.

Inductive Status := InProgress | Win | Lose.

#[global] Instance Status_eq_dec : EqDecision Status.
Proof. solve_decision. Defined.

Record Game := mkGame {
  rows : Z;
  cols : Z;
  mines : Z;
  status : Status;
  board : Board
}.

Definition set_board (g : Game) (b : Board) : Game :=
  {| rows := rows g; cols := cols g; mines := mines g;
     status := status g; board := b |}.
Definition set_status (g : Game) (s : Status) : Game :=
  {| rows := rows g; cols := cols g; mines := mines g;
     status := s; board := board g |}.

(** [board[r][c]] as a value ([None]: [undefined], or no row [r]). *)
Definition board_get (b : Board) (r c : Z) : option Cell :=
  row ← arr_get b r; arr_get row c.

(** [board[r][c].field]: a [TypeError] when the cell does not exist. *)
Definition read_cell (b : Board) (r c : Z) : outcome Cell :=
  match board_get b r c with
  | Some x => Done x
  | None => Throws
  end.

(** [board[r][c].field = v], after the cell has been read. *)
Definition update_cell (b : Board) (r c : Z) (f : Cell → Cell) : Board :=
  alter (alter f (Z.to_nat c)) (Z.to_nat r) b.

(** ** Board generator *)

Definition createCell (hasMine : bool) : Cell :=
  {| hasMine := hasMine; neighborMines := 0; state := Closed |}.

Definition countAdjacentMines (b : Board) (row col : Z) : outcome Z :=
  for_loop (-1) 2 (λ dr count,
    for_loop (-1) 2 (λ dc count,
      if (dr =? 0) && (dc =? 0) then Done count
      else
        let nr := row + dr in
        let nc := col + dc in
        if (0 <=? nr) && (nr <? Z.of_nat (length b)) && (0 <=? nc) then
          match arr_get b 0 with
          | None => Throws
          | Some row0 =>
              if nc <? Z.of_nat (length row0) then
                x ← read_cell b nr nc;
                if hasMine x then Done (count + 1) else Done count
              else Done count
          end
        else Done count) count) 0.

(** The rounding of binary64 arithmetic, on the numerator of a dyadic
    number: to 53 significant bits, to the nearest, ties to even. *)
Definition round53 (a : Z) : Z :=
  let m := Z.abs a in
  let s := Z.log2 m - 52 in
  if s <=? 0 then a
  else
    let q := m / 2 ^ s in
    let r := m mod 2 ^ s in
    let half := 2 ^ (s - 1) in
    Z.sgn a *
    ((if (half <? r) || ((r =? half) && Z.odd q) then q + 1 else q) * 2 ^ s).

(** [Math.floor(Math.random() * n)] for the random number [u], a binary64
    value written [num / 2^k]: the product [num * n / 2^k] is rounded as
    the multiplication of two doubles rounds it, then floored. *)
Definition random_index (u : Q) (n : Z) : Z :=
  round53 (Qnum u * n) / Z.pos (Qden u).

(** The [while (placedMines < minesCount)] loop; each round consumes two
    random numbers.  [Running]: the numbers supplied so far leave the
    loop unfinished. *)
Fixpoint placeMines (rows cols minesCount : Z) (rnd : list Q)
    (b : Board) (placedMines : Z) : outcome Board :=
  if placedMines <? minesCount then
    match rnd with
    | u :: v :: rnd' =>
        let r := random_index u rows in
        let c := random_index v cols in
        match read_cell b r c with
        | Done x =>
            if negb (hasMine x) then
              placeMines rows cols minesCount rnd'
                (update_cell b r c (set_hasMine true)) (placedMines + 1)
            else placeMines rows cols minesCount rnd' b placedMines
        | Throws => Throws
        | Running => Running
        end
    | _ => Running
    end
  else Done b.

Definition emptyBoard (rows cols : Z) : outcome Board :=
  for_loop 0 rows (λ r b,
    row ← for_loop 0 cols (λ c row, Done (row ++ [createCell false])) [];
    Done (b ++ [row])) [].

Definition countNeighbors (rows cols : Z) (b : Board) : outcome Board :=
  for_loop 0 rows (λ r b,
    for_loop 0 cols (λ c b,
      x ← read_cell b r c;
      if negb (hasMine x) then
        n ← countAdjacentMines b r c;
        Done (update_cell b r c (set_neighborMines n))
      else Done b) b) b.

Definition createBoard (rows cols minesCount : Z) (rnd : list Q)
    : outcome Board :=
  b ← emptyBoard rows cols;
  b ← placeMines rows cols minesCount rnd b 0;
  countNeighbors rows cols b.

Definition createGame (rows cols mines : Z) (rnd : list Q) : outcome Game :=
  b ← createBoard rows cols mines rnd;
  Done {| rows := rows; cols := cols; mines := mines;
          status := InProgress; board := b |}.

(** The fixture of [createSampleBoard] and [sampleGame]. *)
Definition createSampleBoard : Board :=
  [ [ mkCell false 1 Closed; mkCell true 0 Closed; mkCell false 2 Closed ];
    [ mkCell false 1 Closed; mkCell true 0 Closed; mkCell true 0 Closed ];
    [ mkCell false 0 Closed; mkCell false 2 Closed; mkCell false 1 Closed ] ].

Definition sampleGame : Game :=
  {| rows := 3; cols := 3; mines := 3; status := InProgress;
     board := createSampleBoard |}.

(** ** Rendering *)

(** [String(n)] and [n.toString()] of an integer: its decimal numeral. *)
Definition js_String (n : Z) : string := NilZero.string_of_int (Z.to_int n).

Definition numberClassFor (value : Z) : string :=
  if (1 <=? value) && (value <=? 8)
  then ("number-" ++ js_String value)%string else ""%string.

(** A DOM element, as far as the game uses it: the tokens of its class
    attribute, its text and the data attributes [r] and [c]. *)
Record Element := mkElement {
  className : list string;
  textContent : string;
  dataset_r : option string;
  dataset_c : option string
}.

(** [el.classList.add(t1, ..)]: an empty token is a [SyntaxError]; a token
    already present is not added again. *)
Definition classList_add (el : Element) (tokens : list string)
    : outcome Element :=
  if bool_decide (""%string ∈ tokens) then Throws
  else Done {| className :=
                 foldl (λ cl t, if bool_decide (t ∈ cl) then cl else cl ++ [t])
                   (className el) tokens;
               textContent := textContent el;
               dataset_r := dataset_r el; dataset_c := dataset_c el |}.

Definition applyCellAppearance (cellEl : Element) (cell : Cell)
    : outcome Element :=
  let cellEl := {| className := ["cell"%string]; textContent := ""%string;
                   dataset_r := dataset_r cellEl;
                   dataset_c := dataset_c cellEl |} in
  if bool_decide (state cell = Flagged) then classList_add cellEl ["flag"%string]
  else if bool_decide (state cell = Open) then
    if hasMine cell
    then classList_add cellEl ["mine"%string; "detonated"%string]
    else if 0 <? neighborMines cell then
      cellEl ← classList_add cellEl [numberClassFor (neighborMines cell)];
      Done {| className := className cellEl;
              textContent := js_String (neighborMines cell);
              dataset_r := dataset_r cellEl; dataset_c := dataset_c cellEl |}
    else Done cellEl
  else Done cellEl.

(** The children that [renderBoard] gives the field: one list of cell
    elements per row. *)
Definition renderField (g : Game) : outcome (list (list Element)) :=
  for_loop 0 (rows g) (λ r field,
    rowEl ← for_loop 0 (cols g) (λ c rowEl,
      cell ← read_cell (board g) r c;
      let cellEl := {| className := ["cell"%string]; textContent := ""%string;
                       dataset_r := Some (js_String r);
                       dataset_c := Some (js_String c) |} in
      cellEl ← applyCellAppearance cellEl cell;
      Done (rowEl ++ [cellEl])) [];
    Done (field ++ [rowEl])) [].

(** [renderBoard] replaces the children of the field; the engine keeps
    nothing of them. *)
Definition renderBoard (g : Game) : outcome unit :=
  _ ← renderField g; Done ().

(** ** Game engine *)

Record World := mkWorld {
  game : Game;
  firstClickHappened : bool;
  timerIntervalId : bool;
  elapsedSeconds : Z;
  minesCounterText : Z
}.

Definition set_game (w : World) (g : Game) : World :=
  {| game := g; firstClickHappened := firstClickHappened w;
     timerIntervalId := timerIntervalId w;
     elapsedSeconds := elapsedSeconds w;
     minesCounterText := minesCounterText w |}.

Definition stopTimer (w : World) : World :=
  {| game := game w; firstClickHappened := firstClickHappened w;
     timerIntervalId := false;
     elapsedSeconds := elapsedSeconds w;
     minesCounterText := minesCounterText w |}.

Definition startTimer (w : World) : World :=
  let w := stopTimer w in
  {| game := game w; firstClickHappened := firstClickHappened w;
     timerIntervalId := true;
     elapsedSeconds := 0;
     minesCounterText := minesCounterText w |}.

Definition markFirstClick (w : World) : World :=
  {| game := game w; firstClickHappened := true;
     timerIntervalId := timerIntervalId w;
     elapsedSeconds := elapsedSeconds w;
     minesCounterText := minesCounterText w |}.

Definition getFlagCount (g : Game) : outcome Z :=
  for_loop 0 (rows g) (λ r flags,
    for_loop 0 (cols g) (λ c flags,
      x ← read_cell (board g) r c;
      if bool_decide (state x = Flagged) then Done (flags + 1) else Done flags)
      flags) 0.

Definition updateMinesCounter (w : World) : outcome World :=
  flags ← getFlagCount (game w);
  let remaining := Z.max 0 (mines (game w) - flags) in
  Done {| game := game w; firstClickHappened := firstClickHappened w;
          timerIntervalId := timerIntervalId w;
          elapsedSeconds := elapsedSeconds w;
          minesCounterText := remaining |}.

Definition inBounds (g : Game) (r c : Z) : bool :=
  (0 <=? r) && (r <? rows g) && (0 <=? c) && (c <? cols g).

(** The inner double loop of [floodOpen]: push the closed, mine-free
    neighbors of [(cr, cc)].  The stack is a list whose head is the top. *)
Definition pushNeighbors (g : Game) (cr cc : Z) (stack : list coord)
    : outcome (list coord) :=
  for_loop (-1) 2 (λ dr stack,
    for_loop (-1) 2 (λ dc stack,
      if (dr =? 0) && (dc =? 0) then Done stack
      else
        let nr := cr + dr in
        let nc := cc + dc in
        if inBounds g nr nc then
          x ← read_cell (board g) nr nc;
          if bool_decide (state x = Closed) && negb (hasMine x)
          then Done ((nr, nc) :: stack)
          else Done stack
        else Done stack) stack) stack.

(** The [while (stack.length)] loop of [floodOpen].  [opened] is a ghost
    log of the coordinates whose cell the loop has set to [Open], most
    recent first; the loop never reads it. *)
Fixpoint floodLoop (fuel : nat) (g : Game) (stack opened : list coord)
    : outcome (Game * list coord) :=
  match stack with
  | [] => Done (g, opened)
  | (cr, cc) :: stack =>
      match fuel with
      | O => Running
      | S fuel =>
          match read_cell (board g) cr cc with
          | Done x =>
              if negb (bool_decide (state x = Closed)) || hasMine x
              then floodLoop fuel g stack opened
              else
                let g := set_board g
                           (update_cell (board g) cr cc (set_state Open)) in
                if neighborMines x =? 0 then
                  match pushNeighbors g cr cc stack with
                  | Done stack => floodLoop fuel g stack ((cr, cc) :: opened)
                  | Throws => Throws
                  | Running => Running
                  end
                else floodLoop fuel g stack ((cr, cc) :: opened)
          | Throws => Throws
          | Running => Running
          end
      end
  end.

(** Rounds that always suffice: every round pops one entry, and only a
    round that opens a cell pushes entries, at most eight. *)
Definition flood_fuel (g : Game) : nat :=
  S (9 * length (concat (board g))).

Definition floodOpen (g : Game) (r c : Z) : outcome (Game * list coord) :=
  floodLoop (flood_fuel g) g [(r, c)] [].

Definition revealAllMines (g : Game) : outcome Game :=
  for_loop 0 (rows g) (λ r g,
    for_loop 0 (cols g) (λ c g,
      x ← read_cell (board g) r c;
      if hasMine x
      then Done (set_board g (update_cell (board g) r c (set_state Open)))
      else Done g) g) g.

Definition countUnopenedSafe (g : Game) : outcome Z :=
  for_loop 0 (rows g) (λ r n,
    for_loop 0 (cols g) (λ c n,
      x ← read_cell (board g) r c;
      if negb (hasMine x) && negb (bool_decide (state x = Open))
      then Done (n + 1) else Done n) n) 0.

Definition checkWinCondition (w : World) : outcome World :=
  unopenedSafe ← countUnopenedSafe (game w);
  if unopenedSafe =? 0
  then Done (stopTimer (set_game w (set_status (game w) Win)))
  else Done w.

Definition openCell (w : World) (r c : Z) : outcome World :=
  if negb (bool_decide (status (game w) = InProgress)) then Done w
  else
    x ← read_cell (board (game w)) r c;
    if negb (bool_decide (state x = Closed)) then Done w
    else
      let w := if negb (firstClickHappened w)
               then startTimer (markFirstClick w) else w in
      if hasMine x then
        let g := set_board (game w)
                   (update_cell (board (game w)) r c (set_state Open)) in
        let g := set_status g Lose in
        g ← revealAllMines g;
        let w := stopTimer (set_game w g) in
        _ ← renderBoard (game w);
        Done w
      else
        g ← (if neighborMines x =? 0
             then res ← floodOpen (game w) r c; Done res.1
             else Done (set_board (game w)
                          (update_cell (board (game w)) r c (set_state Open))));
        w ← checkWinCondition (set_game w g);
        _ ← renderBoard (game w);
        Done w.

Definition toggleFlag (w : World) (r c : Z) : outcome World :=
  if negb (bool_decide (status (game w) = InProgress)) then Done w
  else
    x ← read_cell (board (game w)) r c;
    if bool_decide (state x = Open) then Done w
    else
      let flip := λ x : Cell,
        set_state (if bool_decide (state x = Flagged) then Closed else Flagged) x in
      let g := set_board (game w) (update_cell (board (game w)) r c flip) in
      w ← updateMinesCounter (set_game w g);
      _ ← renderBoard (game w);
      Done w.

(** The initial values of the global variables around a game. *)
Definition world0 (g : Game) : World :=
  {| game := g; firstClickHappened := false; timerIntervalId := false;
     elapsedSeconds := 0; minesCounterText := 0 |}.

(** ** Input, clock and start of a game *)

(** The integers among the finite doubles: a magnitude from [2 ^ 1024]
    on is [Infinity], which [Number.isInteger] refuses. *)
Definition finite_integer (z : Z) : option Z :=
  if Z.abs z <? 2 ^ 1024 then Some z else None.

(** The white space and line terminators of an ASCII string. *)
Definition is_space (a : ascii) : bool :=
  let n := Z.of_N (N_of_ascii a) in ((9 <=? n) && (n <=? 13)) || (n =? 32).

Fixpoint trim_start (l : list ascii) : list ascii :=
  match l with
  | a :: l' => if is_space a then trim_start l' else l
  | [] => []
  end.

Definition trim (l : list ascii) : list ascii :=
  rev (trim_start (rev (trim_start l))).

(** The value of a digit in the given base, letters in either case. *)
Definition digit_of (base : Z) (a : ascii) : option Z :=
  let n := Z.of_N (N_of_ascii a) in
  let d := if (48 <=? n) && (n <=? 57) then n - 48
           else if (97 <=? n) && (n <=? 122) then n - 87
           else if (65 <=? n) && (n <=? 90) then n - 55
           else base in
  if d <? base then Some d else None.

Fixpoint digits_value (base : Z) (l : list ascii) (acc : Z) : option Z :=
  match l with
  | [] => Some acc
  | a :: l' => d ← digit_of base a; digits_value base l' (acc * base + d)
  end.

(** One digit at least. *)
Definition numeral (base : Z) (l : list ascii) : option Z :=
  match l with
  | [] => None
  | _ => digits_value base l 0
  end.

(** The longest prefix of decimal digits, and the rest. *)
Fixpoint span_digits (l : list ascii) : list ascii * list ascii :=
  match l with
  | a :: l' =>
      if bool_decide (is_Some (digit_of 10 a))
      then let '(ds, rest) := span_digits l' in (a :: ds, rest)
      else ([], l)
  | [] => ([], [])
  end.

(** An optional sign: whether it is a minus, and the rest. *)
Definition split_sign (l : list ascii) : bool * list ascii :=
  match l with
  | "+"%char :: l' => (false, l')
  | "-"%char :: l' => (true, l')
  | _ => (false, l)
  end.

(** [ExponentPart], or nothing: the exponent. *)
Definition exponent_part (l : list ascii) : option Z :=
  match l with
  | [] => Some 0
  | a :: l' =>
      if bool_decide (a = "e"%char ∨ a = "E"%char) then
        let '(neg, ds) := split_sign l' in
        e ← numeral 10 ds; Some (if neg then - e else e)
      else None
  end.

(** The double nearest to [m / p] for positive [m] and [p] (to the
    nearest, ties to even; 53 bits, or the multiples of [2 ^ -1074] near
    zero), when it is a finite integer. *)
Definition integer_quotient (m p : Z) : option Z :=
  let l := Z.log2 m - Z.log2 p in
  let e := if (if 0 <=? l then p * 2 ^ l <=? m else p <=? m * 2 ^ (- l))
           then l else l - 1 in
  let q := Z.max (e - 52) (-1074) in
  let num := if q <? 0 then m * 2 ^ (- q) else m in
  let den := if q <? 0 then p else p * 2 ^ q in
  let m0 := num / den in
  let r := num mod den in
  let m1 := if (den <? 2 * r) || ((2 * r =? den) && Z.odd m0)
            then m0 + 1 else m0 in
  if 0 <=? q then finite_integer (m1 * 2 ^ q)
  else if m1 mod 2 ^ (- q) =? 0 then Some (m1 / 2 ^ (- q)) else None.

(** The double nearest to [m * 10 ^ k] for [m] from 0, when it is a
    finite integer.  Beyond [10 ^ 400] it is [Infinity], and below
    [10 ^ -400] it is 0. *)
Definition integer_double (m k : Z) : option Z :=
  if m =? 0 then Some 0
  else if 0 <=? k then
    if 400 <? k then None else finite_integer (round53 (m * 10 ^ k))
  else if Z.log2 m / 3 + 401 <=? - k then Some 0
  else integer_quotient m (10 ^ (- k)).

(** [StrDecimalLiteral]: sign, digits, fraction and exponent. *)
Definition decimal_literal (l : list ascii) : option Z :=
  let '(neg, l) := split_sign l in
  let '(ip, l) := span_digits l in
  let '(fp, l) := match l with
                  | "."%char :: l' => span_digits l'
                  | _ => ([], l)
                  end in
  if bool_decide (ip = [] ∧ fp = []) then None
  else
    e ← exponent_part l;
    m ← digits_value 10 (ip ++ fp) 0;
    z ← integer_double m (e - Z.of_nat (length fp));
    Some (if neg then - z else z).

(** [StringToNumber] of an ASCII string, when the number is an integer:
    white space is trimmed, the empty string is 0, then a literal in base
    16, 8 or 2, or a decimal literal ([Infinity] is no integer). *)
Definition string_to_integer (s : string) : option Z :=
  match trim (String.list_ascii_of_string s) with
  | [] => Some 0
  | "0"%char :: b :: l =>
      if bool_decide (b = "x"%char ∨ b = "X"%char)
      then n ← numeral 16 l; finite_integer (round53 n)
      else if bool_decide (b = "o"%char ∨ b = "O"%char)
      then n ← numeral 8 l; finite_integer (round53 n)
      else if bool_decide (b = "b"%char ∨ b = "B"%char)
      then n ← numeral 2 l; finite_integer (round53 n)
      else decimal_literal ("0"%char :: b :: l)
  | l => decimal_literal l
  end.

(** [Number(s)] as far as [Number.isInteger] accepts it: the integer, or
    [None] for [NaN], an infinity or a fraction.  [None] as argument is
    [undefined].  A decimal integer numeral, the shape of the strings
    that [renderBoard] stores in a data attribute, is read at once; every
    other string goes through [StringToNumber]. *)
Definition js_Number (s : option string) : option Z :=
  s ← s;
  match NilZero.int_of_string s with
  | Some i => finite_integer (round53 (Z.of_int i))
  | None => string_to_integer s
  end.

(** [s.padStart(n, c)] for a one-character pad [c]. *)
Definition padStart (s : string) (n : nat) (c : ascii) : string :=
  (String.string_of_list_ascii (replicate (n - String.length s) c) ++ s)%string.

(** [Math.floor(x / 60)] is the floor division, [x % 60] the remainder
    with the sign of [x]. *)
Definition formatTime (totalSeconds : Z) : string :=
  let m := padStart (js_String (totalSeconds / 60)) 2 "0"%char in
  let s := padStart (js_String (Z.rem totalSeconds 60)) 2 "0"%char in
  (m ++ ":" ++ s)%string.

(** The [mousedown] listener of [attachEvents] on a target element. *)
Definition cellMouseDown (w : World) (target : Element) (button : Z)
    : outcome World :=
  if negb (bool_decide ("cell"%string ∈ className target)) then Done w
  else
    match js_Number (dataset_r target), js_Number (dataset_c target) with
    | Some r, Some c =>
        if button =? 2 then toggleFlag w r c
        else if button =? 0 then openCell w r c
        else Done w
    | _, _ => Done w
    end.

(** [initGame]; the text of the timer element is display only. *)
Definition initGame (w : World) (rnd : list Q) : outcome World :=
  g ← createGame 9 10 15 rnd;
  let w := stopTimer
             {| game := g; firstClickHappened := false;
                timerIntervalId := timerIntervalId w;
                elapsedSeconds := elapsedSeconds w;
                minesCounterText := minesCounterText w |} in
  w ← updateMinesCounter w;
  _ ← renderBoard (game w);
  Done w.

(** * Vocabulary of the specification *)

(** A board is well formed for [R] rows and [C] columns when it has [R]
    rows of [C] cells each. *)
Definition wf_board (R C : Z) (b : Board) : Prop :=
  Z.of_nat (length b) = R ∧ 0 ≤ C ∧
  Forall (λ row, Z.of_nat (length row) = C) b.

(** The board of a game has the dimensions the game records. *)
Definition wf_game (g : Game) : Prop := wf_board (rows g) (cols g) (board g).

#[global] Instance wf_board_dec R C b : Decision (wf_board R C b).
Proof. unfold wf_board. apply _. Defined.

#[global] Instance wf_game_dec g : Decision (wf_game g).
Proof. unfold wf_game. apply _. Defined.

(** The cell at a coordinate pair. *)
Definition cell_of (b : Board) (p : coord) : option Cell := board_get b p.1 p.2.

(** The number of cells of a board that satisfy [P]. *)
Definition count_cells (P : Cell → bool) (b : Board) : Z :=
  Z.of_nat (length (filter (λ x, P x) (concat b))).

(** The cells [checkWinCondition] counts, and those [getFlagCount] counts. *)
Definition is_unopened_safe (x : Cell) : bool :=
  negb (hasMine x) && negb (bool_decide (state x = Open)).

Definition is_flagged (x : Cell) : bool := bool_decide (state x = Flagged).

(** The offsets in the order in which both double loops over
    [dr, dc = -1 .. 1] visit them. *)
Definition neighbors8 (p : coord) : list coord :=
  [ (p.1 - 1, p.2 - 1); (p.1 - 1, p.2); (p.1 - 1, p.2 + 1);
    (p.1, p.2 - 1); (p.1, p.2 + 1);
    (p.1 + 1, p.2 - 1); (p.1 + 1, p.2); (p.1 + 1, p.2 + 1) ].

(** Orthogonal or diagonal adjacency. *)
Definition adjacent (p q : coord) : Prop :=
  p ≠ q ∧ -1 ≤ q.1 - p.1 ≤ 1 ∧ -1 ≤ q.2 - p.2 ≤ 1.

#[global] Instance adjacent_dec p q : Decision (adjacent p q).
Proof. unfold adjacent. apply _. Defined.

(** A cell the flood loop may push: it exists, is closed and has no mine. *)
Definition pushable (g : Game) (p : coord) : bool :=
  match cell_of (board g) p with
  | Some x => bool_decide (state x = Closed) && negb (hasMine x)
  | None => false
  end.

(** The cells the flood loop can still open. *)
Definition is_closed (x : Cell) : bool := bool_decide (state x = Closed).

(** The rounds still to come are bounded by the stack height plus nine
    times the number of closed cells. *)
Definition flood_measure (g : Game) (stack : list coord) : nat :=
  (length stack + 9 * Z.to_nat (count_cells is_closed (board g)))%nat.

(** A cell that a flood may open: it exists, is closed and has no mine. *)
Definition eligible (g : Game) (p : coord) : Prop :=
  ∃ x, cell_of (board g) p = Some x ∧ state x = Closed ∧ hasMine x = false.

(** A cell whose stored neighbor count is zero. *)
Definition zero_at (g : Game) (p : coord) : Prop :=
  ∃ x, cell_of (board g) p = Some x ∧ neighborMines x = 0.

(** The seed, and every eligible cell adjacent to a zero-count cell of
    the region: the closed zero-count cells connected to the seed through
    closed zero-count cells, plus their closed mine-free neighbors. *)
Inductive flood_region (g : Game) (seed : coord) : coord → Prop :=
| region_seed : eligible g seed → flood_region g seed seed
| region_step z p :
    flood_region g seed z → zero_at g z → adjacent z p → eligible g p →
    flood_region g seed p.

(** State of the flood loop (game, stack, log) related to the game [g0]
    and the seed it started from. *)
Record flood_inv (g0 : Game) (seed : coord)
    (g : Game) (stack opened : list coord) : Prop := {
  inv_wf : wf_game g;
  inv_rows : rows g = rows g0;
  inv_cols : cols g = cols g0;
  inv_cells : ∀ p, cell_of (board g) p =
                if decide (p ∈ opened)
                then set_state Open <$> cell_of (board g0) p
                else cell_of (board g0) p;
  inv_nodup : NoDup opened;
  inv_opened : ∀ p, p ∈ opened → flood_region g0 seed p;
  inv_stack : ∀ p, p ∈ stack → flood_region g0 seed p;
  inv_closed : ∀ z p, z ∈ opened → zero_at g0 z → adjacent z p →
                 eligible g0 p → p ∈ opened ∨ p ∈ stack;
  inv_seed : eligible g0 seed → seed ∈ opened ∨ seed ∈ stack
}.

(** What [revealAllMines] does to one cell. *)
Definition reveal (x : Cell) : Cell :=
  if hasMine x then set_state Open x else x.

(** [openCell]'s bookkeeping of the first click. *)
Definition first_click (w : World) : World :=
  if negb (firstClickHappened w) then startTimer (markFirstClick w) else w.

(** The world [openCell] leaves when the opened board is [b']. *)
Definition after_open (w : World) (b' : Board) : World :=
  let w1 := set_game (first_click w) (set_board (game w) b') in
  if count_cells is_unopened_safe b' =? 0
  then stopTimer (set_game w1 (set_status (game w1) Win))
  else w1.

(** What [toggleFlag] does to a cell that is not open. *)
Definition flip_flag (x : Cell) : Cell :=
  set_state (if bool_decide (state x = Flagged) then Closed else Flagged) x.

(** The number shown as remaining mines. *)
Definition remaining_mines (g : Game) : Z :=
  Z.max 0 (mines g - count_cells is_flagged (board g)).

(** A mine-free cell whose neighbor count is zero, whatever its state. *)
Definition zero_cell (g : Game) (p : coord) : Prop :=
  ∃ x, cell_of (board g) p = Some x ∧ hasMine x = false ∧ neighborMines x = 0.

(** Consecutive entries are adjacent. *)
Fixpoint is_chain (l : list coord) : Prop :=
  match l with
  | [] => True
  | a :: l' =>
      match l' with
      | [] => True
      | b :: _ => adjacent a b ∧ is_chain l'
      end
  end.

(** A path of zero-count cells that connects [seed] to [target]. *)
Definition zero_path (g : Game) (seed target : coord) (path : list coord)
    : Prop :=
  head path = Some seed ∧ list.last path = Some target ∧
  is_chain path ∧ Forall (zero_cell g) path.

(** A row of three mine-free zero-count cells whose middle cell is
    flagged: [createGame(1, 3, 0)] followed by [toggleFlag(0, 1)]. *)
Definition flagged_row : Game :=
  {| rows := 1; cols := 3; mines := 0; status := InProgress;
     board := [ [ mkCell false 0 Closed; mkCell false 0 Flagged;
                  mkCell false 0 Closed ] ] |}.

(** A binary64 value, written [num / 2^k] with at most 53 significant
    bits in [num]. *)
Definition is_double (u : Q) : bool :=
  let k := Z.log2 (Z.pos (Qden u)) in
  (Z.pos (Qden u) =? 2 ^ k) && (k <=? 1074) && (round53 (Qnum u) =? Qnum u).

(** A result of [Math.random()]: a double from 0 up to but not
    including 1. *)
Definition unit_interval (u : Q) : Prop :=
  (0 <= u)%Q ∧ (u < 1)%Q ∧ is_double u = true.

(** Whether [p] is a cell of the board that holds a mine. *)
Definition mine_at (b : Board) (p : coord) : bool :=
  match cell_of b p with
  | Some x => hasMine x
  | None => false
  end.

(** The number of cells of the board that are adjacent (by an edge or a
    corner) to [p] and hold a mine. *)
Definition adjacent_mines (b : Board) (p : coord) : Z :=
  Z.of_nat (length (filter (λ q, mine_at b q) (neighbors8 p))).

(** The cells that the successive rounds of the placement loop draw. *)
Fixpoint draws (rws cls : Z) (rnd : list Q) : list coord :=
  match rnd with
  | u :: v :: rnd' =>
      (random_index u rws, random_index v cls) :: draws rws cls rnd'
  | _ => []
  end.

(** A cell as [createCell] makes it, but for the mine. *)
Definition pristine (x : Cell) : Prop := state x = Closed ∧ neighborMines x = 0.

(** How [openCell] and [toggleFlag] may change one cell: the mine and the
    count stay, and the state stays or becomes the given one. *)
Definition same_layout (x x' : Cell) : Prop :=
  hasMine x' = hasMine x ∧ neighborMines x' = neighborMines x.

(** A click that the [mousedown] listener passes on: the left button
    opens, the right button toggles the flag. *)
Inductive click := LeftClick (r c : Z) | RightClick (r c : Z).

Definition click_on_board (g : Game) (a : click) : Prop :=
  match a with
  | LeftClick r c | RightClick r c => 0 ≤ r < rows g ∧ 0 ≤ c < cols g
  end.

Definition do_click (w : World) (a : click) : outcome World :=
  match a with
  | LeftClick r c => openCell w r c
  | RightClick r c => toggleFlag w r c
  end.

(** A session: the clicks are handled one after the other. *)
Fixpoint play (w : World) (clicks : list click) : outcome World :=
  match clicks with
  | [] => Done w
  | a :: clicks => w ← do_click w a; play w clicks
  end.

(** Mines show only on a lost game, a lost game shows them all, and a
    won game shows every mine-free cell. *)
Definition secure (g : Game) : Prop :=
  (status g ≠ Lose →
   ∀ p x, cell_of (board g) p = Some x → hasMine x = true → state x ≠ Open) ∧
  (status g = Lose →
   ∀ p x, cell_of (board g) p = Some x → hasMine x = true → state x = Open) ∧
  (status g = Win →
   ∀ p x, cell_of (board g) p = Some x → hasMine x = false → state x = Open).

(** The timer runs from the first opening click to the end of the game. *)
Definition timer_ok (w : World) : Prop :=
  timerIntervalId w
  = firstClickHappened w && bool_decide (status (game w) = InProgress).

(** Unless the game is lost, the counter shows the mines minus the flags. *)
Definition counter_ok (w : World) : Prop :=
  status (game w) ≠ Lose → minesCounterText w = remaining_mines (game w).

(** A game nobody has played on yet. *)
Definition fresh (g : Game) : Prop :=
  status g = InProgress ∧
  ∀ p x, cell_of (board g) p = Some x → state x = Closed.

(** The class tokens and the text that a cell is shown with. *)
Definition shown_class (x : Cell) : list string :=
  match state x with
  | Closed => ["cell"%string]
  | Flagged => ["cell"%string; "flag"%string]
  | Open =>
      if hasMine x then ["cell"%string; "mine"%string; "detonated"%string]
      else if 0 <? neighborMines x
           then ["cell"%string; ("number-" ++ js_String (neighborMines x))%string]
           else ["cell"%string]
  end.

Definition shown_text (x : Cell) : string :=
  match state x with
  | Open => if negb (hasMine x) && (0 <? neighborMines x)
            then js_String (neighborMines x) else ""%string
  | _ => ""%string
  end.

(** A cell that has a class for its number: it is not an open mine-free
    cell with a count above 8. *)
Definition showable (x : Cell) : Prop :=
  state x = Open → hasMine x = false → neighborMines x ≤ 8.

(** The element that shows the cell [x] at row [r] and column [c]. *)
Definition cell_element (r c : Z) (x : Cell) : Element :=
  {| className := shown_class x; textContent := shown_text x;
     dataset_r := Some (js_String r); dataset_c := Some (js_String c) |}.

(** The children of the field for a game: row by row, the elements of
    its cells. *)
Definition field_of (g : Game) : list (list Element) :=
  (λ r, (λ c, cell_element r c
                (default (createCell false) (cell_of (board g) (r, c))))
        <$> seqZ 0 (cols g))
  <$> seqZ 0 (rows g).

(** The character of a decimal digit. *)
Definition digit_char (d : Z) : ascii := ascii_of_nat (48 + Z.to_nat d).

(** Reading a five-character clock text back: minutes, a colon, seconds. *)
Definition parseTime (s : string) : option Z :=
  match s with
  | String a (String b (String sep (String c (String d EmptyString)))) =>
      if Ascii.eqb sep ":"%char then
        m ← js_Number (Some (String a (String b EmptyString)));
        s ← js_Number (Some (String c (String d EmptyString)));
        Some (60 * m + s)
      else None
  | _ => None
  end.

(** The numbers with which [Math.random] makes [initGame] mine the first
    fifteen cells of the board, row by row. *)
Definition first_cells_rnd : list Q :=
  flat_map (λ k, [Qmake (k / 10) 8; Qmake (13 * (k mod 10) + 6) 128])
    (seqZ 0 15).

(** A mine-free cell has been opened and none is left unopened. *)
Definition cleared (g : Game) : Prop :=
  (∃ p x, cell_of (board g) p = Some x ∧ hasMine x = false ∧ state x = Open) ∧
  (∀ p x, cell_of (board g) p = Some x → hasMine x = false → state x = Open).

(** The status is [Win] exactly on a cleared board. *)
Definition win_detected (g : Game) : Prop := status g = Win ↔ cleared g.

(** An open mine-free cell whose count has no number class. *)
Definition unshowable (x : Cell) : Prop :=
  state x = Open ∧ hasMine x = false ∧ 8 < neighborMines x.

(** The count of the cell has a number class when it is shown. *)
Definition count_fits (x : Cell) : Prop :=
  hasMine x = false → neighborMines x ≤ 8.

#[global] Instance count_fits_dec x : Decision (count_fits x).
Proof. unfold count_fits. apply _. Defined.

(** Every count that the page may have to show is at most 8, as the
    counts of a generated board are. *)
Definition displayable (g : Game) : Prop :=
  Forall count_fits (concat (board g)).

#[global] Instance displayable_dec g : Decision (displayable g).
Proof. unfold displayable. apply _. Defined.

(** The world [w] once [renderBoard] has shown its game. *)
Definition rendered (w : World) : outcome World :=
  _ ← renderBoard (game w); Done w.

(** The game [createGame 3 3 3] returns when the draws are
    [first_cells_rnd]: the mines are the cells of the first row. *)
Definition first_row_game : Game :=
  mkGame 3 3 3 InProgress
    [ [mkCell true 0 Closed; mkCell true 0 Closed; mkCell true 0 Closed];
      [mkCell false 2 Closed; mkCell false 3 Closed; mkCell false 2 Closed];
      [mkCell false 0 Closed; mkCell false 0 Closed; mkCell false 0 Closed] ].

(** The sample game after the cell (2, 2) has been opened, and after
    the cell (0, 0) has been opened as well. *)
Definition sample_corner_open : World :=
  mkWorld (set_board sampleGame
             (update_cell createSampleBoard 2 2 (set_state Open)))
    true true 0 0.

Definition sample_corners_open : World :=
  mkWorld (set_board sampleGame
             (update_cell (update_cell createSampleBoard 2 2 (set_state Open))
                0 0 (set_state Open)))
    true true 0 0.

(** The sample game with the mine at (1, 1) flagged. *)
Definition sample_flagged_mine : World :=
  mkWorld (set_board sampleGame
             (update_cell createSampleBoard 1 1 (set_state Flagged)))
    false false 0 2.

(** The double nearest to 0.3, which is a little less than 0.3. *)
Definition double_0_3 : Q := 5404319552844595 # 18014398509481984.

(** The doubles nearest to 0.8 and to 0.8999999999999999. *)
Definition double_0_8 : Q := 3602879701896397 # 4503599627370496.
Definition double_below_0_9 : Q := 2026619832316723 # 2251799813685248.


(** * Reasoning about outcomes and loops *)

Lemma bind_Done {A B : Type} (m : outcome A) (f : A → outcome B) (b : B) :
  m ≫= f = Done b ↔ ∃ a, m = Done a ∧ f a = Done b.
Proof.
  destruct m as [a| |]; simpl; split; intros H; try discriminate; eauto;
    destruct H as (a' & H1 & H2); congruence.
Qed.

Lemma for_loop_nil {S : Type} lo hi (body : Z → S → outcome S) s :
  hi ≤ lo → for_loop lo hi body s = Done s.
Proof.
  intros H. unfold for_loop. replace (Z.to_nat (hi - lo)) with 0%nat by lia.
  reflexivity.
Qed.

Lemma for_loop_step {S : Type} lo hi (body : Z → S → outcome S) s :
  lo < hi →
  for_loop lo hi body s = body lo s ≫= for_loop (lo + 1) hi body.
Proof.
  intros H. unfold for_loop.
  replace (Z.to_nat (hi - lo)) with (Datatypes.S (Z.to_nat (hi - (lo + 1)))) by lia.
  reflexivity.
Qed.

(** Invariant rule for a loop whose body always completes. *)
Lemma for_loop_inv {S : Type} (I : Z → S → Prop) lo hi
    (body : Z → S → outcome S) s :
  lo ≤ hi →
  I lo s →
  (∀ i s, lo ≤ i < hi → I i s → ∃ s', body i s = Done s' ∧ I (i + 1) s') →
  ∃ s', for_loop lo hi body s = Done s' ∧ I hi s'.
Proof.
  intros Hle.
  remember (Z.to_nat (hi - lo)) as n eqn:Hn.
  revert lo s Hle Hn. induction n as [|n IH]; intros lo s Hle Hn H0 Hstep.
  - assert (lo = hi) as -> by lia. exists s. by rewrite for_loop_nil by lia.
  - assert (lo < hi) as Hlt by lia.
    destruct (Hstep lo s ltac:(lia) H0) as (s1 & Hb & H1).
    destruct (IH (lo + 1) s1 ltac:(lia) ltac:(lia) H1) as (s2 & Hl & H2).
    { intros i s' Hi. apply Hstep. lia. }
    exists s2. rewrite for_loop_step by lia. rewrite Hb. simpl. done.
Qed.

(** Invariant rule for a loop whose body may throw: what holds if the
    loop completes. *)
Lemma for_loop_inv_done {S : Type} (I : Z → S → Prop) lo hi
    (body : Z → S → outcome S) s s' :
  lo ≤ hi →
  I lo s →
  (∀ i s s', lo ≤ i < hi → I i s → body i s = Done s' → I (i + 1) s') →
  for_loop lo hi body s = Done s' → I hi s'.
Proof.
  intros Hle.
  remember (Z.to_nat (hi - lo)) as n eqn:Hn.
  revert lo s Hle Hn. induction n as [|n IH]; intros lo s Hle Hn H0 Hstep.
  - assert (lo = hi) as -> by lia. rewrite for_loop_nil by lia. congruence.
  - rewrite for_loop_step by lia. intros (s1 & Hb & Hl)%bind_Done.
    apply (IH (lo + 1) s1); [lia|lia| |by intros; eapply Hstep; [lia|..]|done].
    eapply Hstep; [|done..]. lia.
Qed.

(** A [for] loop never stops half-way: it is [Running] only if its body is. *)
Lemma for_loop_not_running {S : Type} lo hi (body : Z → S → outcome S) s :
  (∀ i s, body i s ≠ Running) → for_loop lo hi body s ≠ Running.
Proof.
  intros Hb. unfold for_loop. generalize (Z.to_nat (hi - lo)) as n.
  intros n. revert lo s. induction n as [|n IH]; intros lo s; simpl; [done|].
  specialize (Hb lo s). destruct (body lo s); simpl; [apply IH|done|done].
Qed.

(** * Boards *)

Lemma arr_get_Some {A : Type} (l : list A) i x :
  arr_get l i = Some x ↔ 0 ≤ i ∧ l !! Z.to_nat i = Some x.
Proof. unfold arr_get. case_decide; naive_solver. Qed.

Lemma arr_get_nat {A : Type} (l : list A) (n : nat) :
  arr_get l (Z.of_nat n) = l !! n.
Proof. unfold arr_get. rewrite decide_True by lia. by rewrite Nat2Z.id. Qed.

Lemma board_get_Some b r c x :
  board_get b r c = Some x ↔
  0 ≤ r ∧ 0 ≤ c ∧ ∃ row, b !! Z.to_nat r = Some row ∧ row !! Z.to_nat c = Some x.
Proof.
  unfold board_get. split.
  - intros (row & Hr & Hc)%bind_Some.
    apply arr_get_Some in Hr, Hc. naive_solver.
  - intros (Hr & Hc & row & H1 & H2). apply bind_Some. exists row.
    by rewrite !arr_get_Some.
Qed.

Lemma board_get_wf R C b r c :
  wf_board R C b → is_Some (board_get b r c) ↔ (0 ≤ r < R ∧ 0 ≤ c < C).
Proof.
  intros (HR & HC0 & HC). split.
  - intros [x (Hr & Hc & row & H1 & H2)%board_get_Some].
    pose proof (lookup_lt_Some _ _ _ H1).
    pose proof (lookup_lt_Some _ _ _ H2).
    rewrite Forall_lookup in HC. specialize (HC _ _ H1). simpl in HC. lia.
  - intros [Hr Hc].
    destruct (lookup_lt_is_Some_2 b (Z.to_nat r)) as [row H1]; [lia|].
    rewrite Forall_lookup in HC. pose proof (HC _ _ H1) as Hlen. simpl in Hlen.
    destruct (lookup_lt_is_Some_2 row (Z.to_nat c)) as [x H2]; [lia|].
    exists x. apply board_get_Some. naive_solver.
Qed.

Lemma board_get_inb R C b r c x :
  wf_board R C b → board_get b r c = Some x → 0 ≤ r < R ∧ 0 ≤ c < C.
Proof. intros Hwf H. apply (board_get_wf R C b r c Hwf). eauto. Qed.

Lemma read_cell_Done b r c x :
  read_cell b r c = Done x ↔ board_get b r c = Some x.
Proof. unfold read_cell. destruct (board_get b r c); naive_solver. Qed.

Lemma read_cell_wf R C b r c :
  wf_board R C b → 0 ≤ r < R → 0 ≤ c < C →
  ∃ x, board_get b r c = Some x ∧ read_cell b r c = Done x.
Proof.
  intros Hwf Hr Hc.
  destruct (proj2 (board_get_wf R C b r c Hwf)) as [x Hx]; [done|].
  exists x. split; [done|]. by apply read_cell_Done.
Qed.

Lemma board_get_update b r c f r' c' :
  0 ≤ r → 0 ≤ c →
  board_get (update_cell b r c f) r' c' =
  if decide (r' = r ∧ c' = c) then f <$> board_get b r' c' else board_get b r' c'.
Proof.
  intros Hr Hc. unfold board_get. case_decide as E.
  - destruct E as [-> ->]. unfold update_cell, arr_get.
    rewrite !decide_True by done. rewrite list_lookup_alter_eq.
    destruct (b !! Z.to_nat r) as [row|]; simpl; [|done].
    rewrite ?decide_True by done. by rewrite list_lookup_alter_eq.
  - unfold update_cell, arr_get.
    destruct (decide (0 ≤ r')) as [Hr'|]; [|done].
    destruct (decide (Z.to_nat r = Z.to_nat r')) as [E'|N].
    + assert (r' = r) as -> by lia. rewrite list_lookup_alter_eq.
      destruct (b !! Z.to_nat r) as [row|]; simpl; [|done].
      destruct (decide (0 ≤ c')) as [Hc'|]; [|done].
      rewrite list_lookup_alter_ne; [done|lia].
    + by rewrite list_lookup_alter_ne.
Qed.

Lemma update_cell_wf R C b r c f :
  wf_board R C b → wf_board R C (update_cell b r c f).
Proof.
  intros (HR & HC0 & HC). split; [|split; [done|]].
  - unfold update_cell. by rewrite length_alter.
  - unfold update_cell. apply Forall_alter; [done|].
    intros row Hrow Hlen. by rewrite length_alter.
Qed.

Lemma list_alter_middle {A : Type} (f : A → A) (l : list A) i x :
  l !! i = Some x → alter f i l = take i l ++ f x :: drop (S i) l.
Proof.
  revert i. induction l as [|y l IH]; intros [|i] H; simplify_eq/=; [done|].
  f_equal. by apply IH.
Qed.

(** Updating one cell replaces exactly one element of the flattened board. *)
Lemma update_cell_concat b r c x :
  board_get b r c = Some x →
  ∃ l1 l2, concat b = l1 ++ x :: l2 ∧
           ∀ f, concat (update_cell b r c f) = l1 ++ f x :: l2.
Proof.
  intros (Hr & Hc & row & H1 & H2)%board_get_Some.
  exists (concat (take (Z.to_nat r) b) ++ take (Z.to_nat c) row),
         (drop (S (Z.to_nat c)) row ++ concat (drop (S (Z.to_nat r)) b)).
  split.
  - rewrite <- (take_drop_middle b _ _ H1) at 1.
    rewrite concat_app. simpl.
    rewrite <- (take_drop_middle row _ _ H2) at 1.
    by rewrite <- !app_assoc.
  - intros f. unfold update_cell.
    rewrite (list_alter_middle _ _ _ _ H1), (list_alter_middle _ _ _ _ H2).
    rewrite concat_app. simpl. by rewrite <- !app_assoc.
Qed.

Lemma update_cell_same b r c f x :
  board_get b r c = Some x → f x = x → update_cell b r c f = b.
Proof.
  intros (Hr & Hc & row & H1 & H2)%board_get_Some Hf. unfold update_cell.
  rewrite (list_alter_middle _ _ _ _ H1), (list_alter_middle _ _ _ _ H2), Hf.
  rewrite (take_drop_middle row _ _ H2). apply take_drop_middle, H1.
Qed.

Lemma count_cells_update (P : Cell → bool) b r c f x :
  board_get b r c = Some x →
  count_cells P (update_cell b r c f) =
  count_cells P b - Z.b2z (P x) + Z.b2z (P (f x)).
Proof.
  intros H. destruct (update_cell_concat _ _ _ _ H) as (l1 & l2 & E1 & E2).
  unfold count_cells. rewrite E1, E2, !list.filter_app, !list.filter_cons, !length_app.
  destruct (P x), (P (f x)); simpl;
    repeat (rewrite decide_True by done); repeat (rewrite decide_False by (by intros [])); simpl; lia.
Qed.

Lemma count_cells_bounds P b : 0 ≤ count_cells P b ≤ Z.of_nat (length (concat b)).
Proof. unfold count_cells. pose proof (length_filter (λ x, P x) (concat b)). lia. Qed.

Lemma wf_board_size R C b :
  wf_board R C b → Z.of_nat (length (concat b)) = R * C.
Proof.
  intros (HR & _ & HC). subst R. induction b as [|row b IH]; simpl; [lia|].
  apply list.Forall_cons in HC as [Hrow HC]. rewrite length_app. specialize (IH HC). lia.
Qed.

Lemma update_cell_ext b r c f g x :
  board_get b r c = Some x → f x = g x → update_cell b r c f = update_cell b r c g.
Proof.
  intros (Hr & Hc & row & H1 & H2)%board_get_Some Hf. unfold update_cell.
  rewrite !(list_alter_middle _ _ _ _ H1), !(list_alter_middle _ _ _ _ H2).
  by rewrite Hf.
Qed.

(** ** The double loop over all cells *)

Section cell_loops.
Context {S : Type} (R C : Z) (proj : S → Board).

(** A double loop whose body rewrites the visited cell in place: on
    completion every cell [x] at [(r, c)] has become [F r c x]. *)
Lemma cells_loop_update (Cf : S → Z) (body : Z → Z → S → outcome S)
    (F : Z → Z → Cell → Cell) (Inv : S → Prop) (s : S) :
  wf_board R C (proj s) → Inv s →
  (∀ s, Inv s → Cf s = C) →
  (∀ s r c x, wf_board R C (proj s) → Inv s →
     board_get (proj s) r c = Some x →
     ∃ s' f, body r c s = Done s' ∧
             proj s' = update_cell (proj s) r c f ∧ f x = F r c x ∧ Inv s') →
  ∃ s', for_loop 0 R (λ r s, for_loop 0 (Cf s) (λ c s, body r c s) s) s
          = Done s' ∧
        wf_board R C (proj s') ∧ Inv s' ∧
        ∀ r c, board_get (proj s') r c = F r c <$> board_get (proj s) r c.
Proof.
  intros Hwf HI HCf Hbody.
  assert (HR : 0 ≤ R) by (destruct Hwf; lia).
  assert (HC : 0 ≤ C) by (by destruct Hwf as (_ & ? & _)).
  pose (J := λ (i j : Z) (s' : S),
    wf_board R C (proj s') ∧ Inv s' ∧
    ∀ r c, board_get (proj s') r c =
           if decide (r < i ∨ (r = i ∧ c < j))
           then F r c <$> board_get (proj s) r c
           else board_get (proj s) r c).
  assert (Hnone : ∀ r c, ¬ (0 ≤ r < R ∧ 0 ≤ c < C) → board_get (proj s) r c = None).
  { intros r c Hn. destruct (board_get (proj s) r c) eqn:E; [|done].
    destruct Hn. by eapply board_get_inb. }
  destruct (for_loop_inv (λ i s', J i 0 s') 0 R
              (λ r s, for_loop 0 (Cf s) (λ c s, body r c s) s) s HR)
    as (s' & Hs' & Hwf' & HI' & Hget).
  - split; [done|]. split; [done|]. intros r c. case_decide as E; [|done].
    rewrite Hnone by lia. done.
  - intros i s1 Hi H1. rewrite (HCf s1) by apply H1.
    destruct (for_loop_inv (λ j s', J i j s') 0 C (λ c s, body i c s) s1 HC H1)
      as (s2 & Hs2 & Hwf2 & HI2 & Hget2).
    + intros j s2 Hj (Hwf2 & HI2 & Hget2).
      destruct (read_cell_wf R C (proj s2) i j Hwf2) as (x & Hx & _); [lia..|].
      destruct (Hbody s2 i j x Hwf2 HI2 Hx) as (s3 & f & Hb & Hp & Hf & HI3).
      exists s3. split; [done|]. split; [|split; [done|]].
      { rewrite Hp. by apply update_cell_wf. }
      intros r c. rewrite Hp, board_get_update by lia.
      destruct (decide (r = i ∧ c = j)) as [[-> ->]|N].
      * rewrite Hx. rewrite Hget2 in Hx. rewrite decide_False in Hx by lia.
        rewrite decide_True by lia. rewrite Hx. simpl. by rewrite Hf.
      * rewrite Hget2. repeat case_decide; try done; lia.
    + exists s2. split; [done|]. split; [done|]. split; [done|].
      intros r c. rewrite Hget2.
      destruct (decide (0 ≤ r < R ∧ 0 ≤ c < C)).
      * repeat case_decide; try done; lia.
      * rewrite Hnone by done. by repeat case_decide.
  - exists s'. split; [done|]. split; [done|]. split; [done|].
    intros r c. rewrite Hget.
    destruct (decide (0 ≤ r < R ∧ 0 ≤ c < C)).
    + rewrite decide_True; [done|lia].
    + rewrite Hnone by done. by case_decide.
Qed.
End cell_loops.

(** A double loop that counts the cells satisfying [P]. *)
Lemma cells_loop_count (R C : Z) (P : Cell → bool) (b : Board) (n0 : Z) :
  wf_board R C b →
  for_loop 0 R (λ r n,
    for_loop 0 C (λ c n,
      x ← read_cell b r c; if P x then Done (n + 1) else Done n) n) n0
  = Done (n0 + count_cells P b).
Proof.
  intros Hwf. pose proof Hwf as (HR & HC0 & HC).
  pose (cnt := λ l : list Cell, Z.of_nat (length (filter (λ x, P x) l))).
  assert (Hcnt_app : ∀ l x, cnt (l ++ [x]) = cnt l + Z.b2z (P x)).
  { intros l x. unfold cnt. rewrite list.filter_app, length_app, list.filter_cons.
    destruct (P x); simpl; lia. }
  destruct (for_loop_inv
    (λ i n, n = n0 + cnt (concat (take (Z.to_nat i) b))) 0 R
    (λ r n, for_loop 0 C (λ c n,
       x ← read_cell b r c; if P x then Done (n + 1) else Done n) n) n0)
    as (n & Hn & ->).
  - lia.
  - unfold cnt. simpl. lia.
  - intros i n1 Hi ->.
    destruct (lookup_lt_is_Some_2 b (Z.to_nat i)) as [row Hrow]; [lia|].
    assert (Z.of_nat (length row) = C) as Hlen.
    { rewrite Forall_lookup in HC. apply (HC _ _ Hrow). }
    destruct (for_loop_inv
      (λ j n, n = n0 + cnt (concat (take (Z.to_nat i) b) ++ take (Z.to_nat j) row))
      0 C (λ c n, x ← read_cell b i c; if P x then Done (n + 1) else Done n)
      (n0 + cnt (concat (take (Z.to_nat i) b)))) as (n & Hn & ->).
    + lia.
    + simpl. by rewrite app_nil_r.
    + intros j n2 Hj ->.
      destruct (lookup_lt_is_Some_2 row (Z.to_nat j)) as [x Hx]; [lia|].
      assert (read_cell b i j = Done x) as ->.
      { apply read_cell_Done, board_get_Some. split; [lia|]. split; [lia|]. eauto. }
      simpl. exists (n0 + cnt (concat (take (Z.to_nat i) b) ++ take (Z.to_nat j) row)
                     + Z.b2z (P x)).
      split; [destruct (P x); simpl; f_equal; lia|].
      replace (Z.to_nat (j + 1)) with (Datatypes.S (Z.to_nat j)) by lia.
      rewrite (take_S_r _ _ _ Hx), app_assoc, Hcnt_app. lia.
    + exists (n0 + cnt (concat (take (Z.to_nat i) b) ++ take (Z.to_nat C) row)).
      split; [done|].
      replace (Z.to_nat (i + 1)) with (Datatypes.S (Z.to_nat i)) by lia.
      rewrite (take_S_r _ _ _ Hrow), concat_app. simpl. rewrite app_nil_r.
      rewrite (take_ge row) by lia. done.
  - rewrite Hn. f_equal. rewrite take_ge by lia. done.
Qed.

(** A double loop that only reads every cell completes. *)
Lemma cells_loop_read (R C : Z) (b : Board) :
  wf_board R C b →
  for_loop 0 R (λ r u,
    for_loop 0 C (λ c u, x ← read_cell b r c; Done u) u) () = Done ().
Proof.
  intros Hwf.
  assert (HR : 0 ≤ R) by (destruct Hwf; lia).
  assert (HC : 0 ≤ C) by (by destruct Hwf as (_ & ? & _)).
  destruct (for_loop_inv (λ _ _, True) 0 R
    (λ r u, for_loop 0 C (λ c (u : ()), x ← read_cell b r c; Done u) u) () HR I)
    as ([] & H & _); [|done].
  intros i [] Hi _.
  destruct (for_loop_inv (λ _ _, True) 0 C
    (λ c (u : ()), x ← read_cell b i c; Done u) () HC I) as ([] & H & _); [|eauto].
  intros j [] Hj _. destruct (read_cell_wf R C b i j Hwf) as (x & _ & ->); [lia..|].
  simpl. eauto.
Qed.

(** A loop whose body always completes is a left fold over its indices. *)
Lemma for_loop_pure {S : Type} lo hi (body : Z → S → outcome S)
    (step : Z → S → S) s :
  (∀ i s, lo ≤ i < hi → body i s = Done (step i s)) →
  for_loop lo hi body s = Done (foldl (λ s i, step i s) s (seqZ lo (hi - lo))).
Proof.
  remember (Z.to_nat (hi - lo)) as n eqn:Hn.
  revert lo s Hn. induction n as [|n IH]; intros lo s Hn Hb.
  - rewrite for_loop_nil by lia. by rewrite seqZ_nil by lia.
  - rewrite for_loop_step, Hb by lia. simpl.
    rewrite (IH (lo + 1)); [|lia|intros; apply Hb; lia].
    rewrite (seqZ_cons lo) by lia. simpl.
    by replace (Z.pred (hi - lo)) with (hi - (lo + 1)) by lia.
Qed.

(** ** The eight neighbors *)

Lemma elem_of_neighbors8 p q : q ∈ neighbors8 p ↔ adjacent p q.
Proof.
  destruct p as [r c], q as [r' c']. unfold neighbors8, adjacent. simpl.
  rewrite !elem_of_cons, elem_of_nil. split.
  - intros H. repeat (destruct H as [H|H]); try done; simplify_eq;
      (split; [intros ?; simplify_eq; lia|lia]).
  - intros (Hne & Hr & Hc).
    assert (r' = r - 1 ∨ r' = r ∨ r' = r + 1) as Hr' by lia.
    assert (c' = c - 1 ∨ c' = c ∨ c' = c + 1) as Hc' by lia.
    destruct Hr' as [->|[->| ->]], Hc' as [->|[->| ->]]; try done; tauto.
Qed.

Lemma NoDup_neighbors8 p : NoDup (neighbors8 p).
Proof.
  destruct p as [r c]. unfold neighbors8. simpl.
  repeat (apply NoDup_cons_2;
    [rewrite ?elem_of_cons, elem_of_nil; intros H;
     repeat (destruct H as [H|H]); try done; simplify_eq; lia|]).
  apply NoDup_nil_2.
Qed.

Lemma adjacent_sym p q : adjacent p q → adjacent q p.
Proof. unfold adjacent. intros (? & ? & ?). split; [done|lia]. Qed.

Lemma foldl_push {A : Type} (P : A → bool) (l st : list A) :
  foldl (λ st p, if P p then p :: st else st) st l
  = reverse (filter (λ p, P p) l) ++ st.
Proof.
  revert st. induction l as [|x l IH]; intros st; simpl; [done|].
  rewrite IH, list.filter_cons. destruct (P x); simpl; [|done].
  by rewrite reverse_cons, <- app_assoc.
Qed.

(** ** Flood reveal *)

Lemma inBounds_spec g r c :
  inBounds g r c = true ↔ (0 ≤ r < rows g ∧ 0 ≤ c < cols g).
Proof. unfold inBounds. rewrite !andb_true_iff. lia. Qed.

Lemma inBounds_wf g r c :
  wf_game g → inBounds g r c = true ↔ is_Some (board_get (board g) r c).
Proof. intros Hwf. rewrite inBounds_spec. symmetry. by apply board_get_wf. Qed.

Lemma pushNeighbors_wf g cr cc st :
  wf_game g →
  pushNeighbors g cr cc st
  = Done (reverse (filter (λ p, pushable g p) (neighbors8 (cr, cc))) ++ st).
Proof.
  intros Hwf. unfold pushNeighbors.
  pose (step := λ (dr dc : Z) (st : list coord),
    if (dr =? 0) && (dc =? 0) then st
    else if pushable g (cr + dr, cc + dc) then (cr + dr, cc + dc) :: st else st).
  rewrite (for_loop_pure _ _ _
    (λ dr st, foldl (λ st dc, step dr dc st) st [-1; 0; 1])).
  - change (seqZ (-1) (2 - -1)) with [-1; 0; 1]. rewrite <- foldl_push.
    unfold step. simpl. rewrite !Z.add_0_r. reflexivity.
  - intros dr st1 _.
    rewrite (for_loop_pure _ _ _ (step dr)); [done|].
    intros dc st2 _. unfold step.
    destruct ((dr =? 0) && (dc =? 0)); [done|].
    unfold pushable, cell_of. simpl.
    destruct (inBounds g (cr + dr) (cc + dc)) eqn:E.
    + apply inBounds_wf in E as [x Hx]; [|done].
      rewrite (proj2 (read_cell_Done _ _ _ _) Hx), Hx. simpl.
      by destruct (bool_decide (state x = Closed) && negb (hasMine x)).
    + destruct (board_get (board g) (cr + dr) (cc + dc)) eqn:Hx; [|done].
      assert (inBounds g (cr + dr) (cc + dc) = true) by (apply inBounds_wf; eauto).
      congruence.
Qed.

(** On any game the push loop completes or throws, and pushes at most
    eight entries. *)
Lemma pushNeighbors_length g cr cc st st' :
  pushNeighbors g cr cc st = Done st' →
  (length st' ≤ length st + 8)%nat.
Proof.
  unfold pushNeighbors. intros H.
  pose (cnt := λ dr dc : Z, 3 * (dr + 1) + (dc + 1)).
  apply (for_loop_inv_done
    (λ dr st', Z.of_nat (length st') ≤ Z.of_nat (length st) + 3 * (dr + 1)
               - (if decide (0 < dr) then 1 else 0))) in H.
  - case_decide; lia.
  - lia.
  - case_decide; lia.
  - clear. intros dr st1 st2 Hdr H1 H2.
    apply (for_loop_inv_done
      (λ dc st', Z.of_nat (length st') ≤ Z.of_nat (length st) + 3 * (dr + 1)
                 + (dc + 1)
                 - (if decide (0 < dr ∨ (dr = 0 ∧ 0 < dc)) then 1 else 0))) in H2.
    + repeat case_decide; lia.
    + lia.
    + repeat case_decide; lia.
    + clear. intros dc st3 st4 Hdc H3 H4.
      destruct (decide (dr = 0 ∧ dc = 0)) as [[-> ->]|N].
      * simpl in H4. simplify_eq. repeat case_decide; lia.
      * assert ((dr =? 0) && (dc =? 0) = false) as E.
        { apply andb_false_iff. lia. }
        rewrite E in H4.
        assert (length st4 ≤ S (length st3))%nat.
        { destruct (inBounds _ _ _); [|simplify_eq; lia].
          apply bind_Done in H4 as (x & _ & H4).
          destruct (_ && _); simplify_eq; simpl; lia. }
        repeat case_decide; lia.
Qed.

Lemma pushNeighbors_not_running g cr cc st : pushNeighbors g cr cc st ≠ Running.
Proof.
  apply for_loop_not_running. intros dr st1.
  apply for_loop_not_running. intros dc st2. cbv beta zeta.
  destruct ((dr =? 0) && (dc =? 0)); [done|].
  destruct (inBounds g (cr + dr) (cc + dc)); [|done].
  unfold read_cell. destruct (board_get _ _ _) as [x|]; simpl; [|done].
  by destruct (_ && _).
Qed.

(** ** Termination of the flood loop *)

Lemma flood_measure_fuel g r c : (flood_measure g [(r, c)] ≤ flood_fuel g)%nat.
Proof.
  unfold flood_measure, flood_fuel. simpl.
  pose proof (count_cells_bounds is_closed (board g)). lia.
Qed.

(** One round of the loop on a cell that is opened. *)
Lemma open_closed_count g cr cc x :
  board_get (board g) cr cc = Some x → state x = Closed →
  count_cells is_closed (update_cell (board g) cr cc (set_state Open))
  = count_cells is_closed (board g) - 1.
Proof.
  intros Hx Hs. rewrite (count_cells_update _ _ _ _ _ _ Hx).
  unfold is_closed. simpl. rewrite Hs. simpl. lia.
Qed.

Lemma floodLoop_terminates fuel g stack opened :
  (flood_measure g stack ≤ fuel)%nat →
  floodLoop fuel g stack opened ≠ Running.
Proof.
  revert g stack opened.
  induction fuel as [|fuel IH]; intros g [|[cr cc] stack] opened Hm; simpl;
    try done.
  { unfold flood_measure in Hm. simpl in Hm. lia. }
  unfold read_cell. destruct (board_get (board g) cr cc) as [x|] eqn:Hx; [|done].
  unfold flood_measure in *. simpl in Hm.
  destruct (negb (bool_decide (state x = Closed)) || hasMine x) eqn:Hskip.
  { apply IH. lia. }
  apply orb_false_iff in Hskip as [Hc%negb_false_iff%bool_decide_eq_true _].
  pose proof (open_closed_count g cr cc x Hx Hc) as Hcnt.
  pose proof (count_cells_bounds is_closed
                (update_cell (board g) cr cc (set_state Open))) as Hb.
  destruct (neighborMines x =? 0).
  - destruct (pushNeighbors _ cr cc stack) as [stack'| |] eqn:Hp; [|done|].
    + apply pushNeighbors_length in Hp. apply IH. simpl. lia.
    + by apply pushNeighbors_not_running in Hp.
  - apply IH. simpl. lia.
Qed.

(** Fuel beyond what the loop needs does not change its result. *)
Lemma floodLoop_fuel_mono fuel fuel' g stack opened :
  floodLoop fuel g stack opened ≠ Running → (fuel ≤ fuel')%nat →
  floodLoop fuel' g stack opened = floodLoop fuel g stack opened.
Proof.
  revert fuel' g stack opened.
  induction fuel as [|fuel IH]; intros fuel' g [|[cr cc] stack] opened Hr Hle;
    try (by destruct fuel'); try done.
  destruct fuel' as [|fuel']; [lia|]. simpl in *.
  destruct (read_cell (board g) cr cc) as [x| |]; [|done..].
  destruct (negb (bool_decide (state x = Closed)) || hasMine x).
  { apply IH; [done|lia]. }
  destruct (neighborMines x =? 0).
  - destruct (pushNeighbors _ cr cc stack); [|done..]. apply IH; [done|lia].
  - apply IH; [done|lia].
Qed.

(** The loop changes nothing of the game but its board. *)
Lemma floodLoop_frame fuel g stack opened g' opened' :
  floodLoop fuel g stack opened = Done (g', opened') →
  rows g' = rows g ∧ cols g' = cols g ∧ mines g' = mines g ∧
  status g' = status g.
Proof.
  revert g stack opened.
  induction fuel as [|fuel IH]; intros g [|[cr cc] stack] opened H; simpl in H;
    simplify_eq; try done.
  destruct (read_cell (board g) cr cc) as [x| |]; [|done..].
  destruct (negb (bool_decide (state x = Closed)) || hasMine x); [by eapply IH|].
  destruct (neighborMines x =? 0).
  - destruct (pushNeighbors _ cr cc stack); [|done..].
    by apply IH in H.
  - by apply IH in H.
Qed.

(** ** The region a flood reveals *)

Lemma flood_region_eligible g seed p : flood_region g seed p → eligible g p.
Proof. by destruct 1. Qed.

Lemma pushable_eligible g p : pushable g p = true ↔ eligible g p.
Proof.
  unfold pushable, eligible. destruct (cell_of (board g) p) as [x|].
  - rewrite andb_true_iff, bool_decide_eq_true, negb_true_iff. naive_solver.
  - naive_solver.
Qed.

Section flood.
Variables (g0 : Game) (seed : coord).
Hypothesis wf0 : wf_game g0.

Lemma flood_inv_init : eligible g0 seed → flood_inv g0 seed g0 [seed] [].
Proof.
  intros He. split; try done.
  - apply NoDup_nil_2.
  - intros p Hp. by apply elem_of_nil in Hp.
  - intros p ->%list_elem_of_singleton. by constructor.
  - intros z p Hz. by apply elem_of_nil in Hz.
  - intros _. right. by apply list_elem_of_singleton.
Qed.

Lemma floodLoop_inv fuel g stack opened g' opened' :
  flood_inv g0 seed g stack opened →
  floodLoop fuel g stack opened = Done (g', opened') →
  flood_inv g0 seed g' [] opened'.
Proof.
  revert g stack opened.
  induction fuel as [|fuel IH]; intros g [|[cr cc] stack] opened HI H;
    simpl in H; simplify_eq; try done.
  pose proof (inv_stack _ _ _ _ _ HI (cr, cc) ltac:(left)) as Hreg.
  pose proof (flood_region_eligible _ _ _ Hreg) as (x0 & Hx0 & Hc0 & Hm0).
  pose proof (inv_cells _ _ _ _ _ HI (cr, cc)) as Hcell.
  destruct (read_cell (board g) cr cc) as [x| |] eqn:Hx; [|done..].
  apply read_cell_Done in Hx. unfold cell_of in Hcell. simpl in Hcell.
  rewrite Hx in Hcell.
  destruct (negb (bool_decide (state x = Closed)) || hasMine x) eqn:Hskip.
  - (* already opened: the entry is discarded *)
    assert ((cr, cc) ∈ opened) as Hin.
    { destruct (decide ((cr, cc) ∈ opened)); [done|].
      unfold cell_of in Hx0. simpl in Hx0. rewrite Hx0 in Hcell. simplify_eq.
      rewrite Hc0, Hm0 in Hskip. by rewrite bool_decide_eq_true_2 in Hskip. }
    apply (IH g stack opened); [|done]. destruct HI. split; try done.
    + intros p Hp. apply inv_stack0. by right.
    + intros z p Hz Hzero Hadj Hel.
      destruct (inv_closed0 z p Hz Hzero Hadj Hel) as [?|[->|?]%elem_of_cons];
        auto.
    + intros Hel. destruct (inv_seed0 Hel) as [?|[->|?]%elem_of_cons]; auto.
  - (* the cell is opened *)
    apply orb_false_iff in Hskip
      as [Hc%negb_false_iff%bool_decide_eq_true Hm].
    assert ((cr, cc) ∉ opened) as Hnin.
    { intros Hin. rewrite decide_True in Hcell by done.
      unfold cell_of in Hx0. simpl in Hx0. rewrite Hx0 in Hcell.
      simpl in Hcell. simplify_eq. }
    rewrite decide_False in Hcell by done.
    unfold cell_of in Hx0. simpl in Hx0. rewrite Hx0 in Hcell.
    assert (x0 = x) as -> by congruence. clear Hcell.
    pose proof (board_get_inb _ _ _ _ _ _ (inv_wf _ _ _ _ _ HI) Hx) as [Hr0 Hc0'].
    set (g1 := set_board g (update_cell (board g) cr cc (set_state Open))) in *.
    assert (Hwf1 : wf_game g1) by (apply update_cell_wf, (inv_wf _ _ _ _ _ HI)).
    assert (Hcells1 : ∀ p, cell_of (board g1) p =
               if decide (p ∈ (cr, cc) :: opened)
               then set_state Open <$> cell_of (board g0) p
               else cell_of (board g0) p).
    { intros [r c]. unfold cell_of. simpl. rewrite board_get_update by lia.
      pose proof (inv_cells _ _ _ _ _ HI (r, c)) as Hrc.
      unfold cell_of in Hrc. simpl in Hrc.
      destruct (decide (r = cr ∧ c = cc)) as [[-> ->]|N].
      - rewrite decide_True by left. by rewrite Hx, Hx0.
      - rewrite Hrc. destruct (decide ((r, c) ∈ opened)).
        + rewrite decide_True; [done|by right].
        + rewrite decide_False; [done|].
          intros [?|?]%elem_of_cons; [simplify_eq; lia|done]. }
    assert (Hbase : ∀ stack',
      (∀ p, p ∈ stack' → flood_region g0 seed p) →
      (∀ p, p ∈ stack → p ∈ stack') →
      (neighborMines x = 0 → ∀ p, adjacent (cr, cc) p → eligible g0 p →
         p ∈ (cr, cc) :: opened ∨ p ∈ stack') →
      flood_inv g0 seed g1 stack' ((cr, cc) :: opened)).
    { intros stack' Hst Hsub Hnew. destruct HI. split; try done.
      - by apply NoDup_cons_2.
      - intros p [->|?]%elem_of_cons; auto.
      - intros z p [->|Hz]%elem_of_cons Hzero Hadj Hel.
        + destruct Hzero as (y & Hy & Hy0).
          unfold cell_of in Hy. simpl in Hy. rewrite Hx0 in Hy. simplify_eq.
          by apply Hnew.
        + destruct (inv_closed0 z p Hz Hzero Hadj Hel)
            as [?|[->|?]%elem_of_cons].
          * left. by right.
          * left. by left.
          * right. by apply Hsub.
      - intros Hel. destruct (inv_seed0 Hel) as [?|[->|?]%elem_of_cons].
        + left. by right.
        + left. by left.
        + right. by apply Hsub. }
    destruct (neighborMines x =? 0) eqn:Hz.
    + rewrite (pushNeighbors_wf g1 cr cc stack Hwf1) in H.
      refine (IH _ _ _ _ H). apply Hbase.
      * intros p [Hp|Hp]%elem_of_app.
        -- apply elem_of_reverse, list_elem_of_filter in Hp as [Hp Hadj].
           apply Is_true_true, pushable_eligible in Hp.
           apply elem_of_neighbors8 in Hadj.
           destruct Hp as (y & Hy & Hyc & Hym).
           rewrite Hcells1 in Hy.
           destruct (decide (p ∈ (cr, cc) :: opened)).
           { destruct (cell_of (board g0) p); simplify_eq/=. }
           apply (region_step _ _ (cr, cc) p); [done| |done|by exists y].
           exists x. split; [done|]. lia.
        -- apply (inv_stack _ _ _ _ _ HI). by right.
      * intros p Hp. apply elem_of_app. by right.
      * intros _ p Hadj Hel.
        destruct (decide (p ∈ (cr, cc) :: opened)) as [|Hn]; [by left|].
        right. apply elem_of_app. left.
        apply elem_of_reverse, list_elem_of_filter. split.
        -- apply Is_true_true, pushable_eligible.
           destruct Hel as (y & Hy & ? & ?). exists y.
           rewrite Hcells1, decide_False by done. done.
        -- by apply elem_of_neighbors8.
    + refine (IH _ _ _ _ H). apply Hbase.
      * intros p Hp. apply (inv_stack _ _ _ _ _ HI). by right.
      * done.
      * lia.
Qed.

(** When the stack is empty, the log is exactly the region. *)
Lemma flood_inv_final g opened p :
  flood_inv g0 seed g [] opened → p ∈ opened ↔ flood_region g0 seed p.
Proof.
  intros HI. split; [apply (inv_opened _ _ _ _ _ HI)|].
  induction 1 as [Hel|z p Hz IH Hzero Hadj Hel].
  - destruct (inv_seed _ _ _ _ _ HI Hel) as [?|[]%elem_of_nil]; done.
  - destruct (inv_closed _ _ _ _ _ HI z p IH Hzero Hadj Hel) as [?|[]%elem_of_nil].
    done.
Qed.
End flood.

Lemma cell_of_update b r c f p :
  0 ≤ r → 0 ≤ c →
  cell_of (update_cell b r c f) p =
  if decide (p = (r, c)) then f <$> cell_of b p else cell_of b p.
Proof.
  intros Hr Hc. destruct p as [r' c']. unfold cell_of. simpl.
  rewrite board_get_update by done.
  destruct (decide (r' = r ∧ c' = c)) as [[-> ->]|N].
  - by rewrite decide_True.
  - rewrite decide_False; [done|]. intros [= -> ->]. by destruct N.
Qed.

(** On a well-formed game whose stack holds existing cells the loop does
    not throw. *)
Lemma floodLoop_no_throw fuel g stack opened :
  wf_game g → (∀ p, p ∈ stack → is_Some (cell_of (board g) p)) →
  floodLoop fuel g stack opened ≠ Throws.
Proof.
  revert g stack opened.
  induction fuel as [|fuel IH]; intros g [|[cr cc] stack] opened Hwf Hst;
    simpl; try done.
  destruct (Hst (cr, cc)) as [x Hx]; [left|]. unfold cell_of in Hx. simpl in Hx.
  rewrite (proj2 (read_cell_Done _ _ _ _) Hx).
  destruct (negb (bool_decide (state x = Closed)) || hasMine x).
  { apply IH; [done|]. intros p Hp. apply Hst. by right. }
  pose proof (board_get_inb _ _ _ _ _ _ Hwf Hx) as [Hr Hc].
  set (g1 := set_board g (update_cell (board g) cr cc (set_state Open))).
  assert (Hwf1 : wf_game g1) by (by apply update_cell_wf).
  assert (Hsome : ∀ p, is_Some (cell_of (board g) p) →
                       is_Some (cell_of (board g1) p)).
  { intros p [y Hy]. unfold g1. simpl. rewrite cell_of_update by lia.
    rewrite Hy. case_decide; simpl; eauto. }
  destruct (neighborMines x =? 0).
  - rewrite (pushNeighbors_wf g1 cr cc stack Hwf1). apply IH; [done|].
    intros p [Hp|Hp]%elem_of_app.
    + apply elem_of_reverse, list_elem_of_filter in Hp as [Hp _].
      apply Is_true_true in Hp. unfold pushable in Hp.
      destruct (cell_of (board g1) p); [eauto|done].
    + apply Hsome, Hst. by right.
  - apply IH; [done|]. intros p Hp. apply Hsome, Hst. by right.
Qed.

(** On any game, the log of a completed loop has no repetition: a cell
    enters it when it goes from [Closed] to [Open], and an [Open] cell is
    never opened again. *)
Lemma floodLoop_once fuel g stack opened g' opened' :
  NoDup opened →
  (∀ p, p ∈ opened → ∃ x, cell_of (board g) p = Some x ∧ state x = Open) →
  floodLoop fuel g stack opened = Done (g', opened') →
  NoDup opened' ∧
  (∀ p, p ∈ opened' → ∃ x, cell_of (board g') p = Some x ∧ state x = Open) ∧
  (∀ p, p ∈ opened' → p ∉ opened →
        ∃ x, cell_of (board g) p = Some x ∧ state x = Closed).
Proof.
  revert g stack opened.
  induction fuel as [|fuel IH]; intros g [|[cr cc] stack] opened Hnd Hop H;
    simpl in H; simplify_eq; try done.
  destruct (read_cell (board g) cr cc) as [x| |] eqn:Hx; [|done..].
  apply read_cell_Done in Hx.
  destruct (negb (bool_decide (state x = Closed)) || hasMine x) eqn:Hskip.
  { by apply (IH g stack opened). }
  apply orb_false_iff in Hskip as [Hc%negb_false_iff%bool_decide_eq_true Hm].
  pose proof Hx as (Hr & Hc' & _)%board_get_Some.
  set (g1 := set_board g (update_cell (board g) cr cc (set_state Open))) in *.
  assert (Hnin : (cr, cc) ∉ opened).
  { intros (y & Hy & Hys)%Hop. unfold cell_of in Hy. simpl in Hy. congruence. }
  assert (Hop1 : ∀ p, p ∈ (cr, cc) :: opened →
            ∃ y, cell_of (board g1) p = Some y ∧ state y = Open).
  { intros p Hp. unfold g1. simpl. rewrite cell_of_update by done.
    case_decide as E.
    - subst p. unfold cell_of. simpl. rewrite Hx. simpl. eauto.
    - apply elem_of_cons in Hp as [?|Hp]; [done|]. by apply Hop. }
  assert (Hnd1 : NoDup ((cr, cc) :: opened)) by (by apply NoDup_cons_2).
  assert (Hgoal : ∀ stack',
    floodLoop fuel g1 stack' ((cr, cc) :: opened) = Done (g', opened') →
    NoDup opened' ∧
    (∀ p, p ∈ opened' → ∃ x, cell_of (board g') p = Some x ∧ state x = Open) ∧
    (∀ p, p ∈ opened' → p ∉ opened →
          ∃ x, cell_of (board g) p = Some x ∧ state x = Closed)).
  { intros stack' H'. destruct (IH _ _ _ Hnd1 Hop1 H') as (H1 & H2 & H3).
    split; [done|]. split; [done|]. intros p Hp Hn.
    destruct (decide (p = (cr, cc))) as [->|Hne].
    - exists x. by unfold cell_of.
    - destruct (H3 p Hp) as (y & Hy & Hyc).
      { intros [?|?]%elem_of_cons; done. }
      exists y. split; [|done]. unfold g1 in Hy. simpl in Hy.
      rewrite cell_of_update in Hy by done. by rewrite decide_False in Hy. }
  destruct (neighborMines x =? 0).
  - destruct (pushNeighbors g1 cr cc stack); [|done..]. by eapply Hgoal.
  - by eapply Hgoal.
Qed.

(** The flood started by [openCell]: on a well-formed game and from a
    closed mine-free seed it completes with the invariant at an empty
    stack. *)
Lemma floodOpen_wf g r c :
  wf_game g → eligible g (r, c) →
  ∃ g' opened, floodOpen g r c = Done (g', opened) ∧
               flood_inv g (r, c) g' [] opened ∧
               mines g' = mines g ∧ status g' = status g.
Proof.
  intros Hwf Hel.
  destruct (floodOpen g r c) as [[g' opened]| |] eqn:H.
  - exists g', opened. split; [done|]. unfold floodOpen in H. split.
    + eapply floodLoop_inv; [|done]. by apply flood_inv_init.
    + apply floodLoop_frame in H. tauto.
  - exfalso. revert H. apply floodLoop_no_throw; [done|].
    intros p ->%list_elem_of_singleton. destruct Hel as (x & -> & _). eauto.
  - exfalso. revert H. apply floodLoop_terminates, flood_measure_fuel.
Qed.

(** ** Cells by coordinates *)

Lemma read_cell_of b r c x :
  cell_of b (r, c) = Some x → read_cell b r c = Done x.
Proof. intros H. by apply read_cell_Done. Qed.

Lemma cell_of_wf_iff R C b b' p :
  wf_board R C b → wf_board R C b' →
  is_Some (cell_of b p) ↔ is_Some (cell_of b' p).
Proof.
  intros H H'. unfold cell_of.
  by rewrite (board_get_wf R C b), (board_get_wf R C b').
Qed.

Lemma elem_of_concat_cell (b : Board) x :
  x ∈ concat b ↔ ∃ p, cell_of b p = Some x.
Proof.
  rewrite list_elem_of_In, in_concat. split.
  - intros (row & Hrow%list_elem_of_In & Hx%list_elem_of_In).
    apply list_elem_of_lookup in Hrow as [i Hi].
    apply list_elem_of_lookup in Hx as [j Hj].
    exists (Z.of_nat i, Z.of_nat j). apply board_get_Some. simpl.
    rewrite !Nat2Z.id. split; [lia|]. split; [lia|]. eauto.
  - intros ([r c] & (_ & _ & row & Hrow & Hx)%board_get_Some).
    exists row. rewrite <- !list_elem_of_In, !list_elem_of_lookup. eauto.
Qed.

Lemma all_cells (P : Cell → Prop) (b : Board) :
  Forall P (concat b) → ∀ p x, cell_of b p = Some x → P x.
Proof.
  intros H p x Hx. rewrite list.Forall_forall in H.
  apply H, elem_of_concat_cell. eauto.
Qed.

Lemma Forall_update_cell (P : Cell → Prop) b r c f x :
  board_get b r c = Some x → P (f x) →
  Forall P (concat b) → Forall P (concat (update_cell b r c f)).
Proof.
  intros Hx Hf. destruct (update_cell_concat _ _ _ _ Hx) as (l1 & l2 & -> & E).
  rewrite E, !Forall_app, !list.Forall_cons. tauto.
Qed.

(** * Rendering *)

Lemma applyCellAppearance_showable el x :
  showable x →
  applyCellAppearance el x
  = Done {| className := shown_class x; textContent := shown_text x;
            dataset_r := dataset_r el; dataset_c := dataset_c el |}.
Proof.
  unfold showable, applyCellAppearance, shown_class, shown_text.
  intros Hshow. destruct (state x) eqn:Hs; simpl; [done| |done].
  destruct (hasMine x) eqn:Hm; simpl; [done|].
  destruct (0 <? neighborMines x) eqn:Hpos; [|done].
  apply Z.ltb_lt in Hpos. specialize (Hshow eq_refl eq_refl).
  unfold numberClassFor.
  replace ((1 <=? neighborMines x) && (neighborMines x <=? 8)) with true
    by (symmetry; apply andb_true_iff; lia).
  done.
Qed.

Lemma foldl_snoc_fmap {A B : Type} (f : A → B) (s : list B) (l : list A) :
  foldl (λ s i, s ++ [f i]) s l = s ++ (f <$> l).
Proof.
  revert s. induction l as [|x l IH]; intros s; simpl.
  - by rewrite app_nil_r.
  - rewrite IH, <- app_assoc. done.
Qed.

Lemma renderField_wf g :
  wf_game g → (∀ p x, cell_of (board g) p = Some x → showable x) →
  renderField g = Done (field_of g).
Proof.
  intros Hwf Hshow. unfold renderField, field_of.
  rewrite (for_loop_pure _ _ _ (λ r field, field ++
    [(λ c, cell_element r c
             (default (createCell false) (cell_of (board g) (r, c))))
     <$> seqZ 0 (cols g)])).
  - rewrite (foldl_snoc_fmap (λ r, _ <$> seqZ 0 (cols g))). simpl.
    by rewrite Z.sub_0_r.
  - intros r field Hr.
    rewrite (for_loop_pure _ _ _ (λ c rowEl, rowEl ++
      [cell_element r c
         (default (createCell false) (cell_of (board g) (r, c)))])).
    + rewrite (foldl_snoc_fmap (λ c, cell_element r c _)). simpl.
      by rewrite Z.sub_0_r.
    + intros c rowEl Hc.
      destruct (read_cell_wf _ _ _ r c Hwf) as (x & Hx & ->); [lia..|]. simpl.
      rewrite applyCellAppearance_showable by (by eapply (Hshow (r, c))).
      unfold cell_of. simpl. by rewrite Hx.
Qed.

(** A loop whose body always throws at some index throws. *)
Lemma for_loop_throws {S : Type} lo hi (body : Z → S → outcome S) k s :
  (∀ i s, body i s ≠ Running) → lo ≤ k < hi → (∀ s, body k s = Throws) →
  for_loop lo hi body s = Throws.
Proof.
  intros Hrun Hk Hthrow.
  remember (Z.to_nat (k - lo)) as n eqn:Hn.
  revert lo s Hk Hn. induction n as [|n IH]; intros lo s Hk Hn.
  - assert (lo = k) as -> by lia. rewrite for_loop_step by lia.
    by rewrite Hthrow.
  - rewrite for_loop_step by lia. specialize (Hrun lo s).
    destruct (body lo s) as [s1| |]; simpl; [|done|done].
    apply IH; lia.
Qed.

Lemma showable_or_not x : showable x ∨ unshowable x.
Proof.
  unfold showable, unshowable.
  destruct (decide (state x = Open)) as [Ho|Ho]; [|by left].
  destruct (hasMine x) eqn:Hm; [by left|].
  destruct (decide (neighborMines x ≤ 8)); [by left|right]. repeat split; [done|lia].
Qed.

Lemma applyCellAppearance_unshowable el x :
  unshowable x → applyCellAppearance el x = Throws.
Proof.
  intros (Ho & Hm & Hn). unfold applyCellAppearance.
  rewrite Ho, Hm. simpl.
  replace (0 <? neighborMines x) with true by (symmetry; apply Z.ltb_lt; lia).
  unfold numberClassFor.
  replace ((1 <=? neighborMines x) && (neighborMines x <=? 8)) with false
    by (symmetry; apply andb_false_iff; right; apply Z.leb_gt; lia).
  done.
Qed.

Lemma applyCellAppearance_not_running el x :
  applyCellAppearance el x ≠ Running.
Proof.
  destruct (showable_or_not x) as [H|H].
  - by rewrite applyCellAppearance_showable.
  - by rewrite applyCellAppearance_unshowable.
Qed.

Lemma renderField_unshowable g r c x :
  wf_game g → cell_of (board g) (r, c) = Some x → unshowable x →
  renderField g = Throws.
Proof.
  intros Hwf Hx Hbad.
  assert (0 ≤ r < rows g ∧ 0 ≤ c < cols g) as [Hr Hc].
  { apply (board_get_wf (rows g) (cols g) (board g) r c Hwf). eauto. }
  assert (Hinner : ∀ r' i (s : list Element),
    (cell ← read_cell (board g) r' i;
     cellEl ← applyCellAppearance
                {| className := ["cell"%string]; textContent := ""%string;
                   dataset_r := Some (js_String r');
                   dataset_c := Some (js_String i) |} cell;
     Done (s ++ [cellEl])) ≠ Running).
  { intros r' i s. unfold read_cell.
    destruct (board_get (board g) r' i) as [y|]; simpl; [|done].
    pose proof (applyCellAppearance_not_running
      {| className := ["cell"%string]; textContent := ""%string;
         dataset_r := Some (js_String r'); dataset_c := Some (js_String i) |} y).
    by destruct (applyCellAppearance _ y). }
  unfold renderField. apply (for_loop_throws _ _ _ r); [|done|].
  - intros r' field.
    pose proof (for_loop_not_running 0 (cols g) (λ i (s : list Element),
      cell ← read_cell (board g) r' i;
      cellEl ← applyCellAppearance
                 {| className := ["cell"%string]; textContent := ""%string;
                    dataset_r := Some (js_String r');
                    dataset_c := Some (js_String i) |} cell;
      Done (s ++ [cellEl])) [] (Hinner r')) as H.
    by destruct (for_loop 0 (cols g) _ []).
  - intros field. rewrite (for_loop_throws _ _ _ c); [done|apply Hinner|done|].
    intros s. rewrite (read_cell_of _ _ _ _ Hx). simpl.
    by rewrite applyCellAppearance_unshowable.
Qed.

Lemma renderField_not_running g : renderField g ≠ Running.
Proof.
  unfold renderField. apply for_loop_not_running. intros r field.
  pose proof (for_loop_not_running 0 (cols g) (λ c (rowEl : list Element),
    cell ← read_cell (board g) r c;
    cellEl ← applyCellAppearance
               {| className := ["cell"%string]; textContent := ""%string;
                  dataset_r := Some (js_String r);
                  dataset_c := Some (js_String c) |} cell;
    Done (rowEl ++ [cellEl])) []) as H.
  destruct (for_loop 0 (cols g) _ []); [done|done|]. exfalso. apply H; [|done].
  intros c rowEl. unfold read_cell.
  destruct (board_get (board g) r c) as [y|]; simpl; [|done].
  pose proof (applyCellAppearance_not_running
    {| className := ["cell"%string]; textContent := ""%string;
       dataset_r := Some (js_String r); dataset_c := Some (js_String c) |} y).
  by destruct (applyCellAppearance _ y).
Qed.

Lemma displayable_cells g p x :
  displayable g → cell_of (board g) p = Some x → count_fits x.
Proof. intros H. by apply all_cells. Qed.

Lemma displayable_showable g p x :
  displayable g → cell_of (board g) p = Some x → showable x.
Proof. intros H Hx _ Hm. by apply (displayable_cells g p x). Qed.

Lemma renderBoard_wf g : wf_game g → displayable g → renderBoard g = Done ().
Proof.
  intros Hwf Hd. unfold renderBoard.
  rewrite renderField_wf; [done..|]. intros p x. by apply displayable_showable.
Qed.

(** A layout that keeps every mine and every count keeps the board
    displayable. *)
Lemma displayable_layout R C g g' :
  wf_board R C (board g) → wf_board R C (board g') →
  (∀ p y, cell_of (board g) p = Some y →
          ∃ y', cell_of (board g') p = Some y' ∧ same_layout y y') →
  displayable g → displayable g'.
Proof.
  intros Hwf Hwf' Hcells Hd. apply list.Forall_forall.
  intros y' ([r c] & Hy')%elem_of_concat_cell.
  destruct (proj2 (cell_of_wf_iff _ _ _ _ (r, c) Hwf Hwf')) as [y Hy]; [eauto|].
  destruct (Hcells _ _ Hy) as (y'' & Hy'' & Hm & Hn).
  assert (y'' = y') as -> by congruence.
  pose proof (displayable_cells g _ _ Hd Hy) as Hfit.
  unfold count_fits in *. rewrite Hm, Hn. done.
Qed.

Lemma displayable_update g r c f x :
  cell_of (board g) (r, c) = Some x → same_layout x (f x) →
  displayable g → displayable (set_board g (update_cell (board g) r c f)).
Proof.
  intros Hx [Hm Hn] Hd. unfold displayable. simpl.
  apply (Forall_update_cell _ _ _ _ _ x); [done| |done].
  pose proof (displayable_cells g _ _ Hd Hx) as Hfit.
  unfold count_fits in *. by rewrite Hm, Hn.
Qed.

Lemma rendered_ok w :
  wf_game (game w) → displayable (game w) → rendered w = Done w.
Proof. intros Hwf Hd. unfold rendered. by rewrite renderBoard_wf. Qed.

Lemma rendered_Done w w' : rendered w = Done w' → w' = w.
Proof.
  unfold rendered. intros (_ & _ & H)%bind_Done. congruence.
Qed.

Lemma rendered_not_running w : rendered w ≠ Running.
Proof.
  unfold rendered, renderBoard. pose proof (renderField_not_running (game w)).
  by destruct (renderField (game w)).
Qed.

(** * The engine on well-formed games *)

Lemma getFlagCount_wf g :
  wf_game g → getFlagCount g = Done (count_cells is_flagged (board g)).
Proof.
  intros Hwf.
  exact (cells_loop_count (rows g) (cols g) is_flagged (board g) 0 Hwf).
Qed.

Lemma countUnopenedSafe_wf g :
  wf_game g →
  countUnopenedSafe g = Done (count_cells is_unopened_safe (board g)).
Proof.
  intros Hwf.
  exact (cells_loop_count (rows g) (cols g) is_unopened_safe (board g) 0 Hwf).
Qed.

Lemma revealAllMines_wf g :
  wf_game g →
  ∃ g', revealAllMines g = Done g' ∧ wf_game g' ∧
        rows g' = rows g ∧ cols g' = cols g ∧ mines g' = mines g ∧
        status g' = status g ∧
        ∀ p, cell_of (board g') p = reveal <$> cell_of (board g) p.
Proof.
  intros Hwf. unfold revealAllMines.
  destruct (cells_loop_update (rows g) (cols g) board cols
    (λ r c g, x ← read_cell (board g) r c;
              if hasMine x
              then Done (set_board g (update_cell (board g) r c (set_state Open)))
              else Done g)
    (λ _ _, reveal)
    (λ g', rows g' = rows g ∧ cols g' = cols g ∧ mines g' = mines g ∧
           status g' = status g) g Hwf)
    as (g' & Hg' & Hwf' & (Hr & Hc & Hm & Hs) & Hcells).
  - done.
  - by intros g' (_ & -> & _).
  - intros g1 r c x Hwf1 (Hr & Hc & Hm & Hs) Hx.
    rewrite (proj2 (read_cell_Done _ _ _ _) Hx). simpl. unfold reveal.
    destruct (hasMine x) eqn:Hmine.
    + exists (set_board g1 (update_cell (board g1) r c (set_state Open))),
             (set_state Open). done.
    + exists g1, id. split; [done|]. split; [|done].
      symmetry. by eapply update_cell_same.
  - exists g'. split; [done|].
    unfold wf_game. rewrite Hr, Hc. repeat (split; [done|]).
    intros [r c]. apply Hcells.
Qed.

Lemma checkWinCondition_wf w :
  wf_game (game w) →
  checkWinCondition w =
  Done (if count_cells is_unopened_safe (board (game w)) =? 0
        then stopTimer (set_game w (set_status (game w) Win)) else w).
Proof.
  intros Hwf. unfold checkWinCondition. rewrite countUnopenedSafe_wf by done.
  simpl. by destruct (_ =? 0).
Qed.

Lemma game_first_click w : game (first_click w) = game w.
Proof. unfold first_click. by destruct (firstClickHappened w). Qed.

(** ** The guards *)

Lemma openCell_terminal w r c :
  status (game w) ≠ InProgress → openCell w r c = Done w.
Proof. intros H. unfold openCell. by rewrite bool_decide_eq_false_2. Qed.

Lemma toggleFlag_terminal w r c :
  status (game w) ≠ InProgress → toggleFlag w r c = Done w.
Proof. intros H. unfold toggleFlag. by rewrite bool_decide_eq_false_2. Qed.

Lemma openCell_not_closed w r c x :
  cell_of (board (game w)) (r, c) = Some x → state x ≠ Closed →
  openCell w r c = Done w.
Proof.
  intros Hx Hs. unfold openCell. destruct (negb _); [done|].
  rewrite (read_cell_of _ _ _ _ Hx). simpl.
  by rewrite bool_decide_eq_false_2.
Qed.

Lemma toggleFlag_open w r c x :
  cell_of (board (game w)) (r, c) = Some x → state x = Open →
  toggleFlag w r c = Done w.
Proof.
  intros Hx Hs. unfold toggleFlag. destruct (negb _); [done|].
  rewrite (read_cell_of _ _ _ _ Hx). simpl.
  by rewrite bool_decide_eq_true_2.
Qed.

Lemma openCell_no_cell w r c :
  status (game w) = InProgress → cell_of (board (game w)) (r, c) = None →
  openCell w r c = Throws.
Proof.
  intros Hs Hx. unfold openCell. rewrite bool_decide_eq_true_2 by done. simpl.
  unfold read_cell. unfold cell_of in Hx. simpl in Hx. by rewrite Hx.
Qed.

Lemma toggleFlag_no_cell w r c :
  status (game w) = InProgress → cell_of (board (game w)) (r, c) = None →
  toggleFlag w r c = Throws.
Proof.
  intros Hs Hx. unfold toggleFlag. rewrite bool_decide_eq_true_2 by done. simpl.
  unfold read_cell. unfold cell_of in Hx. simpl in Hx. by rewrite Hx.
Qed.

(** ** Opening a mine *)

Lemma openCell_mine w r c x :
  wf_game (game w) → status (game w) = InProgress →
  cell_of (board (game w)) (r, c) = Some x → state x = Closed →
  hasMine x = true →
  ∃ g', revealAllMines
          (set_status (set_board (game w)
             (update_cell (board (game w)) r c (set_state Open))) Lose)
        = Done g' ∧
        openCell w r c = rendered (stopTimer (set_game (first_click w) g')) ∧
        wf_game g' ∧ status g' = Lose ∧ mines g' = mines (game w) ∧
        (∀ p y, cell_of (board (game w)) p = Some y →
                cell_of (board g') p = Some (reveal y)) ∧
        rows g' = rows (game w) ∧ cols g' = cols (game w) ∧
        (displayable (game w) → displayable g').
Proof.
  intros Hwf Hs Hx Hc Hm.
  pose proof (board_get_inb _ _ _ _ _ _ Hwf Hx) as [Hr Hcc]. simpl in Hr, Hcc.
  set (g1 := set_status (set_board (game w)
               (update_cell (board (game w)) r c (set_state Open))) Lose).
  assert (Hwf1 : wf_game g1) by (by apply update_cell_wf).
  destruct (revealAllMines_wf g1 Hwf1)
    as (g' & Hg' & Hwf' & Hr' & Hc' & Hm' & Hs' & Hcells).
  assert (Hall : ∀ p y, cell_of (board (game w)) p = Some y →
                        cell_of (board g') p = Some (reveal y)).
  { intros p y Hy. rewrite Hcells. unfold g1. simpl.
    rewrite cell_of_update by lia. rewrite Hy. case_decide as E; [|done].
    subst p. simpl. f_equal. assert (y = x) as -> by congruence.
    unfold reveal. simpl. by rewrite Hm. }
  exists g'. split; [done|]. split.
  - unfold openCell. rewrite bool_decide_eq_true_2 by done. simpl.
    rewrite (read_cell_of _ _ _ _ Hx). simpl.
    rewrite bool_decide_eq_true_2 by done. simpl. rewrite Hm.
    fold (first_click w). rewrite game_first_click. fold g1. rewrite Hg'.
    done.
  - repeat (split; [done|]).
    apply (displayable_layout (rows (game w)) (cols (game w))); [done| |].
    + unfold wf_game in Hwf'. by rewrite Hr', Hc' in Hwf'.
    + intros p y Hy. exists (reveal y). split; [by apply Hall|].
      unfold reveal. by destruct (hasMine y).
Qed.

(** C3. Opening a closed mine cell of a game in progress loses the game:
    the cell and every other mine cell, closed or flagged, become open,
    and every mine-free cell is left as it was.  The board is one the
    page can show: no mine-free cell holds a count above 8. *)
Theorem openCell_mine_loses w r c x :
  wf_game (game w) → displayable (game w) → status (game w) = InProgress →
  cell_of (board (game w)) (r, c) = Some x → state x = Closed →
  hasMine x = true →
  ∃ w', openCell w r c = Done w' ∧
        status (game w') = Lose ∧
        cell_of (board (game w')) (r, c) = Some (set_state Open x) ∧
        ∀ p y, cell_of (board (game w)) p = Some y →
               cell_of (board (game w')) p =
               Some (if hasMine y then set_state Open y else y).
Proof.
  intros Hwf Hd Hs Hx Hc Hm.
  destruct (openCell_mine w r c x Hwf Hs Hx Hc Hm)
    as (g' & _ & Ho & Hwf' & Hs' & _ & Hcells & _ & _ & Hd').
  rewrite rendered_ok in Ho by auto.
  eexists. split; [exact Ho|]. simpl. split; [done|]. split; [|done].
  rewrite (Hcells _ _ Hx). unfold reveal. by rewrite Hm.
Qed.

Lemma openCell_mine_loses_witness :
  ∃ w', openCell sample_flagged_mine 0 1 = Done w' ∧
        status (game w') = Lose ∧
        cell_of (board (game w')) (0, 1) = Some (mkCell true 0 Open) ∧
        cell_of (board (game w')) (1, 1) = Some (mkCell true 0 Open) ∧
        cell_of (board (game w')) (2, 0) = Some (mkCell false 0 Closed) ∧
        ∀ p y, cell_of (board (game sample_flagged_mine)) p = Some y →
               cell_of (board (game w')) p =
               Some (if hasMine y then set_state Open y else y).
Proof.
  destruct (openCell_mine_loses sample_flagged_mine 0 1 (mkCell true 0 Closed))
    as (w' & Ho & Hs & Hrc & Hall);
    [compute_done|compute_done|reflexivity..|].
  exists w'. split; [exact Ho|]. split; [exact Hs|]. split; [exact Hrc|].
  split; [exact (Hall (1, 1) (mkCell true 0 Flagged) eq_refl)|].
  split; [exact (Hall (2, 0) (mkCell false 0 Closed) eq_refl)|exact Hall].
Defined.

(** C4, as the engine has it.  On a well-formed game, [openCell] and
    [toggleFlag] return without any change when the game is not in
    progress, [openCell] when the cell is not closed and [toggleFlag] when
    the cell is open.  There is no guard on the coordinates: while the
    game is in progress, a coordinate pair outside the board makes both
    operations throw. *)
Theorem guards_are_noops w r c :
  wf_game (game w) →
  (status (game w) ≠ InProgress →
     openCell w r c = Done w ∧ toggleFlag w r c = Done w) ∧
  (∀ x, cell_of (board (game w)) (r, c) = Some x → state x ≠ Closed →
     openCell w r c = Done w) ∧
  (∀ x, cell_of (board (game w)) (r, c) = Some x → state x = Open →
     toggleFlag w r c = Done w) ∧
  (status (game w) = InProgress →
   ¬ (0 ≤ r < rows (game w) ∧ 0 ≤ c < cols (game w)) →
     openCell w r c = Throws ∧ toggleFlag w r c = Throws).
Proof.
  intros Hwf. split; [|split; [|split]].
  - intros H. by rewrite openCell_terminal, toggleFlag_terminal.
  - apply openCell_not_closed.
  - apply toggleFlag_open.
  - intros Hs Hout.
    assert (cell_of (board (game w)) (r, c) = None) as Hx.
    { destruct (cell_of _ _) eqn:E; [|done]. destruct Hout.
      by eapply board_get_inb. }
    by rewrite openCell_no_cell, toggleFlag_no_cell.
Qed.

Lemma guards_are_noops_witness :
  (openCell (world0 (set_status sampleGame Lose)) 0 1
     = Done (world0 (set_status sampleGame Lose)) ∧
   toggleFlag (world0 (set_status sampleGame Lose)) 0 1
     = Done (world0 (set_status sampleGame Lose))) ∧
  openCell (world0 flagged_row) 0 1 = Done (world0 flagged_row) ∧
  openCell sample_corner_open 2 2 = Done sample_corner_open ∧
  toggleFlag sample_corner_open 2 2 = Done sample_corner_open ∧
  (openCell (world0 sampleGame) 3 0 = Throws ∧
   toggleFlag (world0 sampleGame) 3 0 = Throws).
Proof.
  split; [|split; [|split; [|split]]].
  - apply (guards_are_noops (world0 (set_status sampleGame Lose)) 0 1);
      [compute_done|discriminate].
  - apply (proj1 (proj2 (guards_are_noops (world0 flagged_row) 0 1
                           ltac:(compute_done)))
             (mkCell false 0 Flagged)); [reflexivity|discriminate].
  - apply (proj1 (proj2 (guards_are_noops sample_corner_open 2 2
                           ltac:(compute_done)))
             (mkCell false 1 Open)); [reflexivity|discriminate].
  - apply (proj1 (proj2 (proj2 (guards_are_noops sample_corner_open 2 2
                                  ltac:(compute_done))))
             (mkCell false 1 Open)); reflexivity.
  - apply (guards_are_noops (world0 sampleGame) 3 0);
      [compute_done|reflexivity|simpl; lia].
Defined.

(** The coordinates are not guarded: an out-of-bounds click on a game in
    progress raises a [TypeError]. *)
Lemma out_of_bounds_click_throws :
  status (game (world0 sampleGame)) = InProgress ∧
  inBounds sampleGame 3 0 = false ∧
  openCell (world0 sampleGame) 3 0 = Throws ∧
  toggleFlag (world0 sampleGame) 0 (-1) = Throws.
Proof. by vm_compute. Qed.

(** ** Opening a mine-free cell *)

Lemma set_board_eta g g' :
  rows g' = rows g → cols g' = cols g → mines g' = mines g →
  status g' = status g → g' = set_board g (board g').
Proof. destruct g, g'. simpl. by intros -> -> -> ->. Qed.

Lemma openCell_safe w r c x :
  wf_game (game w) → status (game w) = InProgress →
  cell_of (board (game w)) (r, c) = Some x → state x = Closed →
  hasMine x = false →
  ∃ b', openCell w r c = rendered (after_open w b') ∧
        wf_board (rows (game w)) (cols (game w)) b' ∧
        if neighborMines x =? 0
        then ∃ g' opened, floodOpen (game w) r c = Done (g', opened) ∧
                          board g' = b' ∧
                          flood_inv (game w) (r, c) g' [] opened
        else b' = update_cell (board (game w)) r c (set_state Open).
Proof.
  intros Hwf Hs Hx Hc Hm.
  assert (Hopen : ∀ b', wf_board (rows (game w)) (cols (game w)) b' →
    (w' ← checkWinCondition (set_game (first_click w) (set_board (game w) b'));
     _ ← renderBoard (game w'); Done w') = rendered (after_open w b')).
  { intros b' Hwf'. rewrite checkWinCondition_wf by done. simpl.
    unfold after_open. simpl.
    by destruct (count_cells is_unopened_safe b' =? 0). }
  unfold openCell. rewrite bool_decide_eq_true_2 by done. simpl.
  rewrite (read_cell_of _ _ _ _ Hx). simpl.
  rewrite bool_decide_eq_true_2 by done. simpl. rewrite Hm.
  fold (first_click w). rewrite game_first_click.
  destruct (neighborMines x =? 0) eqn:Hz.
  - destruct (floodOpen_wf (game w) r c Hwf) as (g' & opened & Hf & HI & Hmi & Hst).
    { by exists x. }
    assert (Hwf' : wf_board (rows (game w)) (cols (game w)) (board g')).
    { pose proof (inv_wf _ _ _ _ _ HI) as Hg'. unfold wf_game in Hg'.
      by rewrite (inv_rows _ _ _ _ _ HI), (inv_cols _ _ _ _ _ HI) in Hg'. }
    exists (board g'). rewrite Hf. simpl.
    rewrite (set_board_eta (game w) g') at 1;
      [|apply (inv_rows _ _ _ _ _ HI)|apply (inv_cols _ _ _ _ _ HI)|done..].
    rewrite Hopen by done. split; [done|]. split; [done|]. eauto.
  - exists (update_cell (board (game w)) r c (set_state Open)). simpl.
    assert (Hwf' := update_cell_wf _ _ _ r c (set_state Open) Hwf).
    rewrite Hopen by done. done.
Qed.

Lemma status_after_open w b' :
  status (game w) = InProgress →
  (status (game (after_open w b')) = Win ↔
   count_cells is_unopened_safe b' = 0) ∧
  (status (game (after_open w b')) = Win ∨
   status (game (after_open w b')) = InProgress) ∧
  board (game (after_open w b')) = b'.
Proof.
  intros Hs. unfold after_open.
  destruct (count_cells is_unopened_safe b' =? 0) eqn:E; simpl.
  - apply Z.eqb_eq in E. naive_solver.
  - apply Z.eqb_neq in E. rewrite Hs. naive_solver.
Qed.

Lemma game_after_open w b' :
  rows (game (after_open w b')) = rows (game w) ∧
  cols (game (after_open w b')) = cols (game w) ∧
  mines (game (after_open w b')) = mines (game w) ∧
  board (game (after_open w b')) = b'.
Proof.
  unfold after_open. destruct (_ =? 0); simpl; by rewrite ?game_first_click.
Qed.

(** The opened board can be shown when the board before could, since the
    layout is the same. *)
Lemma rendered_after_open w b' :
  wf_game (game w) → displayable (game w) →
  wf_board (rows (game w)) (cols (game w)) b' →
  (∀ p y, cell_of (board (game w)) p = Some y →
          ∃ y', cell_of b' p = Some y' ∧ same_layout y y') →
  rendered (after_open w b') = Done (after_open w b').
Proof.
  intros Hwf Hd Hwf' Hcells.
  destruct (game_after_open w b') as (Hr & Hc & _ & Hb).
  apply rendered_ok.
  - unfold wf_game. by rewrite Hr, Hc, Hb.
  - apply (displayable_layout (rows (game w)) (cols (game w)) (game w));
      [done|by rewrite Hb|by rewrite Hb|done].
Qed.

(** ** Frame properties on arbitrary games *)

Lemma revealAllMines_status g g' :
  revealAllMines g = Done g' → status g' = status g.
Proof.
  unfold revealAllMines.
  destruct (decide (0 ≤ rows g)) as [HR|HR];
    [|rewrite for_loop_nil by lia; congruence].
  apply (for_loop_inv_done (λ _ g1, status g1 = status g)); [done..|].
  intros r g1 g2 _ H1.
  destruct (decide (0 ≤ cols g1)) as [HC|HC];
    [|rewrite for_loop_nil by lia; congruence].
  apply (for_loop_inv_done (λ _ g2, status g2 = status g)); [done..|].
  intros c g3 g4 _ H3 (x & _ & H4)%bind_Done.
  destruct (hasMine x); by simplify_eq.
Qed.

Lemma checkWinCondition_status w w' :
  checkWinCondition w = Done w' →
  status (game w') = status (game w) ∨ status (game w') = Win.
Proof.
  unfold checkWinCondition. intros (n & _ & H)%bind_Done.
  destruct (n =? 0); simplify_eq; auto.
Qed.

Lemma openCell_status w r c w' :
  openCell w r c = Done w' →
  status (game w') = status (game w) ∨
  (status (game w) = InProgress ∧
   (status (game w') = Win ∨ status (game w') = Lose)).
Proof.
  unfold openCell.
  destruct (bool_decide (status (game w) = InProgress)) eqn:Hs; simpl;
    [|intros; simplify_eq; auto].
  apply bool_decide_eq_true in Hs.
  intros (x & _ & H)%bind_Done.
  destruct (negb (bool_decide (state x = Closed))); [simplify_eq; auto|].
  fold (first_click w) in H. rewrite game_first_click in H.
  destruct (hasMine x).
  - apply bind_Done in H as (g' & Hg' & (_ & _ & H)%bind_Done).
    apply revealAllMines_status in Hg'. simplify_eq. simpl. auto.
  - apply bind_Done in H as (g' & Hg' & (w1 & Hw1 & (_ & _ & H)%bind_Done)%bind_Done).
    apply checkWinCondition_status in Hw1. simpl in Hw1. simplify_eq.
    assert (status g' = status (game w)) as Hst.
    { destruct (neighborMines x =? 0).
      - apply bind_Done in Hg' as ([g1 op] & Hf & ?). simplify_eq. simpl.
        apply floodLoop_frame in Hf. tauto.
      - by simplify_eq. }
    rewrite Hst in Hw1. destruct Hw1; auto.
Qed.

Lemma toggleFlag_status w r c w' :
  toggleFlag w r c = Done w' → status (game w') = status (game w).
Proof.
  unfold toggleFlag. destruct (negb _); [by intros; simplify_eq|].
  intros (x & _ & H)%bind_Done.
  destruct (bool_decide (state x = Open)); [by simplify_eq|].
  apply bind_Done in H as (w1 & Hw1 & (_ & _ & H)%bind_Done).
  unfold updateMinesCounter in Hw1.
  apply bind_Done in Hw1 as (n & _ & Hw1). by simplify_eq.
Qed.

Lemma createGame_status rws cls mns rnd g :
  createGame rws cls mns rnd = Done g → status g = InProgress.
Proof.
  unfold createGame. intros (b & _ & H)%bind_Done. by simplify_eq.
Qed.

(** C7. A game starts in progress; a status changes only from in
    progress to won or to lost; and on a won or lost game [openCell] and
    [toggleFlag] return the world as it was. *)
Theorem status_monotonic :
  (∀ rws cls mns rnd g,
     createGame rws cls mns rnd = Done g → status g = InProgress) ∧
  (∀ w r c w', openCell w r c = Done w' →
     status (game w') = status (game w) ∨
     (status (game w) = InProgress ∧
      (status (game w') = Win ∨ status (game w') = Lose))) ∧
  (∀ w r c w', toggleFlag w r c = Done w' →
     status (game w') = status (game w)) ∧
  (∀ w r c, status (game w) ≠ InProgress →
     openCell w r c = Done w ∧ toggleFlag w r c = Done w).
Proof.
  split; [apply createGame_status|]. split; [apply openCell_status|].
  split; [apply toggleFlag_status|].
  intros w r c H. by rewrite openCell_terminal, toggleFlag_terminal.
Qed.

Lemma status_monotonic_witness :
  openCell (world0 (set_status sampleGame Win)) 2 0
    = Done (world0 (set_status sampleGame Win)) ∧
  toggleFlag (world0 (set_status sampleGame Win)) 2 0
    = Done (world0 (set_status sampleGame Win)).
Proof.
  apply (proj2 (proj2 (proj2 status_monotonic))). simpl. discriminate.
Defined.

(** ** Counting and coordinates *)

Lemma count_cells_zero (P : Cell → bool) (b : Board) :
  count_cells P b = 0 ↔ ∀ p x, cell_of b p = Some x → P x = false.
Proof.
  unfold count_cells. split.
  - intros H p x Hx. destruct (P x) eqn:E; [|done].
    assert (x ∈ filter (λ x, P x) (concat b)) as Hin.
    { apply list_elem_of_filter. split; [by rewrite E|].
      apply elem_of_concat_cell. eauto. }
    destruct (filter (λ x, P x) (concat b)); [|simpl in H; lia].
    by apply elem_of_nil in Hin.
  - intros H. destruct (filter (λ x, P x) (concat b)) as [|x l] eqn:E; [done|].
    assert (x ∈ filter (λ x, P x) (concat b)) as Hin by (rewrite E; left).
    apply list_elem_of_filter in Hin as [HP [p Hp]%elem_of_concat_cell].
    rewrite (H p x Hp) in HP. done.
Qed.

Lemma unopened_safe_zero (b : Board) :
  count_cells is_unopened_safe b = 0 ↔
  ∀ p x, cell_of b p = Some x → hasMine x = false → state x = Open.
Proof.
  rewrite count_cells_zero. unfold is_unopened_safe.
  split; intros H p x Hx.
  - intros Hm. specialize (H p x Hx). rewrite Hm in H. simpl in H.
    by apply negb_false_iff, bool_decide_eq_true in H.
  - specialize (H p x Hx). destruct (hasMine x); [done|]. simpl.
    by rewrite bool_decide_eq_true_2 by auto.
Qed.

(** ** Toggling a flag *)

Lemma toggleFlag_toggles w r c x :
  wf_game (game w) → status (game w) = InProgress →
  cell_of (board (game w)) (r, c) = Some x → state x ≠ Open →
  let g' := set_board (game w) (update_cell (board (game w)) r c flip_flag) in
  toggleFlag w r c =
  rendered {| game := g'; firstClickHappened := firstClickHappened w;
              timerIntervalId := timerIntervalId w;
              elapsedSeconds := elapsedSeconds w;
              minesCounterText := remaining_mines g' |}.
Proof.
  intros Hwf Hs Hx Ho g'.
  assert (Hwf' : wf_game g') by (by apply update_cell_wf).
  unfold toggleFlag. rewrite bool_decide_eq_true_2 by done. simpl.
  rewrite (read_cell_of _ _ _ _ Hx). simpl.
  rewrite bool_decide_eq_false_2 by done.
  fold flip_flag. fold g'. unfold updateMinesCounter. simpl.
  by rewrite getFlagCount_wf.
Qed.

Lemma same_layout_flip x : same_layout x (flip_flag x).
Proof. done. Qed.

Lemma same_layout_open x : same_layout x (set_state Open x).
Proof. done. Qed.

(** On a displayable game the toggle completes. *)
Lemma toggleFlag_flips w r c x :
  wf_game (game w) → displayable (game w) → status (game w) = InProgress →
  cell_of (board (game w)) (r, c) = Some x → state x ≠ Open →
  let g' := set_board (game w) (update_cell (board (game w)) r c flip_flag) in
  toggleFlag w r c =
  Done {| game := g'; firstClickHappened := firstClickHappened w;
          timerIntervalId := timerIntervalId w;
          elapsedSeconds := elapsedSeconds w;
          minesCounterText := remaining_mines g' |}.
Proof.
  intros Hwf Hd Hs Hx Ho g'.
  rewrite (toggleFlag_toggles w r c x) by done. apply rendered_ok; simpl.
  - by apply update_cell_wf.
  - by apply (displayable_update _ _ _ _ x).
Qed.

(** C9. On a game in progress [toggleFlag] turns a closed cell into a
    flagged one and a flagged cell into a closed one, leaves an open cell
    and every other cell as they are, and after a toggle the mines counter
    shows [max 0 (mines - flags)], which is never negative.  The board is
    one the page can show: no mine-free cell holds a count above 8. *)
Theorem toggleFlag_spec w r c x :
  wf_game (game w) → displayable (game w) → status (game w) = InProgress →
  cell_of (board (game w)) (r, c) = Some x →
  ∃ w', toggleFlag w r c = Done w' ∧
        cell_of (board (game w')) (r, c) =
          Some (match state x with
                | Closed => set_state Flagged x
                | Flagged => set_state Closed x
                | Open => x
                end) ∧
        (∀ p, p ≠ (r, c) →
              cell_of (board (game w')) p = cell_of (board (game w)) p) ∧
        (state x = Open → w' = w) ∧
        (state x ≠ Open →
           minesCounterText w' =
             Z.max 0 (mines (game w) - count_cells is_flagged (board (game w'))) ∧
           0 ≤ minesCounterText w' ∧
           0 ≤ count_cells is_flagged (board (game w'))
             ≤ rows (game w) * cols (game w)).
Proof.
  intros Hwf Hd Hs Hx.
  pose proof (board_get_inb _ _ _ _ _ _ Hwf Hx) as [Hr Hc]. simpl in Hr, Hc.
  destruct (decide (state x = Open)) as [Ho|Ho].
  - exists w. rewrite (toggleFlag_open w r c x Hx Ho), Ho.
    repeat split; done.
  - eexists. split; [by apply (toggleFlag_flips w r c x)|]. simpl.
    split; [|split; [|split; [done|]]].
    + rewrite cell_of_update, decide_True, Hx by (done || lia).
      unfold flip_flag. simpl. destruct (state x) eqn:E; try done.
    + intros p Hp. rewrite cell_of_update, decide_False by (done || lia). done.
    + intros _. split; [done|]. split; [unfold remaining_mines; lia|].
      pose proof (count_cells_bounds is_flagged
        (update_cell (board (game w)) r c flip_flag)) as Hb.
      rewrite (wf_board_size (rows (game w)) (cols (game w))) in Hb;
        [done|by apply update_cell_wf].
Qed.

Lemma toggleFlag_spec_witness :
  ∃ w', toggleFlag (world0 sampleGame) 2 0 = Done w' ∧
        cell_of (board (game w')) (2, 0) = Some (mkCell false 0 Flagged) ∧
        (∀ p, p ≠ (2, 0) →
              cell_of (board (game w')) p = cell_of (board sampleGame) p) ∧
        (Closed = Open → w' = world0 sampleGame) ∧
        (Closed ≠ Open →
           minesCounterText w' =
             Z.max 0 (3 - count_cells is_flagged (board (game w'))) ∧
           0 ≤ minesCounterText w' ∧
           0 ≤ count_cells is_flagged (board (game w')) ≤ 3 * 3).
Proof.
  apply (toggleFlag_spec (world0 sampleGame) 2 0 (mkCell false 0 Closed));
    [compute_done|compute_done|reflexivity..].
Defined.

(** ** The flood loop terminates *)

Lemma floodLoop_discard fuel g cr cc stack opened x :
  read_cell (board g) cr cc = Done x →
  state x ≠ Closed ∨ hasMine x = true →
  floodLoop (S fuel) g ((cr, cc) :: stack) opened
  = floodLoop fuel g stack opened.
Proof.
  intros Hx Hskip. simpl. rewrite Hx.
  destruct Hskip as [Hs|Hm].
  - by rewrite bool_decide_eq_false_2.
  - rewrite Hm. by rewrite orb_true_r.
Qed.

(** C8. On every game and from every seed the work-list loop of
    [floodOpen] stops: within [flood_fuel] rounds it has completed or
    thrown, and more rounds change nothing.  When it completes, no
    coordinate was opened twice, and each opened cell went from [Closed]
    to [Open]; a popped coordinate whose cell is not closed, or has a mine,
    is dropped in one round.  On a well-formed game and from a seed on the
    board the loop completes. *)
Theorem floodOpen_terminates g r c :
  floodOpen g r c ≠ Running ∧
  (∀ fuel, (flood_fuel g ≤ fuel)%nat →
     floodLoop fuel g [(r, c)] [] = floodOpen g r c) ∧
  (∀ g' opened, floodOpen g r c = Done (g', opened) →
     NoDup opened ∧
     ∀ p, p ∈ opened →
       (∃ x, cell_of (board g) p = Some x ∧ state x = Closed) ∧
       (∃ x, cell_of (board g') p = Some x ∧ state x = Open)) ∧
  (∀ fuel cr cc stack opened x,
     read_cell (board g) cr cc = Done x →
     state x ≠ Closed ∨ hasMine x = true →
     floodLoop (S fuel) g ((cr, cc) :: stack) opened
     = floodLoop fuel g stack opened) ∧
  (wf_game g → 0 ≤ r < rows g → 0 ≤ c < cols g →
     ∃ res, floodOpen g r c = Done res).
Proof.
  assert (Hrun : floodOpen g r c ≠ Running).
  { apply floodLoop_terminates, flood_measure_fuel. }
  split; [done|]. split; [|split; [|split]].
  - intros fuel Hle. by apply floodLoop_fuel_mono.
  - intros g' opened H.
    destruct (floodLoop_once _ _ _ _ _ _ (NoDup_nil_2) (λ p Hp, False_rect _
                (proj1 (elem_of_nil p) Hp)) H) as (Hnd & Hopen & Hclosed).
    split; [done|]. intros p Hp. split; [|by apply Hopen].
    apply Hclosed; [done|]. apply not_elem_of_nil.
  - intros fuel cr cc stack opened x. apply floodLoop_discard.
  - intros Hwf Hr Hc. destruct (floodOpen g r c) as [res| |] eqn:H; [eauto| |done].
    exfalso. revert H. apply floodLoop_no_throw; [done|].
    intros p ->%list_elem_of_singleton. by apply (board_get_wf _ _ _ _ _ Hwf).
Qed.

Lemma floodOpen_terminates_witness :
  ∃ res, floodOpen sampleGame 2 0 = Done res.
Proof.
  apply (proj2 (proj2 (proj2 (proj2 (floodOpen_terminates sampleGame 2 0)))));
    [compute_done|simpl; lia..].
Defined.

(** ** What a flood opens *)

Lemma is_chain_snoc l z p :
  is_chain (l ++ [z]) → adjacent z p → is_chain ((l ++ [z]) ++ [p]).
Proof.
  intros Hl Hadj. induction l as [|a l IH]; simpl in *; [done|].
  destruct l as [|b l]; simpl in *; [tauto|]. split; [tauto|]. apply IH. tauto.
Qed.

(** Every cell of the region is joined to the seed by a chain of closed
    mine-free zero-count cells. *)
Lemma flood_region_path g seed p :
  flood_region g seed p →
  ∃ pre, head (pre ++ [p]) = Some seed ∧ is_chain (pre ++ [p]) ∧
         Forall (λ q, eligible g q ∧ zero_at g q) pre ∧ eligible g p.
Proof.
  induction 1 as [Hel|z p Hz (pre & Hhd & Hch & Hpre & Helz) Hzero Hadj Hel].
  - exists []. done.
  - exists (pre ++ [z]). split; [|split; [|split; [|done]]].
    + by destruct pre.
    + by apply is_chain_snoc.
    + apply Forall_app. split; [done|]. by apply Forall_singleton.
Qed.

(** The cells of a board after a flood that logged [opened]. *)
Lemma flood_inv_board g seed g' opened p y :
  flood_inv g seed g' [] opened → cell_of (board g) p = Some y →
  cell_of (board g') p = Some (if decide (p ∈ opened) then set_state Open y else y).
Proof.
  intros HI Hy. rewrite (inv_cells _ _ _ _ _ HI), Hy. by case_decide.
Qed.

(** C2, as the engine has it.  From a closed, mine-free seed with zero
    neighbor mines on a game in progress, [openCell] floods: it opens,
    once each, exactly the cells of [flood_region]: the seed, the closed
    zero-count cells connected to it through closed zero-count cells, and
    the closed mine-free neighbors of those.  No mine is opened, and every
    other cell, flagged or open cells among them, stays as it was.  The
    board is one the page can show: no mine-free cell holds a count
    above 8. *)
Theorem openCell_flood w r c x :
  wf_game (game w) → displayable (game w) → status (game w) = InProgress →
  cell_of (board (game w)) (r, c) = Some x → state x = Closed →
  hasMine x = false → neighborMines x = 0 →
  ∃ w' g' opened,
    openCell w r c = Done w' ∧
    floodOpen (game w) r c = Done (g', opened) ∧
    board (game w') = board g' ∧
    NoDup opened ∧
    (∀ p, p ∈ opened ↔ flood_region (game w) (r, c) p) ∧
    (∀ p y, cell_of (board (game w)) p = Some y →
       cell_of (board (game w')) p =
       Some (if decide (p ∈ opened) then set_state Open y else y)) ∧
    (∀ p y, p ∈ opened → cell_of (board (game w)) p = Some y →
       hasMine y = false ∧ state y = Closed) ∧
    (∀ p y, p ∈ opened → cell_of (board (game w)) p = Some y →
       neighborMines y ≠ 0 →
       ∃ z, z ∈ opened ∧ adjacent z p ∧ zero_at (game w) z).
Proof.
  intros Hwf Hd Hs Hx Hc Hm Hz.
  destruct (openCell_safe w r c x Hwf Hs Hx Hc Hm) as (b' & Ho & Hwf' & Hb').
  rewrite Hz in Hb'. simpl in Hb'. destruct Hb' as (g' & opened & Hf & <- & HI).
  rewrite rendered_after_open in Ho; [|done..|].
  2:{ intros p y Hy. eexists.
      split; [by apply (flood_inv_board (game w) (r, c) g' opened)|].
      by case_decide. }
  destruct (status_after_open w (board g') Hs) as (_ & _ & Hb).
  exists (after_open w (board g')), g', opened. rewrite Hb.
  split; [done|]. split; [done|]. split; [done|].
  split; [apply (inv_nodup _ _ _ _ _ HI)|].
  assert (Hreg : ∀ p, p ∈ opened ↔ flood_region (game w) (r, c) p).
  { intros p. by apply (flood_inv_final _ _ g'). }
  split; [done|]. split; [|split].
  - intros p y. by apply (flood_inv_board _ (r, c)).
  - intros p y (y' & Hy' & ? & ?)%Hreg%flood_region_eligible Hy.
    by simplify_eq.
  - intros p y Hp%Hreg Hy Hnz. destruct Hp as [Hel|z p Hzr Hzero Hadj Hel].
    + simplify_eq.
    + exists z. by rewrite Hreg.
Qed.

Lemma openCell_flood_witness :
  ∃ w' g' opened,
    openCell (world0 sampleGame) 2 0 = Done w' ∧
    floodOpen sampleGame 2 0 = Done (g', opened) ∧
    board (game w') =
      [ [ mkCell false 1 Closed; mkCell true 0 Closed; mkCell false 2 Closed ];
        [ mkCell false 1 Open; mkCell true 0 Closed; mkCell true 0 Closed ];
        [ mkCell false 0 Open; mkCell false 2 Open; mkCell false 1 Closed ] ] ∧
    board (game w') = board g' ∧
    NoDup opened ∧
    (∀ p, p ∈ opened ↔ flood_region sampleGame (2, 0) p) ∧
    (∀ p y, cell_of (board sampleGame) p = Some y →
       cell_of (board (game w')) p =
       Some (if decide (p ∈ opened) then set_state Open y else y)) ∧
    (∀ p y, p ∈ opened → cell_of (board sampleGame) p = Some y →
       hasMine y = false ∧ state y = Closed) ∧
    (∀ p y, p ∈ opened → cell_of (board sampleGame) p = Some y →
       neighborMines y ≠ 0 →
       ∃ z, z ∈ opened ∧ adjacent z p ∧ zero_at sampleGame z).
Proof.
  destruct (openCell_flood (world0 sampleGame) 2 0 (mkCell false 0 Closed))
    as (w' & g' & opened & Ho & Hrest);
    [compute_done|compute_done|reflexivity..|].
  exists w', g', opened. split; [exact Ho|].
  destruct Hrest as [Hf Hrest]. split; [exact Hf|]. split; [|exact Hrest].
  vm_compute in Ho. by injection Ho as <-.
Defined.

Lemma flagged_row_played :
  (g ← createGame 1 3 0 []; toggleFlag (world0 g) 0 1)
  = Done (world0 flagged_row).
Proof. reflexivity. Qed.

(** Not every zero-count cell connected to the seed is opened: [(0, 2)]
    is connected to the seed [(0, 0)] through zero-count cells, and the
    flood leaves it closed, because the connecting cell is flagged. *)
Lemma flagged_cell_blocks_flood :
  status flagged_row = InProgress ∧
  cell_of (board flagged_row) (0, 0) = Some (mkCell false 0 Closed) ∧
  zero_path flagged_row (0, 0) (0, 2) [(0, 0); (0, 1); (0, 2)] ∧
  ∃ w', openCell (world0 flagged_row) 0 0 = Done w' ∧
        cell_of (board (game w')) (0, 2) = Some (mkCell false 0 Closed) ∧
        cell_of (board (game w')) (0, 1) = Some (mkCell false 0 Flagged).
Proof.
  split; [done|]. split; [done|]. split.
  - split; [done|]. split; [done|]. split.
    + simpl. unfold adjacent. simpl. repeat split; (done || lia).
    + repeat constructor; eexists; (split; [reflexivity|done]).
  - eexists. split; [reflexivity|]. done.
Qed.

(** ** Flagged cells and the flood *)

(** C10. [openCell] leaves every flagged mine-free cell as it is.  A
    closed zero-count cell stays closed when every path of zero-count
    cells that connects the seed to it passes through a flagged cell. *)
Theorem flagged_cells_stay w r c w' :
  wf_game (game w) → openCell w r c = Done w' →
  (∀ p y, cell_of (board (game w)) p = Some y → state y = Flagged →
          hasMine y = false → cell_of (board (game w')) p = Some y) ∧
  (∀ f t yf y,
     cell_of (board (game w)) f = Some yf → state yf = Flagged →
     cell_of (board (game w)) t = Some y → state y = Closed →
     hasMine y = false → neighborMines y = 0 →
     (∀ path, zero_path (game w) (r, c) t path → f ∈ path) →
     cell_of (board (game w')) t = Some y).
Proof.
  intros Hwf Ho.
  destruct (decide (status (game w) = InProgress)) as [Hs|Hs];
    [|rewrite openCell_terminal in Ho by done; by simplify_eq].
  destruct (cell_of (board (game w)) (r, c)) as [x|] eqn:Hx;
    [|by rewrite openCell_no_cell in Ho].
  destruct (decide (state x = Closed)) as [Hc|Hc];
    [|rewrite (openCell_not_closed w r c x) in Ho by done; by simplify_eq].
  destruct (hasMine x) eqn:Hm.
  { (* the seed is a mine: only mines are opened *)
    destruct (openCell_mine w r c x Hwf Hs Hx Hc Hm)
      as (g' & _ & Ho' & _ & _ & _ & Hcells & _).
    rewrite Ho' in Ho. apply rendered_Done in Ho as ->. simpl. split.
    - intros p y Hy _ Hmy. rewrite (Hcells _ _ Hy). unfold reveal.
      by rewrite Hmy.
    - intros f t yf y _ _ Hy _ Hmy _ _. rewrite (Hcells _ _ Hy). unfold reveal.
      by rewrite Hmy. }
  destruct (openCell_safe w r c x Hwf Hs Hx Hc Hm) as (b' & Ho' & _ & Hb').
  rewrite Ho' in Ho. apply rendered_Done in Ho as ->.
  destruct (status_after_open w b' Hs) as (_ & _ & ->).
  pose proof (board_get_inb _ _ _ _ _ _ Hwf Hx) as [Hr Hcc]. simpl in Hr, Hcc.
  destruct (neighborMines x =? 0) eqn:Hz.
  - (* flood *)
    destruct Hb' as (g' & opened & Hf & <- & HI).
    assert (Hreg : ∀ p, p ∈ opened ↔ flood_region (game w) (r, c) p).
    { intros p. by apply (flood_inv_final _ _ g'). }
    split.
    + intros p y Hy Hfl _. rewrite (flood_inv_board _ _ _ _ _ _ HI Hy).
      rewrite decide_False; [done|].
      intros (y' & Hy' & Hyc & _)%Hreg%flood_region_eligible.
      simplify_eq. congruence.
    + intros f t yf y Hyf Hfl Hy Hyc Hym Hyz Hpaths.
      rewrite (flood_inv_board _ _ _ _ _ _ HI Hy).
      rewrite decide_False; [done|].
      intros (pre & Hhd & Hch & Hpre & Hel)%Hreg%flood_region_path.
      assert (f ∈ pre ++ [t]) as Hin.
      { apply Hpaths. split; [done|]. split; [apply last_snoc|].
        split; [done|]. apply Forall_app. split.
        - eapply list.Forall_impl; [exact Hpre|].
          intros q [(z & Hz1 & _ & Hz2) (z' & Hz1' & Hz3)]. exists z.
          simplify_eq. done.
        - apply Forall_singleton. by exists y. }
      assert (eligible (game w) f) as (yf' & Hyf' & Hcl & _).
      { apply elem_of_app in Hin as [Hin|Hin%list_elem_of_singleton].
        - rewrite list.Forall_forall in Hpre. by apply Hpre in Hin as [? _].
        - by subst. }
      simplify_eq. congruence.
  - (* a single cell is opened *)
    subst b'. apply Z.eqb_neq in Hz. split.
    + intros p y Hy Hfl _. rewrite cell_of_update by lia.
      rewrite decide_False; [done|]. intros ->. simplify_eq. congruence.
    + intros f t yf y _ _ Hy _ _ Hyz _. rewrite cell_of_update by lia.
      rewrite decide_False; [done|]. intros ->. simplify_eq.
Qed.

(** On [flagged_row], opening the left cell leaves the other two alone. *)
Lemma flagged_cells_stay_witness :
  (∀ p y, cell_of (board flagged_row) p = Some y → state y = Flagged →
          hasMine y = false →
          cell_of (board (game (after_open (world0 flagged_row)
            [ [ mkCell false 0 Open; mkCell false 0 Flagged;
                mkCell false 0 Closed ] ]))) p = Some y) ∧
  (∀ f t yf y,
     cell_of (board flagged_row) f = Some yf → state yf = Flagged →
     cell_of (board flagged_row) t = Some y → state y = Closed →
     hasMine y = false → neighborMines y = 0 →
     (∀ path, zero_path flagged_row (0, 0) t path → f ∈ path) →
     cell_of (board (game (after_open (world0 flagged_row)
       [ [ mkCell false 0 Open; mkCell false 0 Flagged;
           mkCell false 0 Closed ] ]))) t = Some y).
Proof.
  apply (flagged_cells_stay (world0 flagged_row) 0 0); [compute_done|reflexivity].
Defined.

(** * The board generator *)

(** ** The empty board *)

Lemma foldl_snoc_replicate {A B : Type} (x : A) (s : list A) (l : list B) :
  foldl (λ s _, s ++ [x]) s l = s ++ replicate (length l) x.
Proof.
  revert s. induction l as [|y l IH]; intros s; simpl.
  - by rewrite app_nil_r.
  - rewrite IH, <- app_assoc. done.
Qed.

Lemma emptyBoard_spec rws cls :
  emptyBoard rws cls
  = Done (replicate (Z.to_nat rws) (replicate (Z.to_nat cls) (createCell false))).
Proof.
  unfold emptyBoard.
  rewrite (for_loop_pure _ _ _
    (λ _ b, b ++ [replicate (Z.to_nat cls) (createCell false)])).
  - rewrite (foldl_snoc_replicate _ _ (seqZ 0 (rws - 0))). simpl.
    by rewrite length_seqZ, Z.sub_0_r.
  - intros r b _.
    rewrite (for_loop_pure _ _ _ (λ _ row, row ++ [createCell false])); [|done].
    rewrite (foldl_snoc_replicate _ _ (seqZ 0 (cls - 0))). simpl.
    by rewrite length_seqZ, Z.sub_0_r.
Qed.

Lemma wf_board_replicate rws cls x :
  0 ≤ rws → 0 ≤ cls →
  wf_board rws cls (replicate (Z.to_nat rws) (replicate (Z.to_nat cls) x)).
Proof.
  intros Hr Hc. split; [rewrite length_replicate; lia|]. split; [done|].
  apply Forall_replicate. rewrite length_replicate. lia.
Qed.

Lemma concat_replicate_Forall {A : Type} (P : A → Prop) n m x :
  P x → Forall P (concat (replicate n (replicate m x))).
Proof.
  intros Hx. induction n as [|n IH]; simpl; [constructor|].
  apply Forall_app. split; [by apply Forall_replicate|done].
Qed.

(** ** Random indices *)

Lemma round53_nonneg a : 0 ≤ a → 0 ≤ round53 a.
Proof.
  intros Ha. unfold round53. destruct (_ <=? 0) eqn:E; [done|].
  apply Z.leb_gt in E.
  assert (0 < a).
  { destruct (decide (a = 0)) as [->|]; [|lia]. by vm_compute in E. }
  rewrite Z.sgn_pos, Z.abs_eq by lia. rewrite Z.abs_eq in E by lia.
  assert (0 < 2 ^ (Z.log2 a - 52)) by (apply Z.pow_pos_nonneg; lia).
  assert (0 ≤ a / 2 ^ (Z.log2 a - 52)) by (apply Z.div_pos; lia).
  destruct (_ || _); nia.
Qed.

Lemma round53_upper a : 0 ≤ a → 2 ^ 53 * round53 a ≤ (2 ^ 53 + 1) * a.
Proof.
  intros Ha. unfold round53. destruct (_ <=? 0) eqn:E; [lia|].
  apply Z.leb_gt in E.
  assert (0 < a).
  { destruct (decide (a = 0)) as [->|]; [|lia]. by vm_compute in E. }
  rewrite Z.sgn_pos, Z.abs_eq by lia. rewrite Z.abs_eq in E by lia.
  set (s := Z.log2 a - 52) in *.
  assert (0 < 2 ^ (s - 1)) as Hh by (apply Z.pow_pos_nonneg; lia).
  assert (2 ^ s = 2 * 2 ^ (s - 1)) as Hs.
  { rewrite <- Z.pow_succ_r by lia. f_equal. lia. }
  assert (2 ^ 53 * 2 ^ (s - 1) ≤ a) as Hlog.
  { rewrite <- Z.pow_add_r by lia. replace (53 + (s - 1)) with (Z.log2 a) by lia.
    apply Z.log2_spec. lia. }
  pose proof (Z.div_mod a (2 ^ s) ltac:(lia)) as Hdm.
  pose proof (Z.mod_pos_bound a (2 ^ s) ltac:(lia)) as Hr.
  set (q := a / 2 ^ s) in *. set (r := a mod 2 ^ s) in *.
  set (h := 2 ^ (s - 1)) in *.
  destruct ((h <? r) || ((r =? h) && Z.odd q)) eqn:Hb.
  - assert (h ≤ r).
    { apply orb_true_iff in Hb as [Hb|Hb].
      - apply Z.ltb_lt in Hb. lia.
      - apply andb_true_iff in Hb as [Hb _]. apply Z.eqb_eq in Hb. lia. }
    nia.
  - nia.
Qed.

Lemma double_below_one a k :
  0 ≤ a < 2 ^ k → 0 ≤ k → round53 a = a → a * 2 ^ 53 ≤ 2 ^ k * (2 ^ 53 - 1).
Proof.
  intros [Ha0 Ha] Hk Hfix.
  destruct (decide (a = 0)) as [->|Hne].
  { assert (0 < 2 ^ k) by (apply Z.pow_pos_nonneg; lia). lia. }
  assert (0 < a) as Hpos by lia.
  pose proof (Z.log2_spec a Hpos) as [Hl1 Hl2].
  pose proof (Z.log2_nonneg a) as HL0.
  set (L := Z.log2 a) in *.
  assert (L < k) as HLk.
  { apply (Z.pow_lt_mono_r_iff 2); lia. }
  assert (2 ^ Z.succ L ≤ 2 ^ k) as Hle by (apply Z.pow_le_mono_r; lia).
  enough (a * 2 ^ 53 ≤ 2 ^ Z.succ L * (2 ^ 53 - 1)) by nia.
  destruct (decide (L ≤ 52)) as [Hs|Hs].
  - assert (2 ^ Z.succ L ≤ 2 ^ 53) by (apply Z.pow_le_mono_r; lia). nia.
  - unfold round53 in Hfix. rewrite Z.abs_eq, Z.sgn_pos in Hfix by lia.
    fold L in Hfix. destruct (L - 52 <=? 0) eqn:E; [apply Z.leb_le in E; lia|].
    set (s := L - 52) in *.
    assert (0 < 2 ^ s) by (apply Z.pow_pos_nonneg; lia).
    assert (2 ^ Z.succ L = 2 ^ 53 * 2 ^ s) as HS.
    { rewrite <- Z.pow_add_r by lia. f_equal. lia. }
    clearbody L. assert (∃ q', a = q' * 2 ^ s) as [q' Hq'].
    { eexists. symmetry. rewrite Z.mul_1_l in Hfix. exact Hfix. }
    rewrite HS in *. subst a.
    assert (q' < 2 ^ 53) by nia. nia.
Qed.

Lemma random_index_range u n :
  unit_interval u → 1 ≤ n → 0 ≤ random_index u n < n.
Proof.
  intros (H0 & H1 & Hd) Hn. unfold random_index.
  unfold is_double in Hd.
  apply andb_true_iff in Hd as [Hd Hfix]. apply andb_true_iff in Hd as [Hden _].
  apply Z.eqb_eq in Hden, Hfix.
  unfold Qle in H0. unfold Qlt in H1. simpl in H0, H1.
  set (a := Qnum u) in *. set (D := Z.pos (Qden u)) in *.
  set (k := Z.log2 D) in *.
  assert (0 ≤ k) by apply Z.log2_nonneg.
  assert (0 < D) by done.
  assert (0 ≤ a < D) as Ha by lia.
  pose proof (round53_nonneg (a * n) ltac:(nia)) as Hr0.
  pose proof (round53_upper (a * n) ltac:(nia)) as Hr1.
  pose proof (double_below_one a k ltac:(lia) ltac:(lia) Hfix) as Hb.
  rewrite <- Hden in Hb.
  split.
  - apply Z.div_pos; lia.
  - apply Z.div_lt_upper_bound; [lia|].
    assert (0 < 2 ^ 53) by done.
    nia.
Qed.

(** ** Counting the adjacent mines *)

Lemma foldl_count {A : Type} (P : A → bool) (l : list A) (n : Z) :
  foldl (λ n q, n + Z.b2z (P q)) n l
  = n + Z.of_nat (length (filter (λ q, P q) l)).
Proof.
  revert n. induction l as [|x l IH]; intros n; simpl; [lia|].
  rewrite IH, list.filter_cons. destruct (P x); simpl; lia.
Qed.

Lemma countAdjacentMines_wf R C b r c :
  wf_board R C b → countAdjacentMines b r c = Done (adjacent_mines b (r, c)).
Proof.
  intros Hwf. unfold countAdjacentMines.
  pose (step := λ (dr dc n : Z),
    if (dr =? 0) && (dc =? 0) then n else n + Z.b2z (mine_at b (r + dr, c + dc))).
  rewrite (for_loop_pure _ _ _
    (λ dr n, foldl (λ n dc, step dr dc n) n [-1; 0; 1])).
  - change (seqZ (-1) (2 - -1)) with [-1; 0; 1]. unfold adjacent_mines.
    rewrite <- (Z.add_0_l (Z.of_nat _)), <- foldl_count.
    unfold step. simpl. rewrite !Z.add_0_r. reflexivity.
  - intros dr n1 _.
    rewrite (for_loop_pure _ _ _ (step dr)); [done|].
    intros dc n2 _. unfold step.
    destruct ((dr =? 0) && (dc =? 0)); [done|].
    unfold mine_at, cell_of. simpl.
    pose proof Hwf as (HR & HC0 & HC).
    destruct (decide (0 ≤ r + dr < R ∧ 0 ≤ c + dc < C)) as [Hin|Hout].
    + destruct (read_cell_wf R C b (r + dr) (c + dc) Hwf) as (x & Hx & Hrd);
        [lia..|].
      destruct (lookup_lt_is_Some_2 b 0) as [row0 Hrow0]; [lia|].
      assert (Z.of_nat (length row0) = C) as Hlen.
      { rewrite list.Forall_forall in HC. apply HC.
        by eapply list_elem_of_lookup_2. }
      replace ((0 <=? r + dr) && (r + dr <? Z.of_nat (length b)) && (0 <=? c + dc))
        with true by (symmetry; rewrite !andb_true_iff; lia).
      change 0 with (Z.of_nat 0) at 1. rewrite arr_get_nat, Hrow0, Hlen.
      replace (c + dc <? C) with true by (symmetry; apply Z.ltb_lt; lia).
      rewrite Hrd, Hx. simpl. by destruct (hasMine x); simpl; f_equal; lia.
    + assert (board_get b (r + dr) (c + dc) = None) as ->.
      { destruct (board_get b (r + dr) (c + dc)) eqn:E; [|done].
        destruct Hout. by eapply board_get_inb. }
      simpl. rewrite Z.add_0_r.
      destruct ((0 <=? r + dr) && (r + dr <? Z.of_nat (length b)) && (0 <=? c + dc))
        eqn:E; [|done].
      rewrite !andb_true_iff in E.
      destruct (lookup_lt_is_Some_2 b 0) as [row0 Hrow0]; [lia|].
      assert (Z.of_nat (length row0) = C) as Hlen.
      { rewrite list.Forall_forall in HC. apply HC.
        by eapply list_elem_of_lookup_2. }
      change 0 with (Z.of_nat 0) at 1. rewrite arr_get_nat, Hrow0, Hlen.
      replace (c + dc <? C) with false; [done|].
      symmetry. apply Z.ltb_ge. lia.
Qed.

(** ** Placing the mines *)

Lemma list_pair_ind {A : Type} (P : list A → Prop) :
  P [] → (∀ x, P [x]) → (∀ x y l, P l → P (x :: y :: l)) → ∀ l, P l.
Proof.
  intros H0 H1 H2 l.
  assert (P l ∧ ∀ x, P (x :: l)) as [? _]; [|done].
  induction l as [|y l [IH1 IH2]]; [by split|]. split; [apply IH2|].
  intros x. by apply H2.
Qed.

Lemma mine_at_update b r c p :
  0 ≤ r → 0 ≤ c → is_Some (board_get b r c) →
  mine_at (update_cell b r c (set_hasMine true)) p
  = if decide (p = (r, c)) then true else mine_at b p.
Proof.
  intros Hr Hc [x Hx]. unfold mine_at. rewrite cell_of_update by done.
  case_decide as E; [|done]. subst p. unfold cell_of. simpl. by rewrite Hx.
Qed.

Section placement.
Variables (R C m : Z).
Hypotheses (HR : 1 ≤ R) (HC : 1 ≤ C).

(** What holds of the board whenever the loop completes, and that it
    never throws. *)
Lemma placeMines_sound rnd : ∀ b placed,
  Forall unit_interval rnd →
  wf_board R C b → count_cells hasMine b = placed →
  Forall pristine (concat b) →
  placeMines R C m rnd b placed ≠ Throws ∧
  ∀ b', placeMines R C m rnd b placed = Done b' →
        wf_board R C b' ∧ count_cells hasMine b' = Z.max placed m ∧
        Forall pristine (concat b').
Proof.
  induction rnd as [|u|u v rnd IH] using list_pair_ind;
    intros b placed Hrnd Hwf Hcnt Hpr; simpl;
    destruct (placed <? m) eqn:Hlt;
    try apply Z.ltb_ge in Hlt; try apply Z.ltb_lt in Hlt;
    try (split; [done|]; intros b' [= <-];
         split; [done|]; split; [lia|done]);
    try done.
  apply list.Forall_cons in Hrnd as [Hu Hrnd].
  apply list.Forall_cons in Hrnd as [Hv Hrnd].
  pose proof (random_index_range u R Hu HR) as Hr.
  pose proof (random_index_range v C Hv HC) as Hc.
  destruct (read_cell_wf R C b _ _ Hwf Hr Hc) as (x & Hx & ->).
  destruct (hasMine x) eqn:Hm; simpl.
  - by apply IH.
  - destruct (IH (update_cell b (random_index u R) (random_index v C)
                    (set_hasMine true)) (placed + 1)) as [Hthrow Hdone].
    + done.
    + by apply update_cell_wf.
    + rewrite (count_cells_update _ _ _ _ _ _ Hx). simpl. rewrite Hm. simpl.
      lia.
    + eapply Forall_update_cell; [done| |done].
      destruct (update_cell_concat _ _ _ _ Hx) as (l1 & l2 & E & _).
      rewrite E, Forall_app, list.Forall_cons in Hpr. apply Hpr.
    + split; [done|]. intros b' Hb'.
      destruct (Hdone b' Hb') as (? & ? & ?).
      split; [done|]. split; [lia|done].
Qed.

(** The loop completes once the draws hold enough distinct free cells. *)
Lemma placeMines_done rnd : ∀ b placed,
  Forall unit_interval rnd → wf_board R C b →
  (Z.to_nat (m - placed) ≤
     length (remove_dups (filter (λ p, mine_at b p = false) (draws R C rnd))))%nat →
  ∃ b', placeMines R C m rnd b placed = Done b'.
Proof.
  induction rnd as [|u|u v rnd IH] using list_pair_ind;
    intros b placed Hrnd Hwf Hlen; simpl in *;
    destruct (placed <? m) eqn:Hlt;
    try apply Z.ltb_ge in Hlt; try apply Z.ltb_lt in Hlt;
    eauto; try lia.
  apply list.Forall_cons in Hrnd as [Hu Hrnd].
  apply list.Forall_cons in Hrnd as [Hv Hrnd].
  pose proof (random_index_range u R Hu HR) as Hr.
  pose proof (random_index_range v C Hv HC) as Hc.
  set (r := random_index u R) in *. set (c := random_index v C) in *.
  destruct (read_cell_wf R C b _ _ Hwf Hr Hc) as (x & Hx & ->).
  rewrite list.filter_cons in Hlen.
  assert (mine_at b (r, c) = hasMine x) as Hmine.
  { unfold mine_at, cell_of. simpl. by rewrite Hx. }
  destruct (hasMine x) eqn:Hm; simpl.
  - apply IH; [done..|]. rewrite decide_False in Hlen; [done|].
    by rewrite Hmine.
  - apply IH; [done|by apply update_cell_wf|].
    rewrite decide_True in Hlen by done.
    set (L := filter (λ p, mine_at b p = false) (draws R C rnd)) in *.
    assert (length (remove_dups ((r, c) :: L))
            ≤ S (length (remove_dups (filter (λ p, p ≠ (r, c)) L))))%nat as Hle.
    { change (S (length ?l)) with (length ((r, c) :: l)).
      apply submseteq_length, NoDup_submseteq; [apply NoDup_remove_dups|].
      intros p Hp. rewrite elem_of_remove_dups in Hp.
      destruct (decide (p = (r, c))) as [->|Hne]; [left|right].
      rewrite elem_of_remove_dups, list_elem_of_filter. split; [done|].
      apply elem_of_cons in Hp as [?|?]; done. }
    assert (filter (λ p, p ≠ (r, c)) L
            = filter (λ p, mine_at (update_cell b r c (set_hasMine true)) p = false)
                (draws R C rnd)) as <-.
    { unfold L. rewrite list_filter_filter. apply list_filter_iff.
      intros p. rewrite mine_at_update by (eauto || lia).
      case_decide; naive_solver. }
    lia.
Qed.
End placement.

(** ** Storing the neighbor counts *)

Lemma adjacent_mines_ext b b' p :
  (∀ q, mine_at b' q = mine_at b q) → adjacent_mines b' p = adjacent_mines b p.
Proof.
  intros H. unfold adjacent_mines. f_equal. f_equal.
  apply list_filter_iff. intros q. by rewrite H.
Qed.

Lemma countNeighbors_spec R C b :
  wf_board R C b →
  ∃ b', countNeighbors R C b = Done b' ∧ wf_board R C b' ∧
        count_cells hasMine b' = count_cells hasMine b ∧
        (Forall (λ x, state x = Closed) (concat b) →
         Forall (λ x, state x = Closed) (concat b')) ∧
        ∀ p, cell_of b' p =
             (λ x, if hasMine x then x
                   else set_neighborMines (adjacent_mines b p) x) <$> cell_of b p.
Proof.
  intros Hwf.
  destruct (cells_loop_update R C id (λ _, C)
    (λ r c b, x ← read_cell b r c;
              if negb (hasMine x) then
                n ← countAdjacentMines b r c;
                Done (update_cell b r c (set_neighborMines n))
              else Done b)
    (λ r c x, if hasMine x then x
              else set_neighborMines (adjacent_mines b (r, c)) x)
    (λ b', count_cells hasMine b' = count_cells hasMine b ∧
           (Forall (λ x, state x = Closed) (concat b) →
            Forall (λ x, state x = Closed) (concat b')) ∧
           ∀ q, mine_at b' q = mine_at b q) b Hwf)
    as (b' & Hb' & Hwf' & (Hcnt & Hcl & _) & Hcells); try done.
  - intros b1 r c x Hwf1 (Hcnt & Hcl & Hmines) Hx. simpl in *.
    rewrite (proj2 (read_cell_Done _ _ _ _) Hx). simpl.
    destruct (hasMine x) eqn:Hm; simpl.
    + exists b1, id. split; [done|]. split; [|done].
      symmetry. by eapply update_cell_same.
    + rewrite (countAdjacentMines_wf R C) by done. simpl.
      rewrite (adjacent_mines_ext b b1) by done.
      eexists _, _. split; [done|]. split; [done|]. split; [done|].
      pose proof Hx as (Hr & Hc & _)%board_get_Some.
      split; [|split].
      * rewrite (count_cells_update _ _ _ _ _ _ Hx). simpl. lia.
      * intros H. specialize (Hcl H).
        eapply Forall_update_cell; [done| |done]. simpl.
        destruct (update_cell_concat _ _ _ _ Hx) as (l1 & l2 & E & _).
        rewrite E, Forall_app, list.Forall_cons in Hcl. apply Hcl.
      * intros q. rewrite <- Hmines. unfold mine_at.
        rewrite cell_of_update by done. case_decide as E; [|done].
        subst q. unfold cell_of. simpl. by rewrite Hx.
  - exists b'. split; [done|]. split; [done|]. split; [done|]. split; [done|].
    intros [r c]. apply Hcells.
Qed.

(** ** The generated board *)

Lemma filter_all {A : Type} (P : A → Prop) `{!∀ x, Decision (P x)} (l : list A) :
  (∀ x, P x) → filter P l = l.
Proof.
  intros HP. induction l as [|x l IH]; [done|].
  rewrite list.filter_cons, decide_True by done. by rewrite IH.
Qed.

Lemma pristine_board_free rws cls q :
  mine_at (replicate (Z.to_nat rws) (replicate (Z.to_nat cls) (createCell false))) q
  = false.
Proof.
  unfold mine_at. destruct (cell_of _ q) as [x|] eqn:E; [|done].
  assert (x ∈ concat (replicate (Z.to_nat rws)
                        (replicate (Z.to_nat cls) (createCell false)))) as Hin.
  { apply elem_of_concat_cell. eauto. }
  clear E. revert x Hin. apply list.Forall_forall. by apply concat_replicate_Forall.
Qed.

Lemma count_cells_none (P : Cell → bool) (b : Board) :
  Forall (λ x, P x = false) (concat b) → count_cells P b = 0.
Proof.
  intros H. apply count_cells_zero. intros p x Hx.
  rewrite list.Forall_forall in H. apply H, elem_of_concat_cell. eauto.
Qed.

(** The board before the placement loop. *)
Lemma emptyBoard_facts rws cls :
  0 ≤ rws → 0 ≤ cls →
  let b0 := replicate (Z.to_nat rws)
              (replicate (Z.to_nat cls) (createCell false)) in
  wf_board rws cls b0 ∧ Forall pristine (concat b0) ∧
  count_cells hasMine b0 = 0 ∧ ∀ q, mine_at b0 q = false.
Proof.
  intros Hr Hc b0. split; [by apply wf_board_replicate|].
  split; [by apply concat_replicate_Forall|]. split.
  - apply count_cells_none. by apply concat_replicate_Forall.
  - apply pristine_board_free.
Qed.

(** From a completed placement to the finished board. *)
Lemma createBoard_finish rws cls mns rnd b1 :
  1 ≤ rws → 1 ≤ cls → 0 ≤ mns → Forall unit_interval rnd →
  placeMines rws cls mns rnd
    (replicate (Z.to_nat rws) (replicate (Z.to_nat cls) (createCell false))) 0
  = Done b1 →
  ∃ b, countNeighbors rws cls b1 = Done b ∧
       wf_board rws cls b ∧ count_cells hasMine b = mns ∧
       (∀ p x, cell_of b p = Some x → state x = Closed) ∧
       (∀ p x, cell_of b p = Some x → hasMine x = false →
               neighborMines x = adjacent_mines b p).
Proof.
  intros Hr Hc Hm Hrnd Hb1.
  destruct (emptyBoard_facts rws cls) as (Hwf0 & Hpr0 & Hcnt0 & _); [lia..|].
  destruct (placeMines_sound rws cls mns Hr Hc rnd _ 0 Hrnd Hwf0 Hcnt0 Hpr0)
    as [_ Hsound].
  destruct (Hsound b1 Hb1) as (Hwf1 & Hcnt1 & Hpr1).
  destruct (countNeighbors_spec rws cls b1 Hwf1)
    as (b & Hb & Hwf & Hcnt & Hcl & Hcells).
  exists b. split; [done|]. split; [done|]. split; [lia|]. split.
  - intros p x Hx. assert (Forall (λ x, state x = Closed) (concat b)) as H.
    { apply Hcl. eapply list.Forall_impl; [exact Hpr1|]. by intros ? []. }
    rewrite list.Forall_forall in H. apply H, elem_of_concat_cell. eauto.
  - intros p x Hx Hmx. rewrite Hcells in Hx.
    destruct (cell_of b1 p) as [x1|] eqn:Hx1; [|done]. simpl in Hx.
    assert (adjacent_mines b p = adjacent_mines b1 p) as ->.
    { apply adjacent_mines_ext. intros q. unfold mine_at. rewrite Hcells.
      destruct (cell_of b1 q) as [y|]; [|done]. simpl.
      by destruct (hasMine y) eqn:E. }
    destruct (hasMine x1) eqn:E; simplify_eq; [congruence|done].
Qed.

(** A completed placement has drawn enough distinct free cells. *)
Lemma placeMines_needs_draws R C m rnd : ∀ b placed b',
  1 ≤ R → 1 ≤ C → Forall unit_interval rnd → wf_board R C b →
  placeMines R C m rnd b placed = Done b' →
  (Z.to_nat (m - placed) ≤
     length (remove_dups (filter (λ p, mine_at b p = false) (draws R C rnd))))%nat.
Proof.
  induction rnd as [|u|u v rnd IH] using list_pair_ind;
    intros b placed b' HR HC Hrnd Hwf Hb'; simpl in *;
    destruct (placed <? m) eqn:Hlt;
    try apply Z.ltb_ge in Hlt; try apply Z.ltb_lt in Hlt;
    try done; try lia.
  apply list.Forall_cons in Hrnd as [Hu Hrnd].
  apply list.Forall_cons in Hrnd as [Hv Hrnd].
  pose proof (random_index_range u R Hu HR) as Hr.
  pose proof (random_index_range v C Hv HC) as Hc.
  set (r := random_index u R) in *. set (c := random_index v C) in *.
  destruct (read_cell_wf R C b _ _ Hwf Hr Hc) as (x & Hx & Hrd).
  rewrite Hrd in Hb'. rewrite list.filter_cons.
  assert (mine_at b (r, c) = hasMine x) as Hmine.
  { unfold mine_at, cell_of. simpl. by rewrite Hx. }
  destruct (hasMine x) eqn:Hm; simpl in Hb'.
  - rewrite decide_False by (by rewrite Hmine). by eapply IH.
  - rewrite decide_True by done.
    apply IH in Hb'; [|done..|by apply update_cell_wf].
    set (L := filter (λ p, mine_at b p = false) (draws R C rnd)) in *.
    assert (filter (λ p, p ≠ (r, c)) L
            = filter (λ p, mine_at (update_cell b r c (set_hasMine true)) p = false)
                (draws R C rnd)) as Hfilter.
    { unfold L. rewrite list_filter_filter. apply list_filter_iff.
      intros p. rewrite mine_at_update by (eauto || lia).
      case_decide; naive_solver. }
    rewrite <- Hfilter in Hb'.
    assert (S (length (remove_dups (filter (λ p, p ≠ (r, c)) L)))
            ≤ length (remove_dups ((r, c) :: L)))%nat as Hle.
    { change (S (length ?l)) with (length ((r, c) :: l)).
      apply submseteq_length, NoDup_submseteq.
      - apply NoDup_cons_2; [|apply NoDup_remove_dups].
        rewrite elem_of_remove_dups, list_elem_of_filter. tauto.
      - intros p. rewrite elem_of_cons, !elem_of_remove_dups, list_elem_of_filter,
          elem_of_cons. tauto. }
    lia.
Qed.

(** A source that keeps naming the cell it named first never gets a
    second mine placed. *)
Lemma placeMines_stuck n : ∀ b x,
  read_cell b 0 0 = Done x → hasMine x = true →
  placeMines 1 2 2 (replicate n 0%Q) b 1 = Running ∧
  placeMines 1 2 2 (replicate (S n) 0%Q) b 1 = Running.
Proof.
  induction n as [|n IH]; intros b x Hx Hm; [done|].
  split; [by apply (IH b x)|].
  change (replicate (S (S n)) 0%Q) with (0%Q :: 0%Q :: replicate n 0%Q).
  cbn [placeMines]. change (1 <? 2) with true. cbv iota.
  change (random_index 0 1) with 0. change (random_index 0 2) with 0.
  rewrite Hx, Hm. simpl negb. cbv iota. by apply (IH b x).
Qed.

Lemma createBoard_stuck n : createBoard 1 2 2 (replicate n 0%Q) = Running.
Proof.
  unfold createBoard. change (emptyBoard 1 2)
    with (Done [[createCell false; createCell false]]).
  destruct n as [|[|n]]; [done..|].
  change (replicate (S (S n)) 0%Q) with (0%Q :: 0%Q :: replicate n 0%Q).
  pose proof (proj1 (placeMines_stuck n
    [[mkCell true 0 Closed; mkCell false 0 Closed]] (mkCell true 0 Closed)
    eq_refl eq_refl)) as H.
  simpl. change (random_index 0 1) with 0. change (random_index 0 2) with 0.
  simpl.
  change (update_cell [[createCell false; createCell false]] 0 0
            (set_hasMine true))
    with [[mkCell true 0 Closed; mkCell false 0 Closed]].
  change (0 + 1) with 1. by rewrite H.
Qed.

(** C1, as the generator has it.  For at least one row and one column
    and a mine count between 0 and the number of cells, whatever numbers
    [Math.random] yields, [createBoard] does not throw; it returns
    exactly when the draws name [mines] distinct cells, and with fewer the
    placement loop is still running; and any board it returns has the
    requested dimensions, exactly [mines] mines, only closed cells, and in
    every mine-free cell the number of adjacent cells (by an edge or a
    corner, within the board) that hold a mine. *)
Theorem createBoard_spec rws cls mns rnd :
  1 ≤ rws → 1 ≤ cls → 0 ≤ mns ≤ rws * cls →
  Forall unit_interval rnd →
  createBoard rws cls mns rnd ≠ Throws ∧
  ((∃ b, createBoard rws cls mns rnd = Done b) ↔
   (Z.to_nat mns ≤ length (remove_dups (draws rws cls rnd)))%nat) ∧
  (createBoard rws cls mns rnd = Running ↔
   (length (remove_dups (draws rws cls rnd)) < Z.to_nat mns)%nat) ∧
  ∀ b, createBoard rws cls mns rnd = Done b →
    wf_board rws cls b ∧
    count_cells hasMine b = mns ∧
    (∀ p x, cell_of b p = Some x → state x = Closed) ∧
    (∀ p x, cell_of b p = Some x → hasMine x = false →
            neighborMines x = adjacent_mines b p).
Proof.
  intros Hr Hc [Hm _] Hrnd. unfold createBoard. rewrite emptyBoard_spec. simpl.
  destruct (emptyBoard_facts rws cls) as (Hwf0 & Hpr0 & Hcnt0 & Hfree);
    [lia..|].
  pose proof (createBoard_finish rws cls mns rnd) as Hfinish.
  pose proof (placeMines_needs_draws rws cls mns rnd) as Hneeds.
  set (b0 := replicate (Z.to_nat rws)
               (replicate (Z.to_nat cls) (createCell false))) in *.
  destruct (placeMines_sound rws cls mns Hr Hc rnd b0 0 Hrnd Hwf0 Hcnt0 Hpr0)
    as [Hthrow _].
  pose proof (placeMines_done rws cls mns Hr Hc rnd b0 0 Hrnd Hwf0) as Hdone.
  rewrite Z.sub_0_r, filter_all in Hdone by done.
  destruct (placeMines rws cls mns rnd b0 0) as [b1| |] eqn:Hp; simpl;
    [| done |].
  - destruct (Hfinish b1) as (b & Hb & Hprops); [done..|]. rewrite Hb.
    specialize (Hneeds b0 0 b1 Hr Hc Hrnd Hwf0 Hp).
    rewrite Z.sub_0_r, filter_all in Hneeds by done.
    split; [done|]. split; [split; eauto|]. split; [split; [done|lia]|].
    by intros b' [= <-].
  - assert (¬ (Z.to_nat mns ≤ length (remove_dups (draws rws cls rnd)))%nat).
    { intros [b1 ?]%Hdone. done. }
    split; [done|]. split; [split; [by intros []|done]|].
    split; [split; [lia|done]|]. done.
Qed.

Lemma createBoard_spec_witness :
  ∃ b, createBoard 2 2 2 [0; 0; 1 # 2; 1 # 2]%Q = Done b ∧
       b = [ [mkCell true 0 Closed; mkCell false 2 Closed];
             [mkCell false 2 Closed; mkCell true 0 Closed] ] ∧
       wf_board 2 2 b ∧
       count_cells hasMine b = 2 ∧
       (∀ p x, cell_of b p = Some x → state x = Closed) ∧
       (∀ p x, cell_of b p = Some x → hasMine x = false →
               neighborMines x = adjacent_mines b p).
Proof.
  destruct (createBoard_spec 2 2 2 [0; 0; 1 # 2; 1 # 2]%Q)
    as (_ & Hret & _ & Hprops); [lia|lia|lia| |].
  { repeat constructor; by vm_compute. }
  destruct (proj2 Hret) as [b Hb]; [vm_compute; lia|].
  exists b. split; [exact Hb|]. split; [|exact (Hprops b Hb)].
  vm_compute in Hb. by injection Hb.
Defined.

(** The random source decides whether [createBoard] returns: while it
    keeps naming the cell (0, 0), the second mine of a 1 by 2 board is
    never placed, however many numbers are drawn. *)
Lemma repeated_draws_never_return :
  (1 ≤ 1 ∧ 1 ≤ 2 ∧ 0 ≤ 2 ≤ 1 * 2) ∧
  ∀ n, Forall unit_interval (replicate n 0%Q) ∧
       createBoard 1 2 2 (replicate n 0%Q) = Running.
Proof.
  split; [lia|]. intros n. split; [|apply createBoard_stuck].
  apply Forall_replicate. by vm_compute.
Qed.

(** ** Boards full of mines, and beyond *)

Lemma count_cells_all (P : Cell → bool) (b : Board) :
  count_cells P b = Z.of_nat (length (concat b)) →
  ∀ p x, cell_of b p = Some x → P x = true.
Proof.
  unfold count_cells. intros H p x Hx. destruct (P x) eqn:E; [done|].
  assert (x ∈ concat b) as Hin by (apply elem_of_concat_cell; eauto).
  assert (length (filter (λ x, P x) (concat b)) < length (concat b))%nat.
  { apply (length_filter_lt _ _ x); [done|]. simpl. rewrite E. by intros []. }
  lia.
Qed.

(** With more mines requested than the board has cells, the placement
    loop is still running after any number of draws. *)
Lemma placeMines_overfull R C m rnd : ∀ b placed,
  1 ≤ R → 1 ≤ C → R * C < m →
  Forall unit_interval rnd → wf_board R C b →
  count_cells hasMine b = placed →
  placeMines R C m rnd b placed = Running.
Proof.
  induction rnd as [|u|u v rnd IH] using list_pair_ind;
    intros b placed HR HC Hm Hrnd Hwf Hcnt; simpl;
    pose proof (count_cells_bounds hasMine b) as Hb;
    rewrite (wf_board_size R C b Hwf) in Hb;
    (replace (placed <? m) with true by (symmetry; apply Z.ltb_lt; lia));
    try done.
  apply list.Forall_cons in Hrnd as [Hu Hrnd].
  apply list.Forall_cons in Hrnd as [Hv Hrnd].
  pose proof (random_index_range u R Hu HR) as Hr.
  pose proof (random_index_range v C Hv HC) as Hc.
  destruct (read_cell_wf R C b _ _ Hwf Hr Hc) as (x & Hx & ->).
  destruct (hasMine x) eqn:Hmx; simpl.
  - by apply IH.
  - apply IH; try done; [by apply update_cell_wf|].
    rewrite (count_cells_update _ _ _ _ _ _ Hx). simpl. rewrite Hmx. simpl. lia.
Qed.

Lemma createGame_overfull rws cls mns rnd :
  1 ≤ rws → 1 ≤ cls → rws * cls < mns → Forall unit_interval rnd →
  createGame rws cls mns rnd = Running.
Proof.
  intros Hr Hc Hm Hrnd. unfold createGame, createBoard.
  rewrite emptyBoard_spec. simpl.
  rewrite (placeMines_overfull rws cls mns rnd); try done.
  - apply wf_board_replicate; lia.
  - apply count_cells_none. by apply concat_replicate_Forall.
Qed.

(** C6, as the generator has it.  A request for as many mines as the
    board has cells does not fail and does not hang: once the draws have
    hit every cell, [createGame] returns a game in progress whose cells
    all hold a mine. *)
Theorem createGame_full_board rws cls rnd :
  1 ≤ rws → 1 ≤ cls → Forall unit_interval rnd →
  (Z.to_nat (rws * cls) ≤ length (remove_dups (draws rws cls rnd)))%nat →
  ∃ g, createGame rws cls (rws * cls) rnd = Done g ∧
       status g = InProgress ∧ rows g = rws ∧ cols g = cls ∧
       mines g = rws * cls ∧ wf_game g ∧
       ∀ p x, cell_of (board g) p = Some x → hasMine x = true.
Proof.
  intros Hr Hc Hrnd Hlen. unfold createGame, createBoard.
  rewrite emptyBoard_spec. simpl.
  destruct (emptyBoard_facts rws cls) as (Hwf0 & _ & _ & Hfree); [lia..|].
  destruct (placeMines_done rws cls (rws * cls) Hr Hc rnd _ 0 Hrnd Hwf0)
    as [b1 Hb1].
  { by rewrite Z.sub_0_r, filter_all. }
  destruct (createBoard_finish rws cls (rws * cls) rnd b1)
    as (b & Hb & Hwf & Hcnt & _); [lia..|done|done|].
  rewrite Hb1. simpl. rewrite Hb. simpl. eexists. split; [done|].
  repeat (split; [done|]). simpl.
  apply (count_cells_all hasMine). by rewrite (wf_board_size rws cls).
Qed.

Lemma createGame_full_board_witness :
  ∃ g, createGame 1 2 (1 * 2) [0; 0; 0; 1 # 2]%Q = Done g ∧
       g = mkGame 1 2 2 InProgress
             [[mkCell true 0 Closed; mkCell true 0 Closed]] ∧
       status g = InProgress ∧ rows g = 1 ∧ cols g = 2 ∧
       mines g = 1 * 2 ∧ wf_game g ∧
       ∀ p x, cell_of (board g) p = Some x → hasMine x = true.
Proof.
  destruct (createGame_full_board 1 2 [0; 0; 0; 1 # 2]%Q) as (g & Hg & Hrest);
    [lia|lia| | |].
  - repeat constructor; by vm_compute.
  - vm_compute. lia.
  - exists g. split; [exact Hg|]. split; [|exact Hrest].
    vm_compute in Hg. by injection Hg as <-.
Defined.

(** Nothing is rejected: a request for as many mines as cells is served
    with a full board, and on a request for more the placement loop is
    still running when the draws are used up. *)
Lemma full_board_is_accepted :
  createGame 1 1 1 [0; 0]%Q
    = Done (mkGame 1 1 1 InProgress [ [ mkCell true 0 Closed ] ]) ∧
  createGame 1 1 2 [0; 0; 0; 0]%Q = Running.
Proof. split; reflexivity. Qed.

(** * Complements *)

(** [adjacent_mines] counts the adjacent cells with a mine, however they
    are listed. *)
Lemma adjacent_mines_count b p (l : list coord) :
  NoDup l → (∀ q, q ∈ l ↔ adjacent p q ∧ mine_at b q = true) →
  adjacent_mines b p = Z.of_nat (length l).
Proof.
  intros Hnd Hl. unfold adjacent_mines. f_equal. apply Permutation_length.
  apply NoDup_Permutation; [apply list.NoDup_filter, NoDup_neighbors8|done|].
  intros q. rewrite list_elem_of_filter, elem_of_neighbors8, Hl.
  rewrite Is_true_true. tauto.
Qed.

(** Well-formedness holds of every generated game and is kept by the
    engine, so the games the hypotheses of the theorems above speak of are
    all the games a play can reach. *)
Lemma createGame_wf rws cls mns rnd g :
  1 ≤ rws → 1 ≤ cls → 0 ≤ mns ≤ rws * cls → Forall unit_interval rnd →
  createGame rws cls mns rnd = Done g → wf_game g.
Proof.
  intros Hr Hc [Hm _] Hrnd (b & Hb & Hg)%bind_Done. simplify_eq.
  unfold createBoard in Hb. rewrite emptyBoard_spec in Hb. simpl in Hb.
  apply bind_Done in Hb as (b1 & Hb1 & Hb).
  destruct (createBoard_finish rws cls mns rnd b1) as (b' & Hb' & Hwf & _);
    [done..|].
  simpl in Hb. rewrite Hb' in Hb. by injection Hb as <-.
Qed.

Lemma openCell_wf w r c w' :
  wf_game (game w) → openCell w r c = Done w' → wf_game (game w').
Proof.
  intros Hwf Ho.
  destruct (decide (status (game w) = InProgress)) as [Hs|Hs];
    [|rewrite openCell_terminal in Ho by done; by simplify_eq].
  destruct (cell_of (board (game w)) (r, c)) as [x|] eqn:Hx;
    [|by rewrite openCell_no_cell in Ho].
  destruct (decide (state x = Closed)) as [Hc|Hc];
    [|rewrite (openCell_not_closed w r c x) in Ho by done; by simplify_eq].
  destruct (hasMine x) eqn:Hm.
  - destruct (openCell_mine w r c x Hwf Hs Hx Hc Hm) as (g' & _ & Ho' & ? & _).
    rewrite Ho' in Ho. by apply rendered_Done in Ho as ->.
  - destruct (openCell_safe w r c x Hwf Hs Hx Hc Hm) as (b' & Ho' & Hwf' & _).
    rewrite Ho' in Ho. apply rendered_Done in Ho as ->. unfold after_open.
    by destruct (_ =? 0).
Qed.

Lemma toggleFlag_wf w r c w' :
  wf_game (game w) → toggleFlag w r c = Done w' → wf_game (game w').
Proof.
  intros Hwf Ho.
  destruct (decide (status (game w) = InProgress)) as [Hs|Hs];
    [|rewrite toggleFlag_terminal in Ho by done; by simplify_eq].
  destruct (cell_of (board (game w)) (r, c)) as [x|] eqn:Hx;
    [|by rewrite toggleFlag_no_cell in Ho].
  destruct (decide (state x = Open)) as [Hc|Hc];
    [rewrite (toggleFlag_open w r c x) in Ho by done; by simplify_eq|].
  rewrite (toggleFlag_toggles w r c x) in Ho by done.
  apply rendered_Done in Ho as ->. simpl.
  by apply update_cell_wf.
Qed.

(** * Further properties of the engine *)

(** ** What an operation does to the cells *)

(** The board after a non-losing open: each cell is as before, or was
    closed and mine-free and is now open; the clicked cell is open. *)
Lemma openCell_safe_cells w r c x :
  wf_game (game w) → status (game w) = InProgress →
  cell_of (board (game w)) (r, c) = Some x → state x = Closed →
  hasMine x = false →
  ∃ b', openCell w r c = rendered (after_open w b') ∧
        wf_board (rows (game w)) (cols (game w)) b' ∧
        cell_of b' (r, c) = Some (set_state Open x) ∧
        ∀ p y, cell_of (board (game w)) p = Some y →
               cell_of b' p = Some y ∨
               (state y = Closed ∧ hasMine y = false ∧
                cell_of b' p = Some (set_state Open y)).
Proof.
  intros Hwf Hs Hx Hc Hm.
  destruct (openCell_safe w r c x Hwf Hs Hx Hc Hm) as (b' & Ho & Hwf' & Hb').
  exists b'. split; [done|]. split; [done|].
  pose proof (board_get_inb _ _ _ _ _ _ Hwf Hx) as [Hr Hcc]. simpl in Hr, Hcc.
  destruct (neighborMines x =? 0) eqn:Hz.
  - destruct Hb' as (g' & opened & Hf & <- & HI).
    assert (Hreg : ∀ p, p ∈ opened ↔ flood_region (game w) (r, c) p).
    { intros p. by apply (flood_inv_final _ _ g'). }
    split.
    + rewrite (flood_inv_board _ _ _ _ _ _ HI Hx), decide_True; [done|].
      apply Hreg, region_seed. by exists x.
    + intros p y Hy. rewrite (flood_inv_board _ _ _ _ _ _ HI Hy).
      case_decide as Hin; [|by left]. right.
      apply Hreg, flood_region_eligible in Hin as (y' & Hy' & ? & ?).
      by simplify_eq.
  - subst b'. split.
    + by rewrite cell_of_update, decide_True, Hx by (done || lia).
    + intros p y Hy. rewrite cell_of_update by lia. case_decide as E; [|by left].
      subst p. right. rewrite Hy. by simplify_eq.
Qed.

(** The three ways [openCell] goes on a well-formed game and a cell of
    the board. *)
Lemma openCell_cases w r c x :
  wf_game (game w) → cell_of (board (game w)) (r, c) = Some x →
  (openCell w r c = Done w ∧
   (status (game w) ≠ InProgress ∨ state x ≠ Closed)) ∨
  (status (game w) = InProgress ∧ state x = Closed ∧ hasMine x = true ∧
   ∃ g', openCell w r c = rendered (stopTimer (set_game (first_click w) g')) ∧
         wf_game g' ∧ status g' = Lose ∧ rows g' = rows (game w) ∧
         cols g' = cols (game w) ∧ mines g' = mines (game w) ∧
         ∀ p y, cell_of (board (game w)) p = Some y →
                cell_of (board g') p = Some (reveal y)) ∨
  (status (game w) = InProgress ∧ state x = Closed ∧ hasMine x = false ∧
   ∃ b', openCell w r c = rendered (after_open w b') ∧
         wf_board (rows (game w)) (cols (game w)) b' ∧
         cell_of b' (r, c) = Some (set_state Open x) ∧
         ∀ p y, cell_of (board (game w)) p = Some y →
                cell_of b' p = Some y ∨
                (state y = Closed ∧ hasMine y = false ∧
                 cell_of b' p = Some (set_state Open y))).
Proof.
  intros Hwf Hx.
  destruct (decide (status (game w) = InProgress)) as [Hs|Hs];
    [|left; split; [by apply openCell_terminal|by left]].
  destruct (decide (state x = Closed)) as [Hc|Hc];
    [|left; split; [by eapply openCell_not_closed|by right]].
  right. destruct (hasMine x) eqn:Hm; [left|right]; repeat (split; [done|]).
  - destruct (openCell_mine w r c x Hwf Hs Hx Hc Hm)
      as (g' & Hg' & Ho & Hwf' & Hs' & Hm' & Hcells & Hr' & Hc' & _).
    exists g'. done.
  - by apply openCell_safe_cells.
Qed.

(** ** The win check *)

(** C5. After [openCell] has opened a mine-free cell of a game in
    progress (the clicked cell is open afterwards, and no cell has
    changed except closed mine-free cells that are now open), the status
    is [Win] exactly when no mine-free cell is left that is not open, and
    it is still [InProgress] otherwise; a win stops the timer.
    [toggleFlag] never changes the status.  The board is one the page can
    show: no mine-free cell holds a count above 8. *)
Theorem win_check_after_open :
  (∀ w r c x,
     wf_game (game w) → displayable (game w) →
     status (game w) = InProgress →
     cell_of (board (game w)) (r, c) = Some x → state x = Closed →
     hasMine x = false →
     ∃ w', openCell w r c = Done w' ∧
           cell_of (board (game w')) (r, c) = Some (set_state Open x) ∧
           (∀ p y, cell_of (board (game w)) p = Some y →
                   cell_of (board (game w')) p = Some y ∨
                   (state y = Closed ∧ hasMine y = false ∧
                    cell_of (board (game w')) p = Some (set_state Open y))) ∧
           (status (game w') = Win ↔
            count_cells is_unopened_safe (board (game w')) = 0) ∧
           (status (game w') = Win ↔
            ∀ p y, cell_of (board (game w')) p = Some y →
                   hasMine y = false → state y = Open) ∧
           (status (game w') = Win ∨ status (game w') = InProgress) ∧
           (status (game w') = Win → timerIntervalId w' = false)) ∧
  (∀ w r c w', toggleFlag w r c = Done w' →
     status (game w') = status (game w)).
Proof.
  split; [|apply toggleFlag_status].
  intros w r c x Hwf Hd Hs Hx Hc Hm.
  destruct (openCell_safe_cells w r c x Hwf Hs Hx Hc Hm)
    as (b' & Ho & Hwf' & Hrc & Hcells).
  rewrite rendered_after_open in Ho; [|done..|].
  2:{ intros p y Hy. destruct (Hcells p y Hy) as [?|(_ & _ & ?)];
        eexists; by split. }
  destruct (status_after_open w b' Hs) as (Hwin & Hst & Hb).
  exists (after_open w b'). rewrite Hb. split; [done|]. split; [done|].
  split; [done|]. split; [done|].
  split; [by rewrite <- unopened_safe_zero|]. split; [done|].
  intros HW. unfold after_open in *.
  destruct (count_cells is_unopened_safe b' =? 0); [done|].
  simpl in HW. congruence.
Qed.

Lemma win_check_after_open_witness :
  (∃ w', openCell (world0 (mkGame 1 2 1 InProgress
                     [[mkCell false 1 Closed; mkCell true 0 Closed]])) 0 0
         = Done w' ∧
         status (game w') = Win ∧ timerIntervalId w' = false) ∧
  (∃ w', openCell (world0 sampleGame) 2 2 = Done w' ∧
         cell_of (board (game w')) (2, 2) = Some (mkCell false 1 Open) ∧
         status (game w') = InProgress) ∧
  (∃ w', toggleFlag (world0 sampleGame) 2 2 = Done w' ∧
         status (game w') = InProgress).
Proof.
  split; [|split].
  - destruct (proj1 win_check_after_open
                (world0 (mkGame 1 2 1 InProgress
                   [[mkCell false 1 Closed; mkCell true 0 Closed]])) 0 0
                (mkCell false 1 Closed))
      as (w' & Ho & _ & _ & Hwin & _ & _ & Hstop);
      [compute_done|compute_done|reflexivity..|].
    assert (status (game w') = Win) as HW.
    { apply Hwin. vm_compute in Ho. injection Ho as <-. reflexivity. }
    exists w'. split; [exact Ho|]. split; [exact HW|exact (Hstop HW)].
  - destruct (proj1 win_check_after_open (world0 sampleGame) 2 2
                (mkCell false 1 Closed))
      as (w' & Ho & Hrc & _ & Hwin & _ & Hst & _);
      [compute_done|compute_done|reflexivity..|].
    exists w'. split; [exact Ho|]. split; [exact Hrc|].
    destruct Hst as [HW|HI]; [|exact HI]. exfalso.
    apply Hwin in HW. vm_compute in Ho. injection Ho as <-. discriminate HW.
  - eexists. split; [reflexivity|].
    by rewrite (proj2 win_check_after_open (world0 sampleGame) 2 2 _ eq_refl).
Defined.

(** What every completed [openCell] does to a cell. *)
Lemma openCell_cellwise w r c w' :
  wf_game (game w) → openCell w r c = Done w' →
  wf_game (game w') ∧ rows (game w') = rows (game w) ∧
  cols (game w') = cols (game w) ∧ mines (game w') = mines (game w) ∧
  ∀ p y, cell_of (board (game w)) p = Some y →
         ∃ y', cell_of (board (game w')) p = Some y' ∧ same_layout y y' ∧
               (y' = y ∨ (state y ≠ Open ∧ state y' = Open)).
Proof.
  intros Hwf Ho.
  destruct (cell_of (board (game w)) (r, c)) as [x|] eqn:Hx.
  2:{ destruct (decide (status (game w) = InProgress)) as [Hs|Hs].
      - by rewrite openCell_no_cell in Ho.
      - rewrite openCell_terminal in Ho by done. simplify_eq.
        repeat (split; [done|]). intros p y Hy. exists y. by repeat split; auto. }
  destruct (openCell_cases w r c x Hwf Hx)
    as [[Ho' _]|[(Hs & Hc & Hm & g' & Ho' & Hwf' & Hs' & Hr' & Hc' & Hm' & Hcells)
               |(Hs & Hc & Hm & b' & Ho' & Hwf' & Hrc & Hcells)]];
    rewrite Ho' in Ho; try apply rendered_Done in Ho; simplify_eq.
  - repeat (split; [done|]). intros p y Hy. exists y. by repeat split; auto.
  - simpl. repeat (split; [done|]). intros p y Hy. exists (reveal y).
    split; [by apply Hcells|]. unfold reveal.
    destruct (hasMine y) eqn:E; [|by repeat split; auto].
    split; [done|]. destruct (decide (state y = Open)) as [Ho|Ho]; [left|by right].
    destruct y; simpl in *; by subst.
  - destruct (game_after_open w b') as (-> & -> & -> & Hb).
    split; [unfold wf_game; by rewrite Hb; destruct (game_after_open w b') as (-> & -> & _)|].
    repeat (split; [done|]). rewrite Hb. intros p y Hy.
    destruct (Hcells p y Hy) as [?|(Hyc & Hym & ?)].
    + exists y. by repeat split; auto.
    + exists (set_state Open y). repeat split; [done..|]. right.
      split; [congruence|done].
Qed.

(** What every completed [toggleFlag] does to a cell. *)
Lemma toggleFlag_cellwise w r c w' :
  wf_game (game w) → toggleFlag w r c = Done w' →
  wf_game (game w') ∧ rows (game w') = rows (game w) ∧
  cols (game w') = cols (game w) ∧ mines (game w') = mines (game w) ∧
  ∀ p y, cell_of (board (game w)) p = Some y →
         ∃ y', cell_of (board (game w')) p = Some y' ∧ same_layout y y' ∧
               (y' = y ∨ (p = (r, c) ∧ state y ≠ Open ∧ y' = flip_flag y)).
Proof.
  intros Hwf Ho.
  assert (Hsame : wf_game (game w) ∧ rows (game w) = rows (game w) ∧
    cols (game w) = cols (game w) ∧ mines (game w) = mines (game w) ∧
    ∀ p y, cell_of (board (game w)) p = Some y →
      ∃ y', cell_of (board (game w)) p = Some y' ∧ same_layout y y' ∧
            (y' = y ∨ (p = (r, c) ∧ state y ≠ Open ∧ y' = flip_flag y))).
  { repeat (split; [done|]). intros p y Hy. exists y. by repeat split; auto. }
  destruct (decide (status (game w) = InProgress)) as [Hs|Hs];
    [|rewrite toggleFlag_terminal in Ho by done; by simplify_eq].
  destruct (cell_of (board (game w)) (r, c)) as [x|] eqn:Hx;
    [|by rewrite toggleFlag_no_cell in Ho].
  destruct (decide (state x = Open)) as [Hc|Hc];
    [rewrite (toggleFlag_open w r c x) in Ho by done; by simplify_eq|].
  rewrite (toggleFlag_toggles w r c x) in Ho by done.
  apply rendered_Done in Ho as ->. simpl.
  pose proof (board_get_inb _ _ _ _ _ _ Hwf Hx) as [Hr Hcc]. simpl in Hr, Hcc.
  split; [by apply update_cell_wf|]. repeat (split; [done|]).
  intros p y Hy. rewrite cell_of_update, Hy by lia. case_decide as E.
  - subst p. assert (y = x) as -> by congruence.
    exists (flip_flag x). repeat split; auto.
  - exists y. by repeat split; auto.
Qed.

(** ** Completion on displayable games *)

Lemma openCell_displayable w r c w' :
  wf_game (game w) → displayable (game w) → openCell w r c = Done w' →
  displayable (game w').
Proof.
  intros Hwf Hd Ho.
  destruct (openCell_cellwise w r c w' Hwf Ho) as (Hwf' & Hr & Hc & _ & Hcells).
  apply (displayable_layout (rows (game w)) (cols (game w)) (game w));
    [done| |by intros p y (y' & ? & ? & _)%Hcells; eauto|done].
  unfold wf_game in Hwf'. by rewrite Hr, Hc in Hwf'.
Qed.

Lemma toggleFlag_displayable w r c w' :
  wf_game (game w) → displayable (game w) → toggleFlag w r c = Done w' →
  displayable (game w').
Proof.
  intros Hwf Hd Ho.
  destruct (toggleFlag_cellwise w r c w' Hwf Ho) as (Hwf' & Hr & Hc & _ & Hcells).
  apply (displayable_layout (rows (game w)) (cols (game w)) (game w));
    [done| |by intros p y (y' & ? & ? & _)%Hcells; eauto|done].
  unfold wf_game in Hwf'. by rewrite Hr, Hc in Hwf'.
Qed.

Lemma openCell_completes w r c x :
  wf_game (game w) → displayable (game w) →
  cell_of (board (game w)) (r, c) = Some x →
  ∃ w', openCell w r c = Done w'.
Proof.
  intros Hwf Hd Hx.
  destruct (openCell_cases w r c x Hwf Hx)
    as [[Ho _]|[(_ & _ & _ & g' & Ho & Hwf' & _ & Hr' & Hc' & _ & Hcells)
               |(_ & _ & _ & b' & Ho & Hwf' & _ & Hcells)]]; rewrite Ho.
  - eauto.
  - eexists. apply rendered_ok; [done|]. simpl.
    apply (displayable_layout (rows (game w)) (cols (game w)) (game w));
      [done| | |done].
    + unfold wf_game in Hwf'. by rewrite Hr', Hc' in Hwf'.
    + intros p y Hy. exists (reveal y). split; [by apply Hcells|].
      unfold reveal. by destruct (hasMine y).
  - eexists. apply rendered_after_open; [done..|]. intros p y Hy.
    destruct (Hcells p y Hy) as [?|(_ & _ & ?)]; eexists; by split.
Qed.

Lemma toggleFlag_completes w r c x :
  wf_game (game w) → displayable (game w) →
  cell_of (board (game w)) (r, c) = Some x →
  ∃ w', toggleFlag w r c = Done w'.
Proof.
  intros Hwf Hd Hx.
  destruct (decide (status (game w) = InProgress)) as [Hs|Hs];
    [|exists w; by rewrite toggleFlag_terminal].
  destruct (decide (state x = Open)) as [Ho|Ho];
    [exists w; by rewrite (toggleFlag_open w r c x)|].
  eexists. by apply (toggleFlag_flips w r c x).
Qed.

(** ** Safety and frame of the two operations *)

(** X1. On a well-formed game that the page can show (no mine-free cell
    holds a count above 8), a click on a coordinate pair of the board
    never throws, whatever the status and the state of the cell are:
    [openCell] and [toggleFlag] complete, and the game they leave is
    again well formed and one the page can show. *)
Theorem operations_complete_on_board w r c :
  wf_game (game w) → displayable (game w) →
  0 ≤ r < rows (game w) → 0 ≤ c < cols (game w) →
  (∃ w', openCell w r c = Done w' ∧ wf_game (game w') ∧
         displayable (game w')) ∧
  (∃ w', toggleFlag w r c = Done w' ∧ wf_game (game w') ∧
         displayable (game w')).
Proof.
  intros Hwf Hd Hr Hc.
  destruct (read_cell_wf _ _ _ r c Hwf Hr Hc) as (x & Hx & _).
  split.
  - destruct (openCell_completes w r c x Hwf Hd Hx) as [w' Ho].
    exists w'. split; [done|].
    split; [by eapply openCell_wf|by eapply openCell_displayable].
  - destruct (toggleFlag_completes w r c x Hwf Hd Hx) as [w' Ho].
    exists w'. split; [done|].
    split; [by eapply toggleFlag_wf|by eapply toggleFlag_displayable].
Qed.

Lemma operations_complete_on_board_witness :
  (∃ w', openCell (world0 sampleGame) 1 1 = Done w' ∧ wf_game (game w') ∧
         displayable (game w') ∧ status (game w') = Lose) ∧
  (∃ w', toggleFlag (world0 sampleGame) 1 1 = Done w' ∧ wf_game (game w') ∧
         displayable (game w') ∧
         cell_of (board (game w')) (1, 1) = Some (mkCell true 0 Flagged)).
Proof.
  destruct (operations_complete_on_board (world0 sampleGame) 1 1)
    as [(w1 & Ho & Hwf1 & Hd1) (w2 & Hf & Hwf2 & Hd2)];
    [compute_done|compute_done|simpl; lia..|].
  split.
  - exists w1. repeat (split; [assumption|]).
    vm_compute in Ho. by injection Ho as <-.
  - exists w2. repeat (split; [assumption|]).
    vm_compute in Hf. by injection Hf as <-.
Defined.

(** X2. Neither operation ever moves a mine or rewrites a count: after a
    completed [openCell] or [toggleFlag] the game has the same dimensions
    and mine total, and every cell has the [hasMine] and [neighborMines]
    it had. *)
Theorem layout_is_fixed w r c w' :
  wf_game (game w) →
  openCell w r c = Done w' ∨ toggleFlag w r c = Done w' →
  rows (game w') = rows (game w) ∧ cols (game w') = cols (game w) ∧
  mines (game w') = mines (game w) ∧
  ∀ p y, cell_of (board (game w)) p = Some y →
         ∃ y', cell_of (board (game w')) p = Some y' ∧
               hasMine y' = hasMine y ∧ neighborMines y' = neighborMines y.
Proof.
  intros Hwf [Ho|Ho].
  - destruct (openCell_cellwise w r c w' Hwf Ho) as (_ & ? & ? & ? & Hcells).
    repeat (split; [done|]). intros p y Hy.
    destruct (Hcells p y Hy) as (y' & ? & [] & _). eauto.
  - destruct (toggleFlag_cellwise w r c w' Hwf Ho) as (_ & ? & ? & ? & Hcells).
    repeat (split; [done|]). intros p y Hy.
    destruct (Hcells p y Hy) as (y' & ? & [] & _). eauto.
Qed.

Lemma layout_is_fixed_witness :
  rows (game (mkWorld (set_board sampleGame
              (update_cell createSampleBoard 2 2 flip_flag)) false false 0 2)) = 3 ∧
  cols (game (mkWorld (set_board sampleGame
              (update_cell createSampleBoard 2 2 flip_flag)) false false 0 2)) = 3 ∧
  mines (game (mkWorld (set_board sampleGame
              (update_cell createSampleBoard 2 2 flip_flag)) false false 0 2)) = 3 ∧
  ∀ p y, cell_of (board sampleGame) p = Some y →
         ∃ y', cell_of (board (game (mkWorld (set_board sampleGame
              (update_cell createSampleBoard 2 2 flip_flag)) false false 0 2))) p = Some y' ∧
               hasMine y' = hasMine y ∧ neighborMines y' = neighborMines y.
Proof.
  apply (layout_is_fixed (world0 sampleGame) 2 2); [compute_done|].
  right. reflexivity.
Defined.

(** X3. Opening is for good.  An open cell is never changed again by
    [openCell] or [toggleFlag], and [openCell] changes the state of a cell
    only by opening it. *)
Theorem open_cells_stay_open w r c w' :
  wf_game (game w) →
  openCell w r c = Done w' ∨ toggleFlag w r c = Done w' →
  (∀ p y, cell_of (board (game w)) p = Some y → state y = Open →
          cell_of (board (game w')) p = Some y) ∧
  (openCell w r c = Done w' →
   ∀ p y y', cell_of (board (game w)) p = Some y →
             cell_of (board (game w')) p = Some y' →
             state y' = state y ∨ state y' = Open).
Proof.
  intros Hwf Ho. split.
  - intros p y Hy Hopen. destruct Ho as [Ho|Ho].
    + destruct (openCell_cellwise w r c w' Hwf Ho) as (_ & _ & _ & _ & Hcells).
      destruct (Hcells p y Hy) as (y' & ? & _ & [->|[? _]]); done.
    + destruct (toggleFlag_cellwise w r c w' Hwf Ho) as (_ & _ & _ & _ & Hcells).
      destruct (Hcells p y Hy) as (y' & ? & _ & [->|(_ & ? & _)]); done.
  - intros Ho' p y y' Hy Hy'.
    destruct (openCell_cellwise w r c w' Hwf Ho') as (_ & _ & _ & _ & Hcells).
    destruct (Hcells p y Hy) as (y'' & ? & _ & [->|[_ ?]]); simplify_eq; auto.
Qed.

Lemma open_cells_stay_open_witness :
  openCell sample_corner_open 0 0 = Done sample_corners_open ∧
  cell_of (board (game sample_corner_open)) (2, 2) = Some (mkCell false 1 Open) ∧
  (∀ p y, cell_of (board (game sample_corner_open)) p = Some y →
          state y = Open →
          cell_of (board (game sample_corners_open)) p = Some y) ∧
  (openCell sample_corner_open 0 0 = Done sample_corners_open →
   ∀ p y y', cell_of (board (game sample_corner_open)) p = Some y →
             cell_of (board (game sample_corners_open)) p = Some y' →
             state y' = state y ∨ state y' = Open).
Proof.
  split; [reflexivity|]. split; [reflexivity|].
  apply (open_cells_stay_open sample_corner_open 0 0); [compute_done|].
  left. reflexivity.
Defined.

(** X4. [openCell] is idempotent: repeating a completed [openCell] on the
    same coordinates changes nothing. *)
Theorem openCell_idempotent w r c w' :
  wf_game (game w) → openCell w r c = Done w' → openCell w' r c = Done w'.
Proof.
  intros Hwf Ho.
  destruct (cell_of (board (game w)) (r, c)) as [x|] eqn:Hx.
  2:{ destruct (decide (status (game w) = InProgress)) as [Hs|Hs].
      - by rewrite openCell_no_cell in Ho.
      - rewrite openCell_terminal in Ho by done. simplify_eq.
        by apply openCell_terminal. }
  destruct (openCell_cases w r c x Hwf Hx)
    as [[Ho' _]|[(_ & _ & _ & g' & Ho' & _ & Hs' & _)
               |(Hs & _ & _ & b' & Ho' & _ & Hrc & _)]];
    rewrite Ho' in Ho; try apply rendered_Done in Ho; simplify_eq.
  - done.
  - apply openCell_terminal. simpl. by rewrite Hs'.
  - apply (openCell_not_closed _ _ _ (set_state Open x)); [|done].
    by destruct (game_after_open w b') as (_ & _ & _ & ->).
Qed.

Lemma openCell_idempotent_witness :
  openCell (after_open (world0 sampleGame)
    [ [ mkCell false 1 Closed; mkCell true 0 Closed; mkCell false 2 Closed ];
      [ mkCell false 1 Open; mkCell true 0 Closed; mkCell true 0 Closed ];
      [ mkCell false 0 Open; mkCell false 2 Open; mkCell false 1 Closed ] ])
    2 0
  = Done (after_open (world0 sampleGame)
    [ [ mkCell false 1 Closed; mkCell true 0 Closed; mkCell false 2 Closed ];
      [ mkCell false 1 Open; mkCell true 0 Closed; mkCell true 0 Closed ];
      [ mkCell false 0 Open; mkCell false 2 Open; mkCell false 1 Closed ] ]).
Proof.
  apply (openCell_idempotent (world0 sampleGame) 2 0); [compute_done|reflexivity].
Defined.

(** ** Toggling twice *)

Lemma update_cell_twice b r c f g :
  update_cell (update_cell b r c f) r c g = update_cell b r c (g ∘ f).
Proof.
  unfold update_cell. rewrite list_alter_alter_eq.
  apply list_alter_ext; [|done]. intros row _. simpl.
  by rewrite list_alter_alter_eq.
Qed.

Lemma flip_flag_twice x : state x ≠ Open → flip_flag (flip_flag x) = x.
Proof. destruct x as [m n []]; by intros. Qed.

(** X5. On a game in progress that the page can show, toggling the flag
    of a cell twice gives back the game as it was (the cell is closed or
    flagged as before and no other cell has changed), with the mines
    counter showing the value for that game. *)
Theorem toggleFlag_twice w r c x :
  wf_game (game w) → displayable (game w) → status (game w) = InProgress →
  cell_of (board (game w)) (r, c) = Some x → state x ≠ Open →
  ∃ w1 w2, toggleFlag w r c = Done w1 ∧ toggleFlag w1 r c = Done w2 ∧
           game w2 = game w ∧
           state <$> cell_of (board (game w1)) (r, c) = Some (state (flip_flag x)) ∧
           minesCounterText w2 = remaining_mines (game w) ∧
           firstClickHappened w2 = firstClickHappened w ∧
           timerIntervalId w2 = timerIntervalId w ∧
           elapsedSeconds w2 = elapsedSeconds w.
Proof.
  intros Hwf Hd Hs Hx Ho.
  pose proof (board_get_inb _ _ _ _ _ _ Hwf Hx) as [Hr Hc]. simpl in Hr, Hc.
  pose proof (toggleFlag_flips w r c x Hwf Hd Hs Hx Ho) as H1. simpl in H1.
  eexists. eexists. split; [exact H1|].
  assert (Hx1 : cell_of (update_cell (board (game w)) r c flip_flag) (r, c)
                = Some (flip_flag x)).
  { by rewrite cell_of_update, decide_True, Hx by (done || lia). }
  split.
  - apply (toggleFlag_flips _ r c (flip_flag x)); simpl;
      [by apply update_cell_wf|by apply (displayable_update _ _ _ _ x)
      |done|done|].
    destruct x as [m n []]; simpl in *; done.
  - simpl. rewrite update_cell_twice.
    rewrite (update_cell_same _ r c (flip_flag ∘ flip_flag) x Hx)
      by (by apply flip_flag_twice).
    split; [by destruct (game w)|]. split; [by rewrite Hx1|].
    split; [|done]. unfold remaining_mines. simpl. done.
Qed.

Lemma toggleFlag_twice_witness :
  ∃ w1 w2, toggleFlag (world0 sampleGame) 0 1 = Done w1 ∧
           toggleFlag w1 0 1 = Done w2 ∧
           game w2 = game (world0 sampleGame) ∧
           state <$> cell_of (board (game w1)) (0, 1)
             = Some (state (flip_flag (mkCell true 0 Closed))) ∧
           minesCounterText w2 = remaining_mines (game (world0 sampleGame)) ∧
           firstClickHappened w2 = firstClickHappened (world0 sampleGame) ∧
           timerIntervalId w2 = timerIntervalId (world0 sampleGame) ∧
           elapsedSeconds w2 = elapsedSeconds (world0 sampleGame).
Proof.
  apply (toggleFlag_twice (world0 sampleGame) 0 1 (mkCell true 0 Closed));
    [compute_done|compute_done|reflexivity|reflexivity|discriminate].
Defined.

(** ** Counting is pointwise *)

Lemma board_Forall2 (Rel : Cell → Cell → Prop) R C (b b' : Board) :
  wf_board R C b → wf_board R C b' →
  (∀ p y, cell_of b p = Some y → ∃ y', cell_of b' p = Some y' ∧ Rel y y') →
  Forall2 Rel (concat b) (concat b').
Proof.
  intros (HR & _ & HC) (HR' & _ & HC') Hrel.
  assert (Forall2 (Forall2 Rel) b b') as H.
  { apply Forall2_same_length_lookup_2; [lia|].
    intros i row row' Hrow Hrow'.
    rewrite list.Forall_forall in HC, HC'.
    pose proof (HC _ (list_elem_of_lookup_2 _ _ _ Hrow)) as Hl.
    pose proof (HC' _ (list_elem_of_lookup_2 _ _ _ Hrow')) as Hl'.
    apply Forall2_same_length_lookup_2; [lia|].
    intros j y y' Hy Hy'.
    destruct (Hrel (Z.of_nat i, Z.of_nat j) y) as (y'' & Hy'' & Hr).
    { apply board_get_Some. simpl. rewrite !Nat2Z.id.
      split; [lia|]. split; [lia|]. eauto. }
    apply board_get_Some in Hy'' as (_ & _ & row'' & H1 & H2).
    simpl in H1, H2. rewrite !Nat2Z.id in *. by simplify_eq. }
  clear -H. induction H; simpl; [constructor|]. by apply Forall2_app.
Qed.

Lemma count_cells_pointwise (P : Cell → bool) R C (b b' : Board) :
  wf_board R C b → wf_board R C b' →
  (∀ p y, cell_of b p = Some y → ∃ y', cell_of b' p = Some y' ∧ P y' = P y) →
  count_cells P b' = count_cells P b.
Proof.
  intros Hwf Hwf' Hrel. unfold count_cells. f_equal.
  pose proof (board_Forall2 (λ y y', P y' = P y) R C b b' Hwf Hwf' Hrel) as H.
  induction H as [|y y' l l' Hy _ IH]; [done|].
  rewrite !list.filter_cons, Hy. destruct (P y); simpl; by rewrite ?IH.
Qed.

(** ** Sessions *)

Lemma do_click_dims w a w' :
  wf_game (game w) → do_click w a = Done w' →
  wf_game (game w') ∧ rows (game w') = rows (game w) ∧
  cols (game w') = cols (game w).
Proof.
  intros Hwf H. destruct a as [r c|r c]; simpl in H.
  - destruct (openCell_cellwise w r c w' Hwf H) as (? & ? & ? & _); done.
  - destruct (toggleFlag_cellwise w r c w' Hwf H) as (? & ? & ? & _); done.
Qed.

Lemma do_click_completes w a :
  wf_game (game w) → displayable (game w) → click_on_board (game w) a →
  ∃ w', do_click w a = Done w'.
Proof.
  intros Hwf Hd Hon. destruct a as [r c|r c]; simpl in *.
  - destruct (read_cell_wf _ _ _ r c Hwf) as (x & Hx & _); [tauto..|].
    by apply (openCell_completes w r c x).
  - destruct (read_cell_wf _ _ _ r c Hwf) as (x & Hx & _); [tauto..|].
    by apply (toggleFlag_completes w r c x).
Qed.

Lemma do_click_displayable w a w' :
  wf_game (game w) → displayable (game w) → do_click w a = Done w' →
  displayable (game w').
Proof.
  intros Hwf Hd H. destruct a as [r c|r c]; simpl in H.
  - by eapply openCell_displayable.
  - by eapply toggleFlag_displayable.
Qed.

(** A property of well-formed worlds that every click keeps holds after
    every session, and on a game that the page can show the session
    completes. *)
Lemma play_invariant (I : World → Prop) :
  (∀ w a w', wf_game (game w) → I w → do_click w a = Done w' → I w') →
  ∀ clicks w, wf_game (game w) → displayable (game w) → I w →
    Forall (click_on_board (game w)) clicks →
    ∃ w', play w clicks = Done w' ∧ wf_game (game w') ∧ I w'.
Proof.
  intros Hstep clicks. induction clicks as [|a clicks IH]; intros w Hwf Hd HI Hon.
  - exists w. done.
  - apply list.Forall_cons in Hon as [Ha Hon].
    destruct (do_click_completes w a Hwf Hd Ha) as [w1 Hw1].
    destruct (do_click_dims w a w1 Hwf Hw1) as (Hwf1 & Hr & Hc).
    pose proof (do_click_displayable w a w1 Hwf Hd Hw1) as Hd1.
    destruct (IH w1 Hwf1 Hd1 (Hstep _ _ _ Hwf HI Hw1)) as (w' & Hw' & ?).
    { eapply list.Forall_impl; [exact Hon|]. intros [r c|r c]; simpl; by rewrite Hr, Hc. }
    exists w'. simpl. rewrite Hw1. simpl. done.
Qed.

(** X6. A session never throws: on a well-formed game that the page can
    show (no mine-free cell holds a count above 8), every sequence of
    left and right clicks on coordinates of the board is handled to the
    end, and afterwards the board has the same dimensions, every cell its
    mine and its count as before, and every cell that was open is as it
    was. *)
Theorem session_is_safe w clicks :
  wf_game (game w) → displayable (game w) →
  Forall (click_on_board (game w)) clicks →
  ∃ w', play w clicks = Done w' ∧ wf_game (game w') ∧
        rows (game w') = rows (game w) ∧ cols (game w') = cols (game w) ∧
        mines (game w') = mines (game w) ∧
        ∀ p y, cell_of (board (game w)) p = Some y →
               ∃ y', cell_of (board (game w')) p = Some y' ∧
                     same_layout y y' ∧ (state y = Open → y' = y).
Proof.
  intros Hwf Hd Hon.
  destruct (play_invariant (λ w',
    rows (game w') = rows (game w) ∧ cols (game w') = cols (game w) ∧
    mines (game w') = mines (game w) ∧
    ∀ p y, cell_of (board (game w)) p = Some y →
           ∃ y', cell_of (board (game w')) p = Some y' ∧
                 same_layout y y' ∧ (state y = Open → y' = y))
    ) with clicks w as (w' & Hw' & Hwf' & HI); try done.
  - intros w1 a w2 Hwf1 (Hr & Hc & Hm & Hcells) Ha.
    assert (Hstep : rows (game w2) = rows (game w1) ∧
      cols (game w2) = cols (game w1) ∧ mines (game w2) = mines (game w1) ∧
      ∀ p y, cell_of (board (game w1)) p = Some y →
             ∃ y', cell_of (board (game w2)) p = Some y' ∧
                   same_layout y y' ∧ (state y = Open → y' = y)).
    { destruct a as [r c|r c]; simpl in Ha.
      - destruct (openCell_cellwise w1 r c w2 Hwf1 Ha) as (_ & ? & ? & ? & H).
        repeat (split; [done|]). intros p y Hy.
        destruct (H p y Hy) as (y' & ? & ? & Hch). exists y'.
        split; [done|]. split; [done|]. by destruct Hch as [->|[? _]].
      - destruct (toggleFlag_cellwise w1 r c w2 Hwf1 Ha) as (_ & ? & ? & ? & H).
        repeat (split; [done|]). intros p y Hy.
        destruct (H p y Hy) as (y' & ? & ? & Hch). exists y'.
        split; [done|]. split; [done|]. by destruct Hch as [->|(_ & ? & _)]. }
    destruct Hstep as (Hr' & Hc' & Hm' & Hcells').
    split; [congruence|]. split; [congruence|]. split; [congruence|].
    intros p y Hy. destruct (Hcells p y Hy) as (y1 & Hy1 & [Hl1 Hl1'] & Ho1).
    destruct (Hcells' p y1 Hy1) as (y2 & Hy2 & [Hl2 Hl2'] & Ho2).
    exists y2. split; [done|]. split; [split; congruence|].
    intros Ho. rewrite (Ho1 Ho) in *. by apply Ho2.
  - repeat (split; [done|]). intros p y Hy. exists y. by repeat split.
  - exists w'. done.
Qed.

Lemma session_is_safe_witness :
  ∃ w', play (world0 sampleGame)
          [RightClick 0 1; LeftClick 2 0; LeftClick 0 1; LeftClick 1 1] = Done w' ∧
        status (game w') = Lose ∧
        board (game w') =
          [ [ mkCell false 1 Closed; mkCell true 0 Open; mkCell false 2 Closed ];
            [ mkCell false 1 Open; mkCell true 0 Open; mkCell true 0 Open ];
            [ mkCell false 0 Open; mkCell false 2 Open; mkCell false 1 Closed ] ] ∧
        wf_game (game w') ∧
        rows (game w') = 3 ∧ cols (game w') = 3 ∧ mines (game w') = 3 ∧
        ∀ p y, cell_of (board sampleGame) p = Some y →
               ∃ y', cell_of (board (game w')) p = Some y' ∧
                     same_layout y y' ∧ (state y = Open → y' = y).
Proof.
  destruct (session_is_safe (world0 sampleGame)
              [RightClick 0 1; LeftClick 2 0; LeftClick 0 1; LeftClick 1 1])
    as (w' & Hp & Hrest); [compute_done|compute_done| |].
  - repeat constructor; simpl; lia.
  - exists w'. split; [exact Hp|].
    split; [|split; [|exact Hrest]]; vm_compute in Hp; by injection Hp as <-.
Defined.

(** ** What a session keeps *)

Lemma fresh_of_Forall g :
  status g = InProgress → Forall (λ x, state x = Closed) (concat (board g)) →
  fresh g.
Proof.
  intros Hs Hall. split; [done|]. intros p x Hx.
  rewrite list.Forall_forall in Hall. apply Hall, elem_of_concat_cell. eauto.
Qed.

Lemma fresh_secure g : fresh g → secure g.
Proof.
  intros [Hs Hcl]. split; [|split].
  - intros _ p x Hx _. rewrite (Hcl p x Hx). done.
  - rewrite Hs. done.
  - rewrite Hs. done.
Qed.

Lemma do_click_secure w a w' :
  wf_game (game w) → secure (game w) → do_click w a = Done w' →
  secure (game w').
Proof.
  intros Hwf (Hhid & Hlose & Hwin) Ha. destruct a as [r c|r c]; simpl in Ha.
  - destruct (cell_of (board (game w)) (r, c)) as [x|] eqn:Hx.
    2:{ destruct (decide (status (game w) = InProgress)) as [Hs|Hs].
        - by rewrite openCell_no_cell in Ha.
        - rewrite openCell_terminal in Ha by done. by simplify_eq. }
    destruct (openCell_cases w r c x Hwf Hx)
      as [[Ho _]|[(Hs & _ & _ & g' & Ho & Hwf' & Hs' & Hr' & Hc' & _ & Hcells)
                 |(Hs & _ & _ & b' & Ho & Hwf' & _ & Hcells)]];
      rewrite Ho in Ha; try apply rendered_Done in Ha; simplify_eq; [done| |].
    + (* lost: every mine is shown *)
      change (secure g'). unfold secure. rewrite Hs'.
      split; [done|]. split; [|done].
      intros _ p y' Hy' Hm.
      unfold wf_game in Hwf'. rewrite Hr', Hc' in Hwf'.
      destruct (proj2 (cell_of_wf_iff _ _ _ _ p Hwf Hwf')) as [y Hy]; [eauto|].
      rewrite (Hcells p y Hy) in Hy'. simplify_eq. unfold reveal in *.
      destruct (hasMine y) eqn:E; [done|congruence].
    + (* not lost: no mine is touched *)
      destruct (status_after_open w b' Hs) as (Hw & Hst & Hb).
      unfold secure. rewrite Hb.
      assert (Hmines : ∀ p y', cell_of b' p = Some y' → hasMine y' = true →
                state y' ≠ Open).
      { intros p y' Hy' Hm.
        destruct (proj2 (cell_of_wf_iff _ _ _ _ p Hwf Hwf')) as [y Hy]; [eauto|].
        destruct (Hcells p y Hy) as [?|(_ & ? & ?)]; simplify_eq.
        - eapply Hhid; [congruence|done..].
        - simpl in *. congruence. }
      split; [done|]. split.
      * intros HL. destruct Hst; congruence.
      * intros HW%Hw. by apply unopened_safe_zero.
  - destruct (decide (status (game w) = InProgress)) as [Hs|Hs];
      [|rewrite toggleFlag_terminal in Ha by done; by simplify_eq].
    destruct (toggleFlag_cellwise w r c w' Hwf Ha) as (Hwf' & Hr & Hc & _ & Hcells).
    pose proof (toggleFlag_status w r c w' Ha) as Hst.
    unfold secure. rewrite Hst, Hs.
    split; [|by split]. intros _ p y' Hy' Hm.
    unfold wf_game in Hwf'. rewrite Hr, Hc in Hwf'.
    destruct (proj2 (cell_of_wf_iff _ _ _ _ p Hwf Hwf')) as [y Hy]; [eauto|].
    destruct (Hcells p y Hy) as (y'' & Hy'' & [Hmy _] & Hch).
    rewrite Hy' in Hy''. injection Hy'' as <-.
    destruct Hch as [->|(_ & Ho & ->)].
    + eapply Hhid; [congruence|done..].
    + destruct y as [m n []]; simpl in *; done.
Qed.

(** X7. From a game nobody has played on and that the page can show,
    whatever is clicked on the board: a mine is open only if the game is
    lost, on a lost game every mine is open, and on a won game every
    mine-free cell is open and no mine is. *)
Theorem mines_hidden_until_lost w clicks :
  wf_game (game w) → displayable (game w) → fresh (game w) →
  Forall (click_on_board (game w)) clicks →
  ∃ w', play w clicks = Done w' ∧ secure (game w').
Proof.
  intros Hwf Hd Hfresh Hon.
  destruct (play_invariant (λ w', secure (game w'))) with clicks w
    as (w' & Hw' & _ & Hsec); eauto using do_click_secure, fresh_secure.
Qed.

Lemma mines_hidden_until_lost_witness :
  ∃ w', play (world0 sampleGame)
          [RightClick 1 1; LeftClick 2 0; LeftClick 0 0; LeftClick 1 2] = Done w' ∧
        status (game w') = Lose ∧
        cell_of (board (game w')) (1, 1) = Some (mkCell true 0 Open) ∧
        secure (game w').
Proof.
  destruct (mines_hidden_until_lost (world0 sampleGame)
              [RightClick 1 1; LeftClick 2 0; LeftClick 0 0; LeftClick 1 2])
    as (w' & Hp & Hs); [compute_done|compute_done| | |].
  - apply fresh_of_Forall; [reflexivity|]. by repeat constructor.
  - repeat constructor; simpl; lia.
  - exists w'. split; [exact Hp|].
    split; [|split; [|exact Hs]]; vm_compute in Hp; by injection Hp as <-.
Defined.

(** ** The timer and the mines counter *)

Lemma first_click_happened w : firstClickHappened (first_click w) = true.
Proof. unfold first_click. by destruct (firstClickHappened w) eqn:E. Qed.

Lemma do_click_timer w a w' :
  wf_game (game w) → timer_ok w → do_click w a = Done w' → timer_ok w'.
Proof.
  unfold timer_ok. intros Hwf Hok Ha. destruct a as [r c|r c]; simpl in Ha.
  - destruct (cell_of (board (game w)) (r, c)) as [x|] eqn:Hx.
    2:{ destruct (decide (status (game w) = InProgress)) as [Hs|Hs].
        - by rewrite openCell_no_cell in Ha.
        - rewrite openCell_terminal in Ha by done. by simplify_eq. }
    destruct (openCell_cases w r c x Hwf Hx)
      as [[Ho _]|[(Hs & _ & _ & g' & Ho & _ & Hs' & _)
                 |(Hs & _ & _ & b' & Ho & _)]];
      rewrite Ho in Ha; try apply rendered_Done in Ha; simplify_eq; [done| |].
    + simpl. by rewrite Hs', first_click_happened.
    + rewrite Hs in Hok. unfold after_open.
      destruct (count_cells is_unopened_safe b' =? 0); simpl.
      * by rewrite first_click_happened.
      * rewrite Hs, first_click_happened. unfold first_click.
        destruct (firstClickHappened w) eqn:E; simpl; [|done].
        by rewrite Hok.
  - destruct (decide (status (game w) = InProgress)) as [Hs|Hs];
      [|rewrite toggleFlag_terminal in Ha by done; by simplify_eq].
    destruct (cell_of (board (game w)) (r, c)) as [x|] eqn:Hx;
      [|by rewrite toggleFlag_no_cell in Ha].
    destruct (decide (state x = Open)) as [Ho|Ho];
      [rewrite (toggleFlag_open w r c x) in Ha by done; by simplify_eq|].
    rewrite (toggleFlag_toggles w r c x) in Ha by done.
    by apply rendered_Done in Ha as ->.
Qed.

(** What an opening click does to the timer. *)
Lemma openCell_timer w r c x w' :
  wf_game (game w) → timer_ok w → status (game w) = InProgress →
  cell_of (board (game w)) (r, c) = Some x → state x = Closed →
  openCell w r c = Done w' →
  firstClickHappened w' = true ∧
  (timerIntervalId w' = true ↔ status (game w') = InProgress) ∧
  elapsedSeconds w' = (if firstClickHappened w then elapsedSeconds w else 0).
Proof.
  unfold timer_ok. intros Hwf Hok Hs Hx Hc Ha.
  destruct (openCell_cases w r c x Hwf Hx)
    as [[Ho [?|?]]|[(_ & _ & _ & g' & Ho & _ & Hs' & _)
               |(_ & _ & _ & b' & Ho & _)]]; [done|done| |];
    rewrite Ho in Ha; apply rendered_Done in Ha as ->.
  - simpl. rewrite Hs', first_click_happened. split; [done|]. split; [done|].
    unfold first_click. by destruct (firstClickHappened w).
  - rewrite Hs in Hok. unfold after_open.
    destruct (count_cells is_unopened_safe b' =? 0); simpl.
    + rewrite first_click_happened. split; [done|]. split; [done|].
      unfold first_click. by destruct (firstClickHappened w).
    + rewrite Hs, first_click_happened. unfold first_click.
      destruct (firstClickHappened w) eqn:E; simpl; [|done].
      rewrite Hok. done.
Qed.

Lemma toggleFlag_timer w r c w' :
  toggleFlag w r c = Done w' →
  firstClickHappened w' = firstClickHappened w ∧
  timerIntervalId w' = timerIntervalId w ∧
  elapsedSeconds w' = elapsedSeconds w.
Proof.
  unfold toggleFlag. destruct (negb _); [by intros; simplify_eq|].
  intros (x & _ & H)%bind_Done.
  destruct (bool_decide (state x = Open)); [by simplify_eq|].
  apply bind_Done in H as (w1 & Hw1 & (_ & _ & H)%bind_Done).
  unfold updateMinesCounter in Hw1.
  apply bind_Done in Hw1 as (n & _ & Hw1). by simplify_eq.
Qed.

(** X8. The timer runs from the first opening click to the end of the
    game.  On a well-formed game that the page can show and whose timer
    bookkeeping is right (as [initGame] leaves it): an opening click on a
    closed cell records the first click and leaves the timer running
    exactly if the game is still in progress, counting from 0 if it was
    the first; a flag click changes nothing of the timer; and after
    every session the timer runs exactly when a first click is recorded
    and the game is still in progress. *)
Theorem timer_runs_while_playing w clicks :
  wf_game (game w) → displayable (game w) → timer_ok w →
  Forall (click_on_board (game w)) clicks →
  (∃ w', play w clicks = Done w' ∧
         (timerIntervalId w' = true ↔
          firstClickHappened w' = true ∧ status (game w') = InProgress)) ∧
  (∀ r c x, status (game w) = InProgress →
     cell_of (board (game w)) (r, c) = Some x → state x = Closed →
     ∃ w', openCell w r c = Done w' ∧ firstClickHappened w' = true ∧
           (timerIntervalId w' = true ↔ status (game w') = InProgress) ∧
           elapsedSeconds w' =
             (if firstClickHappened w then elapsedSeconds w else 0)) ∧
  (∀ r c w', toggleFlag w r c = Done w' →
     firstClickHappened w' = firstClickHappened w ∧
     timerIntervalId w' = timerIntervalId w ∧
     elapsedSeconds w' = elapsedSeconds w).
Proof.
  intros Hwf Hd Hok Hon. split; [|split].
  - destruct (play_invariant timer_ok do_click_timer clicks w Hwf Hd Hok Hon)
      as (w' & Hw' & _ & Hok').
    exists w'. split; [done|]. rewrite Hok', andb_true_iff, bool_decide_eq_true.
    done.
  - intros r c x Hs Hx Hc.
    destruct (openCell_completes w r c x Hwf Hd Hx) as [w' Ho].
    exists w'. split; [done|]. by apply (openCell_timer w r c x).
  - intros r c w'. apply toggleFlag_timer.
Qed.

Lemma timer_runs_while_playing_witness :
  (∃ w', play (world0 sampleGame) [RightClick 0 0; LeftClick 2 2] = Done w' ∧
         (timerIntervalId w' = true ↔
          firstClickHappened w' = true ∧ status (game w') = InProgress)) ∧
  (∃ w', openCell (world0 sampleGame) 2 2 = Done w' ∧
         firstClickHappened w' = true ∧
         (timerIntervalId w' = true ↔ status (game w') = InProgress) ∧
         elapsedSeconds w' = 0) ∧
  (∃ w', toggleFlag (world0 sampleGame) 0 0 = Done w' ∧
         firstClickHappened w' = false ∧ timerIntervalId w' = false ∧
         elapsedSeconds w' = 0).
Proof.
  destruct (timer_runs_while_playing (world0 sampleGame)
              [RightClick 0 0; LeftClick 2 2]) as (Hplay & Hopen & Hflag);
    [compute_done|compute_done|reflexivity|repeat constructor; simpl; lia|].
  split; [exact Hplay|]. split.
  - apply (Hopen 2 2 (mkCell false 1 Closed)); reflexivity.
  - eexists. split; [reflexivity|]. by apply (Hflag 0 0).
Defined.

Lemma do_click_counter w a w' :
  wf_game (game w) → counter_ok w → do_click w a = Done w' → counter_ok w'.
Proof.
  unfold counter_ok. intros Hwf Hok Ha. destruct a as [r c|r c]; simpl in Ha.
  - destruct (cell_of (board (game w)) (r, c)) as [x|] eqn:Hx.
    2:{ destruct (decide (status (game w) = InProgress)) as [Hs|Hs].
        - by rewrite openCell_no_cell in Ha.
        - rewrite openCell_terminal in Ha by done. by simplify_eq. }
    destruct (openCell_cases w r c x Hwf Hx)
      as [[Ho _]|[(Hs & _ & _ & g' & Ho & _ & Hs' & _)
                 |(Hs & _ & _ & b' & Ho & Hwf' & _ & Hcells)]];
      rewrite Ho in Ha; try apply rendered_Done in Ha; simplify_eq;
      [done|done|].
    intros _.
    assert (minesCounterText (after_open w b') = minesCounterText w) as ->.
    { unfold after_open, first_click.
      destruct (_ =? 0); simpl; by destruct (firstClickHappened w). }
    rewrite Hok by congruence. unfold remaining_mines.
    destruct (game_after_open w b') as (_ & _ & -> & ->). f_equal. f_equal.
    symmetry. apply (count_cells_pointwise _ _ _ _ _ Hwf Hwf').
    intros p y Hy. destruct (Hcells p y Hy) as [?|(Hc & _ & ?)]; [eauto|].
    eexists. split; [done|]. unfold is_flagged. simpl. by rewrite Hc.
  - destruct (decide (status (game w) = InProgress)) as [Hs|Hs];
      [|rewrite toggleFlag_terminal in Ha by done; by simplify_eq].
    destruct (cell_of (board (game w)) (r, c)) as [x|] eqn:Hx;
      [|by rewrite toggleFlag_no_cell in Ha].
    destruct (decide (state x = Open)) as [Ho|Ho];
      [rewrite (toggleFlag_open w r c x) in Ha by done; by simplify_eq|].
    rewrite (toggleFlag_toggles w r c x) in Ha by done.
    by apply rendered_Done in Ha as ->.
Qed.

(** X9. Once the mines counter is right (as [initGame] leaves it), it is
    right after every session that does not lose the game: it shows
    [max 0 (mines - flags)] for the flags then on the board, although
    only [toggleFlag] ever rewrites it.  The game is one the page can
    show. *)
Theorem counter_follows_flags w clicks :
  wf_game (game w) → displayable (game w) → counter_ok w →
  Forall (click_on_board (game w)) clicks →
  ∃ w', play w clicks = Done w' ∧
        (status (game w') ≠ Lose →
         minesCounterText w' =
         Z.max 0 (mines (game w') - count_cells is_flagged (board (game w')))).
Proof.
  intros Hwf Hd Hok Hon.
  destruct (play_invariant counter_ok do_click_counter clicks w Hwf Hd Hok Hon)
    as (w' & Hw' & _ & Hok').
  exists w'. done.
Qed.

Lemma counter_follows_flags_witness :
  ∃ w', play (mkWorld sampleGame false false 0 3)
          [RightClick 0 1; LeftClick 2 0; RightClick 0 0] = Done w' ∧
        status (game w') = InProgress ∧
        count_cells is_flagged (board (game w')) = 2 ∧
        minesCounterText w' = 1 ∧
        (status (game w') ≠ Lose →
         minesCounterText w' =
         Z.max 0 (mines (game w') - count_cells is_flagged (board (game w')))).
Proof.
  destruct (counter_follows_flags (mkWorld sampleGame false false 0 3)
              [RightClick 0 1; LeftClick 2 0; RightClick 0 0])
    as (w' & Hp & Hc); [compute_done|compute_done|intros _; reflexivity| |].
  - repeat constructor; simpl; lia.
  - exists w'. split; [exact Hp|].
    split; [|split; [|split; [|exact Hc]]];
      vm_compute in Hp; by injection Hp as <-.
Defined.

Lemma openCell_counter w r c w' :
  openCell w r c = Done w' → minesCounterText w' = minesCounterText w.
Proof.
  unfold openCell. destruct (negb _); [by intros; simplify_eq|].
  intros (x & _ & H)%bind_Done.
  destruct (negb (bool_decide (state x = Closed))); [by simplify_eq|].
  fold (first_click w) in H.
  assert (minesCounterText (first_click w) = minesCounterText w) as Hfc.
  { unfold first_click. by destruct (firstClickHappened w). }
  destruct (hasMine x).
  - apply bind_Done in H as (g' & _ & (_ & _ & H)%bind_Done). by simplify_eq.
  - apply bind_Done in H as (g' & _ & (w1 & Hw1 & (_ & _ & H)%bind_Done)%bind_Done).
    simplify_eq. unfold checkWinCondition in Hw1.
    apply bind_Done in Hw1 as (n & _ & Hw1). by destruct (n =? 0); simplify_eq.
Qed.

(** X10. [openCell] never rewrites the mines counter, on any game.  So a
    loss leaves the counter stale: on a game that the page can show, the
    mine that was flagged is shown open, its flag is gone, and the
    counter still counts it. *)
Theorem counter_is_stale_after_loss :
  (∀ w r c w', openCell w r c = Done w' →
     minesCounterText w' = minesCounterText w) ∧
  (∀ w r c x f xf,
     wf_game (game w) → displayable (game w) →
     status (game w) = InProgress →
     cell_of (board (game w)) (r, c) = Some x → state x = Closed →
     hasMine x = true →
     cell_of (board (game w)) f = Some xf → state xf = Flagged →
     hasMine xf = true →
     ∃ w', openCell w r c = Done w' ∧
           minesCounterText w' = minesCounterText w ∧
           cell_of (board (game w')) f = Some (set_state Open xf)).
Proof.
  split; [apply openCell_counter|].
  intros w r c x f xf Hwf Hd Hs Hx Hc Hm Hf Hfl Hfm.
  destruct (openCell_mine w r c x Hwf Hs Hx Hc Hm)
    as (g' & _ & Ho & Hwf' & _ & _ & Hcells & _ & _ & Hd').
  rewrite rendered_ok in Ho by auto.
  eexists. split; [exact Ho|]. split; [by apply (openCell_counter w r c)|].
  simpl. rewrite (Hcells _ _ Hf). unfold reveal. by rewrite Hfm.
Qed.

Lemma counter_is_stale_after_loss_witness :
  ∃ w', openCell (mkWorld (set_board sampleGame
                     (update_cell createSampleBoard 1 1 flip_flag))
                    false false 0 2) 0 1 = Done w' ∧
        minesCounterText w' = 2 ∧
        cell_of (board (game w')) (1, 1) = Some (mkCell true 0 Open).
Proof.
  apply (proj2 counter_is_stale_after_loss
           (mkWorld (set_board sampleGame
                      (update_cell createSampleBoard 1 1 flip_flag))
                    false false 0 2) 0 1 (mkCell true 0 Closed)
           (1, 1) (mkCell true 0 Flagged));
    [compute_done|compute_done|reflexivity..].
Defined.

(** ** A board without mines *)

Lemma region_covers_zero_board g seed :
  wf_game g →
  (∀ p x, cell_of (board g) p = Some x →
          state x = Closed ∧ hasMine x = false ∧ neighborMines x = 0) →
  is_Some (cell_of (board g) seed) →
  ∀ p, is_Some (cell_of (board g) p) → flood_region g seed p.
Proof.
  intros Hwf Hall Hseed p.
  assert (Hel : ∀ q, is_Some (cell_of (board g) q) → eligible g q ∧ zero_at g q).
  { intros q [x Hx]. destruct (Hall q x Hx) as (? & ? & ?).
    split; exists x; done. }
  remember (Z.to_nat (Z.abs (p.1 - seed.1) + Z.abs (p.2 - seed.2))) as n eqn:Hn.
  revert p Hn. induction n as [|n IH]; intros [r c] Hn Hp.
  - destruct seed as [sr sc]. simpl in Hn.
    assert (r = sr ∧ c = sc) as [-> ->] by lia.
    apply region_seed. by apply Hel.
  - destruct seed as [sr sc]. simpl in Hn.
    apply (board_get_wf _ _ _ _ _ Hwf) in Hp as Hpb. simpl in Hpb.
    apply (board_get_wf _ _ _ _ _ Hwf) in Hseed as Hsb. simpl in Hsb.
    set (z := if decide (r = sr) then (r, c - Z.sgn (c - sc))
              else (r - Z.sgn (r - sr), c)).
    assert (Hz : is_Some (cell_of (board g) z)).
    { apply (board_get_wf _ _ _ _ _ Hwf). unfold z. case_decide; simpl; lia. }
    apply (region_step _ _ z).
    + apply IH; [|done]. unfold z. case_decide; simpl; lia.
    + by apply Hel.
    + unfold adjacent, z. case_decide; simpl; (split; [intros [=]; lia|lia]).
    + by apply Hel.
Qed.

(** X11. On a board without mines, with every count zero and every cell
    closed, the first opening click wins the game at once: the flood
    opens the whole board. *)
Theorem mine_free_board_is_won_at_once w r c :
  wf_game (game w) → status (game w) = InProgress →
  (∀ p x, cell_of (board (game w)) p = Some x →
          state x = Closed ∧ hasMine x = false ∧ neighborMines x = 0) →
  0 ≤ r < rows (game w) → 0 ≤ c < cols (game w) →
  ∃ w', openCell w r c = Done w' ∧ status (game w') = Win ∧
        ∀ p x', cell_of (board (game w')) p = Some x' → state x' = Open.
Proof.
  intros Hwf Hs Hall Hr Hc.
  destruct (read_cell_wf _ _ _ r c Hwf Hr Hc) as (x & Hx & _).
  destruct (Hall (r, c) x Hx) as (Hcl & Hm & Hz).
  destruct (openCell_safe w r c x Hwf Hs Hx Hcl Hm) as (b' & Ho & Hwf' & Hb').
  rewrite Hz in Hb'. simpl in Hb'. destruct Hb' as (g' & opened & _ & <- & HI).
  assert (Hopen : ∀ p x', cell_of (board g') p = Some x' → state x' = Open).
  { intros p x' Hx'.
    destruct (proj2 (cell_of_wf_iff _ _ _ _ p Hwf Hwf')) as [y Hy]; [eauto|].
    rewrite (flood_inv_board _ _ _ _ _ _ HI Hy), decide_True in Hx'.
    - by simplify_eq.
    - apply (flood_inv_final _ _ _ _ _ HI).
      apply region_covers_zero_board; eauto. }
  assert (Hd : displayable (game w)).
  { apply list.Forall_forall. intros y ([r' c'] & Hy)%elem_of_concat_cell _.
    destruct (Hall _ _ Hy) as (_ & _ & ->). lia. }
  rewrite rendered_after_open in Ho; [|done..|].
  2:{ intros p y Hy. eexists.
      split; [by apply (flood_inv_board (game w) (r, c) g' opened)|].
      by case_decide. }
  destruct (status_after_open w (board g') Hs) as (Hwin & _ & Hb).
  exists (after_open w (board g')). split; [done|]. rewrite Hb. split; [|done].
  apply Hwin, unopened_safe_zero. eauto.
Qed.

Lemma mine_free_board_is_won_at_once_witness :
  ∃ w', openCell (world0 (mkGame 2 2 0 InProgress
          [ [ mkCell false 0 Closed; mkCell false 0 Closed ];
            [ mkCell false 0 Closed; mkCell false 0 Closed ] ])) 1 0 = Done w' ∧
        status (game w') = Win ∧
        ∀ p x', cell_of (board (game w')) p = Some x' → state x' = Open.
Proof.
  apply (mine_free_board_is_won_at_once); [compute_done|reflexivity| |simpl; lia..].
  intros p x Hx.
  assert (x ∈ [mkCell false 0 Closed; mkCell false 0 Closed;
               mkCell false 0 Closed; mkCell false 0 Closed]) as Hin.
  { apply (elem_of_concat_cell [ [ _; _ ]; [ _; _ ] ]). eauto. }
  clear Hx. revert x Hin. by apply list.Forall_forall; repeat constructor.
Defined.

(** * Further properties of the board generator *)

(** ** The range of the counts *)

Lemma adjacent_mines_range b p : 0 ≤ adjacent_mines b p ≤ 8.
Proof.
  unfold adjacent_mines.
  pose proof (length_filter (λ q, mine_at b q) (neighbors8 p)) as H.
  change (length (neighbors8 p)) with 8%nat in H. lia.
Qed.

Lemma createBoard_cells rws cls mns rnd b p x :
  1 ≤ rws → 1 ≤ cls → 0 ≤ mns → Forall unit_interval rnd →
  createBoard rws cls mns rnd = Done b → cell_of b p = Some x →
  if hasMine x then neighborMines x = 0
  else ∃ b1, neighborMines x = adjacent_mines b1 p.
Proof.
  intros Hr Hc Hm Hrnd Hb Hx. unfold createBoard in Hb.
  rewrite emptyBoard_spec in Hb. simpl in Hb.
  apply bind_Done in Hb as (b1 & Hb1 & Hb).
  destruct (emptyBoard_facts rws cls) as (Hwf0 & Hpr0 & Hcnt0 & _); [lia..|].
  destruct (placeMines_sound rws cls mns Hr Hc rnd _ 0 Hrnd Hwf0 Hcnt0 Hpr0)
    as [_ Hsound].
  destruct (Hsound b1 Hb1) as (Hwf1 & _ & Hpr1).
  destruct (countNeighbors_spec rws cls b1 Hwf1) as (b' & Hb' & _ & _ & _ & Hcells).
  simpl in Hb. rewrite Hb' in Hb. injection Hb as <-.
  rewrite Hcells in Hx. destruct (cell_of b1 p) as [x1|] eqn:Hx1; [|done].
  simpl in Hx. injection Hx as <-.
  assert (pristine x1) as [_ Hn].
  { rewrite list.Forall_forall in Hpr1. apply Hpr1, elem_of_concat_cell. eauto. }
  destruct (hasMine x1) eqn:E; simpl; rewrite ?E; eauto.
Qed.

Lemma filter_ext_elem {A : Type} (P Q : A → Prop)
    `{!∀ x, Decision (P x)} `{!∀ x, Decision (Q x)} (l : list A) :
  (∀ x, x ∈ l → P x ↔ Q x) → filter P l = filter Q l.
Proof.
  induction l as [|x l IH]; intros Hl; [done|].
  rewrite !list.filter_cons, IH by (intros; apply Hl; by right).
  assert (P x ↔ Q x) as Hx by (apply Hl; left).
  destruct (decide (P x)) as [HP|HP], (decide (Q x)) as [HQ|HQ]; tauto.
Qed.

(** X12. Counts are between 0 and 8.  On a well-formed board
    [countAdjacentMines] completes with a number from 0 to 8 that does not
    depend on the cell itself; and in a board that [createBoard] returns
    every cell holds a count from 0 to 8, which is 0 on the mine cells. *)
Theorem counts_are_at_most_eight :
  (∀ R C b r c, wf_board R C b →
     ∃ n, countAdjacentMines b r c = Done n ∧ 0 ≤ n ≤ 8 ∧
          (0 ≤ r → 0 ≤ c →
           ∀ f, countAdjacentMines (update_cell b r c f) r c = Done n)) ∧
  (∀ rws cls mns rnd b p x,
     1 ≤ rws → 1 ≤ cls → 0 ≤ mns → Forall unit_interval rnd →
     createBoard rws cls mns rnd = Done b → cell_of b p = Some x →
     0 ≤ neighborMines x ≤ 8 ∧ (hasMine x = true → neighborMines x = 0)).
Proof.
  split.
  - intros R C b r c Hwf. exists (adjacent_mines b (r, c)).
    split; [by apply (countAdjacentMines_wf R C)|].
    split; [apply adjacent_mines_range|]. intros Hr Hc f.
    rewrite (countAdjacentMines_wf R C) by (by apply update_cell_wf).
    f_equal. unfold adjacent_mines. f_equal. f_equal.
    apply filter_ext_elem. intros q [Hne _]%elem_of_neighbors8.
    unfold mine_at. rewrite cell_of_update by done.
    by rewrite decide_False by done.
  - intros rws cls mns rnd b p x Hr Hc Hm Hrnd Hb Hx.
    pose proof (createBoard_cells rws cls mns rnd b p x Hr Hc Hm Hrnd Hb Hx) as H.
    destruct (hasMine x).
    + rewrite H. split; [lia|done].
    + destruct H as [b1 ->]. split; [apply adjacent_mines_range|done].
Qed.

Lemma counts_are_at_most_eight_witness :
  ∃ n, countAdjacentMines createSampleBoard 1 0 = Done n ∧ 0 ≤ n ≤ 8 ∧
       (0 ≤ 1 → 0 ≤ 0 →
        ∀ f, countAdjacentMines (update_cell createSampleBoard 1 0 f) 1 0 = Done n).
Proof.
  apply (proj1 counts_are_at_most_eight 3 3 createSampleBoard 1 0). compute_done.
Defined.

(** ** When the placement loop returns *)

(** X13. When [createBoard] returns.  For at least one row and column and
    a mine count from 0, it returns exactly when the numbers drawn hold
    [mines] distinct cells; with fewer the placement loop is still
    running when the numbers are used up. *)
Theorem createBoard_returns_iff rws cls mns rnd :
  1 ≤ rws → 1 ≤ cls → 0 ≤ mns → Forall unit_interval rnd →
  ((∃ b, createBoard rws cls mns rnd = Done b) ↔
   (Z.to_nat mns ≤ length (remove_dups (draws rws cls rnd)))%nat) ∧
  (createBoard rws cls mns rnd = Running ↔
   (length (remove_dups (draws rws cls rnd)) < Z.to_nat mns)%nat).
Proof.
  intros Hr Hc Hm Hrnd.
  destruct (emptyBoard_facts rws cls) as (Hwf0 & Hpr0 & Hcnt0 & Hfree); [lia..|].
  pose proof (createBoard_finish rws cls mns rnd) as Hfinish.
  pose proof (placeMines_needs_draws rws cls mns rnd) as Hneeds.
  pose proof (placeMines_done rws cls mns Hr Hc rnd) as Hdone.
  pose proof (placeMines_sound rws cls mns Hr Hc rnd) as Hsound.
  unfold createBoard. rewrite emptyBoard_spec. simpl.
  set (b0 := replicate (Z.to_nat rws)
               (replicate (Z.to_nat cls) (createCell false))) in *.
  specialize (Hdone b0 0 Hrnd Hwf0). specialize (Hsound b0 0 Hrnd Hwf0 Hcnt0 Hpr0).
  rewrite Z.sub_0_r, filter_all in Hdone by done.
  assert (Hiff : (∃ b1, placeMines rws cls mns rnd b0 0 = Done b1) ↔
    (Z.to_nat mns ≤ length (remove_dups (draws rws cls rnd)))%nat).
  { split; [|done]. intros [b1 Hb1].
    specialize (Hneeds b0 0 b1 Hr Hc Hrnd Hwf0 Hb1).
    by rewrite Z.sub_0_r, filter_all in Hneeds. }
  destruct (placeMines rws cls mns rnd b0 0) as [b1| |] eqn:Hp; simpl.
  - destruct (Hfinish b1) as (b & Hb & _); [done..|]. rewrite Hb.
    assert (Z.to_nat mns ≤ length (remove_dups (draws rws cls rnd)))%nat
      by (apply Hiff; eauto).
    split; split; eauto; (done || lia).
  - by destruct Hsound.
  - assert (¬ (Z.to_nat mns ≤ length (remove_dups (draws rws cls rnd)))%nat).
    { intros [b1 ?]%Hiff. done. }
    split; split; try done; try lia. by intros [].
Qed.

Lemma createBoard_returns_iff_witness :
  (∃ b, createBoard 1 10 2 [0; double_0_8; 0; double_below_0_9]%Q = Done b) ∧
  draws 1 10 [0; double_0_8; 0; double_below_0_9]%Q = [(0, 8); (0, 9)] ∧
  createBoard 1 2 2 [0; 0; 0; 0]%Q = Running ∧
  draws 1 2 [0; 0; 0; 0]%Q = [(0, 0); (0, 0)].
Proof.
  split; [|split; [reflexivity|split; [|reflexivity]]].
  - apply (proj1 (createBoard_returns_iff 1 10 2
                    [0; double_0_8; 0; double_below_0_9]%Q
                    ltac:(lia) ltac:(lia) ltac:(lia)
                    ltac:(repeat constructor; by vm_compute))).
    vm_compute. lia.
  - apply (proj2 (createBoard_returns_iff 1 2 2 [0; 0; 0; 0]%Q
                    ltac:(lia) ltac:(lia) ltac:(lia)
                    ltac:(repeat constructor; by vm_compute))).
    vm_compute. lia.
Defined.

(** ** Nothing to place, and nowhere to place it *)

Lemma board_ext R C (b b' : Board) :
  wf_board R C b → wf_board R C b' →
  (∀ p, cell_of b p = cell_of b' p) → b = b'.
Proof.
  intros (HR & _ & HC) (HR' & _ & HC') Heq.
  apply (list_eq_same_length _ _ (Z.to_nat R)); [lia..|].
  intros i row row' Hi Hrow Hrow'.
  rewrite list.Forall_forall in HC, HC'.
  pose proof (HC _ (list_elem_of_lookup_2 _ _ _ Hrow)) as Hl.
  pose proof (HC' _ (list_elem_of_lookup_2 _ _ _ Hrow')) as Hl'.
  apply (list_eq_same_length _ _ (Z.to_nat C)); [lia..|].
  intros j y y' Hj Hy Hy'.
  assert (cell_of b (Z.of_nat i, Z.of_nat j) = Some y) as H1.
  { apply board_get_Some. simpl. rewrite !Nat2Z.id. repeat split; eauto; lia. }
  assert (cell_of b' (Z.of_nat i, Z.of_nat j) = Some y') as H2.
  { apply board_get_Some. simpl. rewrite !Nat2Z.id. repeat split; eauto; lia. }
  rewrite Heq in H1. congruence.
Qed.

(** X14. With nothing to place, the generator draws nothing: for a mine
    count of 0 or less, [createBoard] returns the board of closed
    mine-free cells with count 0, whatever the random source holds, even
    nothing. *)
Theorem createBoard_without_mines rws cls mns rnd :
  0 ≤ rws → 0 ≤ cls → mns ≤ 0 →
  createBoard rws cls mns rnd
  = Done (replicate (Z.to_nat rws) (replicate (Z.to_nat cls) (createCell false))).
Proof.
  intros Hr Hc Hm. unfold createBoard. rewrite emptyBoard_spec. simpl.
  destruct (emptyBoard_facts rws cls Hr Hc) as (Hwf0 & Hpr0 & _ & Hfree).
  set (b0 := replicate (Z.to_nat rws)
               (replicate (Z.to_nat cls) (createCell false))) in *.
  assert (placeMines rws cls mns rnd b0 0 = Done b0) as ->.
  { destruct rnd as [|u [|v rnd]]; simpl;
      by replace (0 <? mns) with false by (symmetry; apply Z.ltb_ge; lia). }
  simpl.
  destruct (countNeighbors_spec rws cls b0 Hwf0) as (b & -> & Hwf & _ & _ & Hcells).
  f_equal. apply (board_ext rws cls); [done..|]. intros p. rewrite Hcells.
  destruct (cell_of b0 p) as [x|] eqn:Hx; [|done]. simpl. f_equal.
  assert (pristine x ∧ hasMine x = false) as [[_ Hn] ->].
  { assert (x ∈ concat b0) as Hin by (apply elem_of_concat_cell; eauto).
    clear Hx. revert x Hin. apply list.Forall_forall.
    by apply concat_replicate_Forall. }
  assert (adjacent_mines b0 p = 0) as ->.
  { unfold adjacent_mines.
    rewrite (filter_ext_elem _ (λ _, False)); [|by intros q _; rewrite Hfree].
    by induction (neighbors8 p). }
  destruct x; simpl in *; by subst.
Qed.

Lemma createBoard_without_mines_witness :
  createBoard 2 3 (-1) []
  = Done (replicate (Z.to_nat 2) (replicate (Z.to_nat 3) (createCell false))).
Proof. apply (createBoard_without_mines 2 3 (-1) []); lia. Defined.

Lemma board_get_no_cells (rws cls : Z) x r c :
  rws ≤ 0 ∨ cls ≤ 0 →
  board_get (replicate (Z.to_nat rws) (replicate (Z.to_nat cls) x)) r c = None.
Proof.
  intros H. destruct (board_get _ r c) as [y|] eqn:E; [|done].
  apply board_get_Some in E as (_ & _ & row & Hrow & Hy).
  apply lookup_replicate in Hrow as [-> Hlt].
  apply lookup_replicate in Hy as [_ Hlt']. lia.
Qed.

(** X15. A board without rows or without columns cannot take a mine: for
    a row or column count of 0 or less and at least one mine requested,
    the first placement round reads a cell that does not exist, and
    [createBoard] and [createGame] throw. *)
Theorem createBoard_on_empty_grid_throws rws cls mns u v rnd :
  rws ≤ 0 ∨ cls ≤ 0 → 1 ≤ mns →
  createBoard rws cls mns (u :: v :: rnd) = Throws ∧
  createGame rws cls mns (u :: v :: rnd) = Throws.
Proof.
  intros Hdim Hm.
  assert (createBoard rws cls mns (u :: v :: rnd) = Throws) as Hb.
  { unfold createBoard. rewrite emptyBoard_spec. simpl.
    replace (0 <? mns) with true by (symmetry; apply Z.ltb_lt; lia).
    unfold read_cell. by rewrite board_get_no_cells. }
  split; [done|]. unfold createGame. by rewrite Hb.
Qed.

Lemma createBoard_on_empty_grid_throws_witness :
  createBoard 0 5 1 [0; 0]%Q = Throws ∧ createGame 0 5 1 [0; 0]%Q = Throws.
Proof. apply (createBoard_on_empty_grid_throws 0 5 1); lia. Defined.

(** * Rendering and input *)

(** ** The appearance of a cell *)

Lemma round53_small z : Z.abs z < 2 ^ 53 → round53 z = z.
Proof.
  intros Hz. unfold round53.
  replace (Z.log2 (Z.abs z) - 52 <=? 0) with true; [done|].
  symmetry. apply Z.leb_le.
  destruct (decide (Z.abs z = 0)) as [->|Hne]; [done|].
  assert (Z.log2 (Z.abs z) < 53); [|lia].
  apply Z.log2_lt_pow2; lia.
Qed.

Lemma js_Number_String z :
  Z.abs z < 2 ^ 53 → js_Number (Some (js_String z)) = Some z.
Proof.
  intros Hz. unfold js_Number, js_String. simpl. rewrite NilZero.isi.
  - rewrite DecimalZ.of_to, round53_small by done. unfold finite_integer.
    replace (Z.abs z <? 2 ^ 1024) with true; [done|].
    symmetry. apply Z.ltb_lt.
    eapply Z.lt_trans; [exact Hz|]. by apply Z.pow_lt_mono_r.
  - destruct z as [|p|p]; simpl; try discriminate.
    intros [= H]. by apply DecimalPos.Unsigned.to_uint_nonnil in H.
  - destruct z as [|p|p]; simpl; try discriminate.
    intros [= H]. by apply DecimalPos.Unsigned.to_uint_nonnil in H.
Qed.

(** X16. What a cell looks like.  [applyCellAppearance] throws exactly on
    an open mine-free cell with a count above 8 (the class token for the
    number is then empty); otherwise it completes, and a cell that is not
    open looks the same whatever mine or count it holds.  An open cell
    with a count from 1 to 8 shows that count, with its number class. *)
Theorem appearance_hides_unopened_cells el x :
  (applyCellAppearance el x = Throws ↔
   state x = Open ∧ hasMine x = false ∧ 8 < neighborMines x) ∧
  (state x ≠ Open →
   ∀ y, state y = state x →
        applyCellAppearance el y = applyCellAppearance el x ∧
        ∃ shown, applyCellAppearance el x = Done shown) ∧
  (state x = Open → hasMine x = false → 1 ≤ neighborMines x ≤ 8 →
   ∃ shown, applyCellAppearance el x = Done shown ∧
            js_Number (Some (textContent shown)) = Some (neighborMines x) ∧
            numberClassFor (neighborMines x) ∈ className shown).
Proof.
  split; [|split].
  - split.
    + intros H. destruct (decide (showable x)) as [Hs|Hs].
      { by rewrite applyCellAppearance_showable in H. }
      unfold showable in Hs.
      destruct (decide (state x = Open)) as [Ho|Ho]; [|by destruct Hs].
      destruct (hasMine x) eqn:Hm; [by destruct Hs|].
      split; [done|]. split; [done|]. apply Z.nle_gt. intros Hle. by apply Hs.
    + intros (Ho & Hm & Hn). unfold applyCellAppearance.
      rewrite Ho, Hm. simpl.
      replace (0 <? neighborMines x) with true by (symmetry; apply Z.ltb_lt; lia).
      unfold numberClassFor.
      replace ((1 <=? neighborMines x) && (neighborMines x <=? 8)) with false
        by (symmetry; apply andb_false_iff; right; apply Z.leb_gt; lia).
      done.
  - intros Ho y Hy.
    rewrite !applyCellAppearance_showable by (unfold showable; congruence).
    split; [|eauto]. unfold shown_class, shown_text. rewrite Hy.
    by destruct (state x).
  - intros Ho Hm Hn.
    rewrite applyCellAppearance_showable by (unfold showable; lia).
    eexists. split; [done|]. unfold shown_class, shown_text. simpl.
    rewrite Ho, Hm. simpl.
    replace (0 <? neighborMines x) with true by (symmetry; apply Z.ltb_lt; lia).
    split; [apply js_Number_String; lia|]. unfold numberClassFor.
    replace ((1 <=? neighborMines x) && (neighborMines x <=? 8)) with true
      by (symmetry; apply andb_true_iff; lia).
    right. left.
Qed.

Lemma appearance_hides_unopened_cells_witness :
  applyCellAppearance (mkElement [] "" None None) (mkCell false 9 Open) = Throws.
Proof.
  apply (proj1 (appearance_hides_unopened_cells (mkElement [] "" None None)
                  (mkCell false 9 Open))).
  simpl. repeat split; lia.
Defined.

(** ** The rendered field *)

Lemma elem_of_field_of g target :
  wf_game g → target ∈ concat (field_of g) →
  ∃ r c x, 0 ≤ r < rows g ∧ 0 ≤ c < cols g ∧
           cell_of (board g) (r, c) = Some x ∧ target = cell_element r c x.
Proof.
  intros Hwf. rewrite list_elem_of_In, in_concat.
  intros (row & Hrow%list_elem_of_In & Ht%list_elem_of_In). unfold field_of in Hrow.
  apply list_elem_of_fmap in Hrow as (r & -> & Hr%elem_of_seqZ).
  apply list_elem_of_fmap in Ht as (c & -> & Hc%elem_of_seqZ).
  destruct (read_cell_wf _ _ _ r c Hwf) as (x & Hx & _); [lia..|].
  exists r, c, x. unfold cell_of. simpl. rewrite Hx. simpl.
  repeat split; (done || lia).
Qed.

Lemma cellMouseDown_cell_element w r c x button :
  0 ≤ r < 2 ^ 53 → 0 ≤ c < 2 ^ 53 →
  cellMouseDown w (cell_element r c x) button
  = if button =? 2 then toggleFlag w r c
    else if button =? 0 then openCell w r c else Done w.
Proof.
  intros Hr Hc. unfold cellMouseDown.
  change (dataset_r (cell_element r c x)) with (Some (js_String r)).
  change (dataset_c (cell_element r c x)) with (Some (js_String c)).
  rewrite !js_Number_String by lia.
  change (className (cell_element r c x)) with (shown_class x).
  rewrite bool_decide_eq_true_2; [done|].
  unfold shown_class. destruct (state x); [left|..|left].
  destruct (hasMine x); [left|]. destruct (0 <? _); left.
Qed.

(** X17. The page only ever sends clicks that are on the board.  On a
    well-formed game that the page can show (no mine-free cell holds a
    count above 8) and whose sizes are integers that a number holds
    exactly, [renderBoard] builds one element per cell, row by row, each
    carrying its own row and column; a [mousedown] on any of them calls
    [toggleFlag] (right button) or [openCell] (left button) with exactly
    these coordinates, which lie on the board, and so never throws. *)
Theorem rendered_cells_send_valid_clicks w :
  wf_game (game w) → displayable (game w) →
  rows (game w) ≤ 2 ^ 53 → cols (game w) ≤ 2 ^ 53 →
  ∃ field, renderField (game w) = Done field ∧
    Z.of_nat (length field) = rows (game w) ∧
    Forall (λ row, Z.of_nat (length row) = cols (game w)) field ∧
    ∀ target, target ∈ concat field →
      ∃ r c x, 0 ≤ r < rows (game w) ∧ 0 ≤ c < cols (game w) ∧
               cell_of (board (game w)) (r, c) = Some x ∧
               target = cell_element r c x ∧
               ∀ button,
                 cellMouseDown w target button
                 = (if button =? 2 then toggleFlag w r c
                    else if button =? 0 then openCell w r c else Done w) ∧
                 ∃ w', cellMouseDown w target button = Done w'.
Proof.
  intros Hwf Hd HRmax HCmax. exists (field_of (game w)).
  split; [apply renderField_wf; [done|]; intros p x;
          by apply displayable_showable|].
  pose proof Hwf as (HR & HC & _).
  split; [unfold field_of; rewrite length_fmap, length_seqZ; lia|]. split.
  - unfold field_of. apply list.Forall_forall. intros row (r & -> & _)%list_elem_of_fmap.
    rewrite length_fmap, length_seqZ. lia.
  - intros target (r & c & x & Hr & Hc & Hx & ->)%elem_of_field_of; [|done].
    exists r, c, x. repeat (split; [done|]). intros button.
    pose proof (cellMouseDown_cell_element w r c x button
                  ltac:(lia) ltac:(lia)) as Heq.
    split; [done|]. rewrite Heq.
    destruct (button =? 2).
    { by apply (do_click_completes w (RightClick r c)). }
    destruct (button =? 0); [|eauto].
    by apply (do_click_completes w (LeftClick r c)).
Qed.

Lemma rendered_cells_send_valid_clicks_witness :
  ∃ field, renderField sampleGame = Done field ∧
    concat field !! 5%nat
      = Some (mkElement ["cell"%string] "" (Some "1"%string) (Some "2"%string)) ∧
    cellMouseDown (world0 sampleGame)
      (mkElement ["cell"%string] "" (Some "1"%string) (Some "2"%string)) 2
      = toggleFlag (world0 sampleGame) 1 2 ∧
    Z.of_nat (length field) = 3 ∧
    Forall (λ row, Z.of_nat (length row) = 3) field ∧
    ∀ target, target ∈ concat field →
      ∃ r c x, 0 ≤ r < 3 ∧ 0 ≤ c < 3 ∧
               cell_of (board sampleGame) (r, c) = Some x ∧
               target = cell_element r c x ∧
               ∀ button,
                 cellMouseDown (world0 sampleGame) target button
                 = (if button =? 2 then toggleFlag (world0 sampleGame) r c
                    else if button =? 0 then openCell (world0 sampleGame) r c
                    else Done (world0 sampleGame)) ∧
                 ∃ w', cellMouseDown (world0 sampleGame) target button = Done w'.
Proof.
  destruct (rendered_cells_send_valid_clicks (world0 sampleGame))
    as (field & Hf & Hrest); [compute_done|compute_done|done|done|].
  exists field. split; [exact Hf|].
  split; [|split; [reflexivity|exact Hrest]].
  vm_compute in Hf. by injection Hf as <-.
Defined.

(** X18. The page does not give the mines away.  Two well-formed games of
    the same size whose cells have the same states, and the same contents
    where they are open, are rendered to the same field, whatever the
    closed and flagged cells hide. *)
Theorem rendering_shows_only_opened_cells g1 g2 :
  wf_game g1 → wf_game g2 → rows g1 = rows g2 → cols g1 = cols g2 →
  (∀ p x, cell_of (board g1) p = Some x → showable x) →
  (∀ p x1 x2, cell_of (board g1) p = Some x1 → cell_of (board g2) p = Some x2 →
              state x1 = state x2 ∧ (state x1 = Open → x1 = x2)) →
  ∃ field, renderField g1 = Done field ∧ renderField g2 = Done field.
Proof.
  intros Hwf1 Hwf2 HR HC Hshow Hsame.
  assert (Hshow2 : ∀ p x, cell_of (board g2) p = Some x → showable x).
  { intros p x2 Hx2.
    destruct (proj2 (cell_of_wf_iff (rows g1) (cols g1) _ _ p Hwf1
      ltac:(unfold wf_game in Hwf2; by rewrite HR, HC))) as [x1 Hx1]; [eauto|].
    destruct (Hsame p x1 x2 Hx1 Hx2) as [Hst Heq]. intros Ho.
    rewrite <- Heq by congruence. apply (Hshow p x1 Hx1). congruence. }
  exists (field_of g1). split; [by apply renderField_wf|].
  rewrite renderField_wf by done. f_equal. unfold field_of. rewrite <- HR, <- HC.
  apply list_fmap_ext. intros i r Hr%list_elem_of_lookup_2%elem_of_seqZ.
  apply list_fmap_ext. intros j c Hc%list_elem_of_lookup_2%elem_of_seqZ.
  destruct (read_cell_wf _ _ _ r c Hwf1) as (x1 & Hx1 & _); [lia..|].
  destruct (read_cell_wf _ _ _ r c Hwf2) as (x2 & Hx2 & _); [lia..|].
  unfold cell_of. simpl. rewrite Hx1, Hx2. simpl.
  destruct (Hsame (r, c) x1 x2 Hx1 Hx2) as [Hst Heq].
  destruct (decide (state x1 = Open)) as [Ho|Ho]; [by rewrite Heq|].
  unfold cell_element, shown_class, shown_text. rewrite <- Hst.
  by destruct (state x1).
Qed.

Lemma rendering_shows_only_opened_cells_witness :
  ∃ field,
    renderField sampleGame = Done field ∧
    renderField (mkGame 3 3 0 InProgress
                   (replicate 3 (replicate 3 (mkCell false 0 Closed))))
    = Done field.
Proof.
  apply rendering_shows_only_opened_cells;
    [compute_done|compute_done|reflexivity|reflexivity| |].
  - apply all_cells. repeat constructor; unfold showable; simpl; (lia || done).
  - intros p x1 x2 Hx1 Hx2.
    apply (all_cells (λ x, state x = Closed)) in Hx1; [|by repeat constructor].
    apply (all_cells (λ x, state x = Closed)) in Hx2; [|by repeat constructor].
    split; congruence.
Defined.

(** ** The clock text *)

Lemma formatTime_table :
  forallb (λ t,
    String.eqb (formatTime t)
      (String (digit_char (t / 600)) (String (digit_char (t / 60 mod 10))
        (String ":" (String (digit_char (t mod 60 / 10))
          (String (digit_char (t mod 60 mod 10)) EmptyString)))))
    && bool_decide (parseTime (formatTime t) = Some t))
    (seqZ 0 6000) = true.
Proof. vm_compute. reflexivity. Qed.

(** X19. Below a hundred minutes the clock text is [MM:SS]: for a number
    of seconds from 0 to 5999, [formatTime] gives five characters, two
    digits of minutes, a colon and two digits of seconds below 60; the
    text reads back to the number of seconds, so different times give
    different texts. *)
Theorem formatTime_is_MM_SS t :
  0 ≤ t < 6000 →
  formatTime t
  = String (digit_char (t / 600)) (String (digit_char (t / 60 mod 10))
      (String ":" (String (digit_char (t mod 60 / 10))
        (String (digit_char (t mod 60 mod 10)) EmptyString)))) ∧
  parseTime (formatTime t) = Some t ∧
  ∀ t', 0 ≤ t' < 6000 → formatTime t' = formatTime t → t' = t.
Proof.
  assert (Hall : ∀ t, 0 ≤ t < 6000 →
    formatTime t
    = String (digit_char (t / 600)) (String (digit_char (t / 60 mod 10))
        (String ":" (String (digit_char (t mod 60 / 10))
          (String (digit_char (t mod 60 mod 10)) EmptyString)))) ∧
    parseTime (formatTime t) = Some t).
  { intros t0 Ht0. pose proof formatTime_table as H.
    rewrite forallb_forall in H. specialize (H t0).
    apply andb_true_iff in H as [H1 H2].
    - apply String.eqb_eq in H1. by apply bool_decide_eq_true in H2.
    - apply list_elem_of_In, elem_of_seqZ. lia. }
  intros Ht. destruct (Hall t Ht) as [Hshape Hparse].
  split; [done|]. split; [done|]. intros t' Ht' Heq.
  destruct (Hall t' Ht') as [_ Hparse']. rewrite Heq in Hparse'. congruence.
Qed.

Lemma formatTime_is_MM_SS_witness :
  formatTime 754
  = String (digit_char (754 / 600)) (String (digit_char (754 / 60 mod 10))
      (String ":" (String (digit_char (754 mod 60 / 10))
        (String (digit_char (754 mod 60 mod 10)) EmptyString)))) ∧
  parseTime (formatTime 754) = Some 754 ∧
  ∀ t', 0 ≤ t' < 6000 → formatTime t' = formatTime 754 → t' = 754.
Proof. apply (formatTime_is_MM_SS 754). lia. Defined.

(** ** Starting a game *)

Lemma createGame_returns rws cls mns rnd :
  1 ≤ rws → 1 ≤ cls → 0 ≤ mns → Forall unit_interval rnd →
  (Z.to_nat mns ≤ length (remove_dups (draws rws cls rnd)))%nat →
  ∃ b, createGame rws cls mns rnd = Done (mkGame rws cls mns InProgress b) ∧
       wf_board rws cls b ∧ count_cells hasMine b = mns ∧
       (∀ p x, cell_of b p = Some x → state x = Closed) ∧
       (∀ p x, cell_of b p = Some x → hasMine x = false →
               neighborMines x = adjacent_mines b p).
Proof.
  intros Hr Hc Hm Hrnd Hlen. unfold createGame, createBoard.
  rewrite emptyBoard_spec. simpl.
  destruct (emptyBoard_facts rws cls) as (Hwf0 & _ & _ & Hfree); [lia..|].
  destruct (placeMines_done rws cls mns Hr Hc rnd _ 0 Hrnd Hwf0) as [b1 Hb1].
  { by rewrite Z.sub_0_r, filter_all. }
  destruct (createBoard_finish rws cls mns rnd b1) as (b & Hb & H); [done..|].
  rewrite Hb1. simpl. rewrite Hb. simpl. eauto.
Qed.

Lemma count_flagged_closed (b : Board) :
  (∀ p x, cell_of b p = Some x → state x = Closed) →
  count_cells is_flagged b = 0.
Proof.
  intros H. apply count_cells_zero. intros p x Hx.
  unfold is_flagged. by rewrite (H p x Hx).
Qed.

(** X20. [initGame] starts over.  Whatever the world was, once the draws
    hold fifteen distinct cells [initGame] leaves a well-formed 9 by 10
    game in progress with exactly 15 mines, every cell closed and every
    count right, no first click recorded, the timer stopped and the mines
    counter at 15; so the timer and counter bookkeeping holds.  The
    seconds counted so far are not reset. *)
Theorem initGame_starts_over w rnd :
  Forall unit_interval rnd →
  (15 ≤ length (remove_dups (draws 9 10 rnd)))%nat →
  ∃ w', initGame w rnd = Done w' ∧
        rows (game w') = 9 ∧ cols (game w') = 10 ∧ mines (game w') = 15 ∧
        wf_game (game w') ∧ fresh (game w') ∧
        count_cells hasMine (board (game w')) = 15 ∧
        (∀ p x, cell_of (board (game w')) p = Some x → hasMine x = false →
                neighborMines x = adjacent_mines (board (game w')) p) ∧
        firstClickHappened w' = false ∧ timerIntervalId w' = false ∧
        minesCounterText w' = 15 ∧ elapsedSeconds w' = elapsedSeconds w ∧
        timer_ok w' ∧ counter_ok w'.
Proof.
  intros Hrnd Hlen.
  destruct (createGame_returns 9 10 15 rnd) as (b & Hg & Hwf & Hcnt & Hcl & Hn);
    [lia..|done|done|].
  unfold initGame. rewrite Hg. simpl. unfold updateMinesCounter. simpl.
  rewrite getFlagCount_wf by done. simpl.
  rewrite (count_flagged_closed b Hcl). simpl.
  rewrite renderBoard_wf; [|done|].
  2:{ apply list.Forall_forall. intros y (p & Hy)%elem_of_concat_cell Hmy.
      simpl in Hy. rewrite (Hn p y Hy Hmy).
      apply adjacent_mines_range. }
  simpl.
  eexists. split; [done|]. simpl. repeat (split; [done|]).
  intros _. simpl. unfold remaining_mines. simpl.
  by rewrite (count_flagged_closed b Hcl).
Qed.

Lemma initGame_starts_over_witness :
  ∃ w', initGame (world0 sampleGame) first_cells_rnd = Done w' ∧
        rows (game w') = 9 ∧ cols (game w') = 10 ∧ mines (game w') = 15 ∧
        wf_game (game w') ∧ fresh (game w') ∧
        count_cells hasMine (board (game w')) = 15 ∧
        (∀ p x, cell_of (board (game w')) p = Some x → hasMine x = false →
                neighborMines x = adjacent_mines (board (game w')) p) ∧
        firstClickHappened w' = false ∧ timerIntervalId w' = false ∧
        minesCounterText w' = 15 ∧
        elapsedSeconds w' = elapsedSeconds (world0 sampleGame) ∧
        timer_ok w' ∧ counter_ok w'.
Proof.
  apply (initGame_starts_over (world0 sampleGame) first_cells_rnd).
  - repeat constructor; by vm_compute.
  - vm_compute. lia.
Defined.

(** ** The fixture *)

(** X21. The fixture is not a board of the generator.  [createSampleBoard]
    is a well-formed 3 by 3 board with the three mines [sampleGame]
    records and every cell closed, but its stored counts are not the
    ones [countAdjacentMines] computes: cell (2, 0) stores 0 although
    the mine at (1, 1) touches it, and the second pass of [createBoard]
    would rewrite the counts of five cells.  Hence no call of
    [createBoard] or [createGame] on a valid size returns it. *)
Theorem createSampleBoard_is_not_generated rws cls mns rnd :
  1 ≤ rws → 1 ≤ cls → 0 ≤ mns → Forall unit_interval rnd →
  createBoard rws cls mns rnd ≠ Done createSampleBoard ∧
  createGame rws cls mns rnd ≠ Done sampleGame ∧
  wf_game sampleGame ∧ fresh sampleGame ∧
  count_cells hasMine createSampleBoard = mines sampleGame ∧
  cell_of createSampleBoard (2, 0) = Some (mkCell false 0 Closed) ∧
  countAdjacentMines createSampleBoard 2 0 = Done 1 ∧
  countNeighbors 3 3 createSampleBoard
  = Done [ [mkCell false 2 Closed; mkCell true 0 Closed; mkCell false 3 Closed];
           [mkCell false 2 Closed; mkCell true 0 Closed; mkCell true 0 Closed];
           [mkCell false 1 Closed; mkCell false 2 Closed; mkCell false 2 Closed] ].
Proof.
  intros Hr Hc Hm Hrnd.
  assert (createBoard rws cls mns rnd ≠ Done createSampleBoard) as Hb.
  { intros Hb. unfold createBoard in Hb. rewrite emptyBoard_spec in Hb.
    simpl in Hb. apply bind_Done in Hb as (b1 & Hb1 & Hb).
    destruct (createBoard_finish rws cls mns rnd b1)
      as (b & Hb' & _ & _ & _ & Hn); [done..|].
    simpl in Hb. rewrite Hb' in Hb. injection Hb as ->.
    specialize (Hn (2, 0) (mkCell false 0 Closed) eq_refl eq_refl).
    vm_compute in Hn. done. }
  split; [done|]. split.
  { intros Hg. unfold createGame in Hg.
    apply bind_Done in Hg as (b & Hb' & Hg). apply Hb.
    rewrite Hb'. simpl in Hg. by injection Hg as _ _ _ ->. }
  split; [compute_done|]. split.
  { split; [done|]. intros [r c] x Hx.
    assert (x ∈ concat createSampleBoard) as Hin
      by (apply elem_of_concat_cell; eauto).
    clear Hx. revert x Hin. apply list.Forall_forall.
    repeat constructor. }
  done.
Qed.

Lemma createSampleBoard_is_not_generated_witness :
  createBoard 3 3 3 first_cells_rnd ≠ Done createSampleBoard ∧
  createGame 3 3 3 first_cells_rnd ≠ Done sampleGame ∧
  wf_game sampleGame ∧ fresh sampleGame ∧
  count_cells hasMine createSampleBoard = mines sampleGame ∧
  cell_of createSampleBoard (2, 0) = Some (mkCell false 0 Closed) ∧
  countAdjacentMines createSampleBoard 2 0 = Done 1 ∧
  countNeighbors 3 3 createSampleBoard
  = Done [ [mkCell false 2 Closed; mkCell true 0 Closed; mkCell false 3 Closed];
           [mkCell false 2 Closed; mkCell true 0 Closed; mkCell true 0 Closed];
           [mkCell false 1 Closed; mkCell false 2 Closed; mkCell false 2 Closed] ].
Proof.
  apply (createSampleBoard_is_not_generated 3 3 3 first_cells_rnd);
    [lia | lia | lia |].
  repeat constructor; by vm_compute.
Defined.

(** ** Detection of the win *)

(** Two boards that agree on which mine-free cells are open. *)
Lemma cleared_ext R C (b b' : Board) g g' :
  board g = b → board g' = b' → wf_board R C b → wf_board R C b' →
  (∀ p y, cell_of b p = Some y →
          ∃ y', cell_of b' p = Some y' ∧ hasMine y' = hasMine y ∧
                (hasMine y = false → state y' = Open ↔ state y = Open)) →
  cleared g ↔ cleared g'.
Proof.
  intros <- <- Hwf Hwf' H. unfold cleared. split.
  - intros [(p & x & Hx & Hm & Ho) Hall]. split.
    + destruct (H p x Hx) as (y' & Hy' & Hm' & Ho').
      exists p, y'. split; [done|]. split; [congruence|]. by apply Ho'.
    + intros q y' Hy' Hm'.
      destruct (proj2 (cell_of_wf_iff _ _ _ _ q Hwf Hwf')) as [y Hy]; [eauto|].
      destruct (H q y Hy) as (y'' & Hy'' & Hm'' & Ho'').
      rewrite Hy' in Hy''. injection Hy'' as <-.
      apply Ho''; [congruence|]. apply (Hall q y Hy). congruence.
  - intros [(p & x' & Hx' & Hm' & Ho') Hall]. split.
    + destruct (proj2 (cell_of_wf_iff _ _ _ _ p Hwf Hwf')) as [y Hy]; [eauto|].
      destruct (H p y Hy) as (y'' & Hy'' & Hm'' & Ho'').
      rewrite Hx' in Hy''. injection Hy'' as <-.
      exists p, y. split; [done|]. split; [congruence|].
      apply Ho''; [congruence|done].
    + intros q y Hy Hm.
      destruct (H q y Hy) as (y' & Hy' & Hm'' & Ho'').
      apply Ho''; [done|]. apply (Hall q y' Hy'). congruence.
Qed.

Lemma do_click_win_detected w a w' :
  wf_game (game w) → win_detected (game w) → do_click w a = Done w' →
  win_detected (game w').
Proof.
  intros Hwf Hdet Ha. destruct a as [r c|r c]; simpl in Ha.
  - destruct (cell_of (board (game w)) (r, c)) as [x|] eqn:Hx.
    2:{ destruct (decide (status (game w) = InProgress)) as [Hs|Hs].
        - by rewrite openCell_no_cell in Ha.
        - rewrite openCell_terminal in Ha by done. by simplify_eq. }
    destruct (openCell_cases w r c x Hwf Hx)
      as [[Ho _]|[(Hs & _ & _ & g' & Ho & Hwf' & Hs' & Hr' & Hc' & _ & Hcells)
                 |(Hs & _ & Hmx & b' & Ho & Hwf' & Hrc & Hcells)]];
      rewrite Ho in Ha; try apply rendered_Done in Ha; simplify_eq; [done| |].
    + (* lost: the mine-free cells are as they were *)
      change (win_detected g'). unfold win_detected in *.
      unfold wf_game in Hwf'. rewrite Hr', Hc' in Hwf'.
      rewrite <- (cleared_ext _ _ _ _ (game w) g' eq_refl eq_refl Hwf Hwf').
      * rewrite Hs', <- Hdet, Hs. done.
      * intros p y Hy. exists (reveal y). split; [by apply Hcells|].
        unfold reveal. by destruct (hasMine y) eqn:E.
    + destruct (status_after_open w b' Hs) as (Hw & _ & Hb).
      unfold win_detected, cleared. rewrite Hw, Hb, unopened_safe_zero.
      split; [|by intros [_ ?]]. intros Hall. split; [|done].
      exists (r, c), (set_state Open x). done.
  - destruct (decide (status (game w) = InProgress)) as [Hs|Hs];
      [|rewrite toggleFlag_terminal in Ha by done; by simplify_eq].
    destruct (toggleFlag_cellwise w r c w' Hwf Ha) as (Hwf' & Hr & Hc & _ & Hcells).
    pose proof (toggleFlag_status w r c w' Ha) as Hst.
    unfold win_detected in *. unfold wf_game in Hwf'. rewrite Hr, Hc in Hwf'.
    rewrite <- (cleared_ext _ _ _ _ (game w) (game w') eq_refl eq_refl Hwf Hwf').
    + by rewrite Hst.
    + intros p y Hy. destruct (Hcells p y Hy) as (y' & Hy' & [Hm _] & Hch).
      exists y'. split; [done|]. split; [done|]. intros _.
      destruct Hch as [->|(_ & Hno & ->)]; [done|].
      destruct y as [m n []]; simpl in *; done.
Qed.

(** X22. The win is detected exactly.  From a game nobody has played on
    and that the page can show, whatever is clicked on the board, the
    status is [Win] if and only if some mine-free cell is open and no
    mine-free cell is left unopened.  So a game never stays in progress,
    and is never lost, with the last mine-free cell open; and a game is
    never won before a cell was opened. *)
Theorem win_is_detected w clicks :
  wf_game (game w) → displayable (game w) → fresh (game w) →
  Forall (click_on_board (game w)) clicks →
  ∃ w', play w clicks = Done w' ∧
        (status (game w') = Win ↔ cleared (game w')).
Proof.
  intros Hwf Hd [Hs Hcl] Hon.
  destruct (play_invariant (λ w', win_detected (game w'))) with clicks w
    as (w' & Hw' & _ & Hdet); eauto using do_click_win_detected.
  unfold win_detected. rewrite Hs. split; [done|].
  intros [(p & x & Hx & _ & Ho) _]. rewrite (Hcl p x Hx) in Ho. done.
Qed.

Lemma win_is_detected_witness :
  ∃ w', play (world0 sampleGame)
          [LeftClick 2 0; RightClick 1 1; LeftClick 0 0; LeftClick 0 2;
           LeftClick 2 2; LeftClick 1 1] = Done w' ∧
        status (game w') = Win ∧
        cell_of (board (game w')) (1, 1) = Some (mkCell true 0 Flagged) ∧
        (status (game w') = Win ↔ cleared (game w')).
Proof.
  destruct (win_is_detected (world0 sampleGame)
              [LeftClick 2 0; RightClick 1 1; LeftClick 0 0; LeftClick 0 2;
               LeftClick 2 2; LeftClick 1 1])
    as (w' & Hp & Hw); [compute_done|compute_done| | |].
  - apply fresh_of_Forall; [done|]. repeat constructor.
  - repeat constructor; simpl; lia.
  - exists w'. split; [exact Hp|].
    split; [|split; [|exact Hw]]; vm_compute in Hp; by injection Hp as <-.
Defined.

(** ** When rendering fails *)

(** X23. [renderBoard] fails exactly on a count above 8.  On a
    well-formed game, building the field throws if and only if some open
    mine-free cell holds a count above 8, for which [numberClassFor]
    gives the empty class; otherwise it completes with the elements of
    the cells, row by row. *)
Theorem renderField_throws_iff g :
  wf_game g →
  (renderField g = Throws ↔
   ∃ p x, cell_of (board g) p = Some x ∧ state x = Open ∧
          hasMine x = false ∧ 8 < neighborMines x) ∧
  (renderField g ≠ Throws → renderField g = Done (field_of g)).
Proof.
  intros Hwf.
  destruct (decide (Forall showable (concat (board g)))) as [Hall|Hsome].
  - rewrite (renderField_wf g Hwf (all_cells _ _ Hall)).
    split; [|done]. split; [done|].
    intros (p & x & Hx & Ho & Hm & Hn).
    pose proof (all_cells _ _ Hall p x Hx Ho Hm). lia.
  - apply not_Forall_Exists in Hsome; [|apply _].
    apply list.Exists_exists in Hsome as (x & Hin & Hx).
    apply elem_of_concat_cell in Hin as ([r c] & Hp).
    assert (unshowable x) as Hbad by (by destruct (showable_or_not x)).
    rewrite (renderField_unshowable g r c x Hwf Hp Hbad).
    split; [|done]. split; [|done]. intros _. exists (r, c), x. done.
Qed.

Lemma renderField_throws_iff_witness :
  (renderField (set_board sampleGame
                  (update_cell createSampleBoard 2 0
                     (λ _, mkCell false 9 Open))) = Throws ↔
   ∃ p x, cell_of (update_cell createSampleBoard 2 0
                     (λ _, mkCell false 9 Open)) p = Some x ∧
          state x = Open ∧ hasMine x = false ∧ 8 < neighborMines x) ∧
  (renderField (set_board sampleGame
                  (update_cell createSampleBoard 2 0
                     (λ _, mkCell false 9 Open))) ≠ Throws →
   renderField (set_board sampleGame
                  (update_cell createSampleBoard 2 0
                     (λ _, mkCell false 9 Open)))
   = Done (field_of (set_board sampleGame
                       (update_cell createSampleBoard 2 0
                          (λ _, mkCell false 9 Open))))).
Proof.
  apply (renderField_throws_iff
           (set_board sampleGame
              (update_cell createSampleBoard 2 0 (λ _, mkCell false 9 Open)))).
  compute_done.
Defined.

(** ** A generated game always renders *)

Lemma length_concat_rows {A : Type} (n : nat) (l : list (list A)) :
  Forall (λ row, length row = n) l →
  length (concat l) = (length l * n)%nat.
Proof.
  induction 1 as [|row l Hrow _ IH]; simpl; [done|].
  rewrite length_app, IH, Hrow. done.
Qed.

Lemma createGame_counts rws cls mns rnd g :
  1 ≤ rws → 1 ≤ cls → 0 ≤ mns → Forall unit_interval rnd →
  createGame rws cls mns rnd = Done g →
  wf_game g ∧ ∀ p x, cell_of (board g) p = Some x → neighborMines x ≤ 8.
Proof.
  intros Hr Hc Hm Hrnd Hg. unfold createGame in Hg.
  apply bind_Done in Hg as (b & Hb & Hg). injection Hg as <-. simpl.
  split.
  - unfold createBoard in Hb. rewrite emptyBoard_spec in Hb. simpl in Hb.
    apply bind_Done in Hb as (b1 & Hb1 & Hb).
    destruct (createBoard_finish rws cls mns rnd b1)
      as (b' & Hb' & Hwf & _); [done..|].
    simpl in Hb. rewrite Hb' in Hb. by injection Hb as <-.
  - intros p x Hx.
    pose proof (createBoard_cells rws cls mns rnd b p x Hr Hc Hm Hrnd Hb Hx) as H.
    destruct (hasMine x); [lia|]. destruct H as [b1 ->].
    apply adjacent_mines_range.
Qed.

(** X24. A generated game renders throughout a session.  Starting from
    a game that [createGame] returned for a valid size, whatever is
    clicked on the board, the session completes and [renderBoard] can
    build the field of the game reached: no cell ever holds a count
    without a number class. *)
Theorem generated_game_always_renders rws cls mns rnd w clicks :
  1 ≤ rws → 1 ≤ cls → 0 ≤ mns → Forall unit_interval rnd →
  createGame rws cls mns rnd = Done (game w) →
  Forall (click_on_board (game w)) clicks →
  ∃ w', play w clicks = Done w' ∧
        renderField (game w') = Done (field_of (game w')) ∧
        Z.of_nat (length (concat (field_of (game w')))) = rws * cls.
Proof.
  intros Hr Hc Hm Hrnd Hg Hon.
  destruct (createGame_counts rws cls mns rnd (game w)) as [Hwf Hn]; [done..|].
  assert (rows (game w) = rws ∧ cols (game w) = cls) as [HR HC].
  { unfold createGame in Hg. apply bind_Done in Hg as (b & _ & Hg).
    injection Hg as Hg. by rewrite <- Hg. }
  assert (Hd : displayable (game w)).
  { apply list.Forall_forall. intros y (p & Hy)%elem_of_concat_cell _.
    by apply (Hn p). }
  destruct (play_invariant (λ w',
    rows (game w') = rws ∧ cols (game w') = cls ∧
    ∀ p x, cell_of (board (game w')) p = Some x → neighborMines x ≤ 8))
    with clicks w as (w' & Hw' & Hwf' & HR' & HC' & Hn'); try done.
  - intros w1 a w2 Hwf1 (HR1 & HC1 & Hn1) Ha.
    assert (wf_game (game w2) ∧ rows (game w2) = rows (game w1) ∧
            cols (game w2) = cols (game w1) ∧
            ∀ p y, cell_of (board (game w1)) p = Some y →
                   ∃ y', cell_of (board (game w2)) p = Some y' ∧
                         same_layout y y') as (Hwf2 & HR2 & HC2 & Hcells).
    { destruct a as [r c|r c]; simpl in Ha.
      - destruct (openCell_cellwise w1 r c w2 Hwf1 Ha) as (? & ? & ? & _ & H).
        repeat (split; [done|]). intros p y Hy.
        destruct (H p y Hy) as (y' & ? & ? & _). eauto.
      - destruct (toggleFlag_cellwise w1 r c w2 Hwf1 Ha) as (? & ? & ? & _ & H).
        repeat (split; [done|]). intros p y Hy.
        destruct (H p y Hy) as (y' & ? & ? & _). eauto. }
    split; [congruence|]. split; [congruence|]. intros p y' Hy'.
    unfold wf_game in Hwf2. rewrite HR2, HC2 in Hwf2.
    destruct (proj2 (cell_of_wf_iff _ _ _ _ p Hwf1 Hwf2)) as [y Hy]; [eauto|].
    destruct (Hcells p y Hy) as (y'' & Hy'' & _ & Hsame).
    rewrite Hy' in Hy''. injection Hy'' as <-. rewrite Hsame. by apply (Hn1 p).
  - exists w'. split; [done|]. split.
    + apply renderField_wf; [done|]. intros p x Hx _ _. by apply (Hn' p).
    + unfold field_of. rewrite HR', HC'.
      rewrite (length_concat_rows (Z.to_nat cls)).
      * rewrite length_fmap, length_seqZ. lia.
      * apply list.Forall_forall. intros row (r & -> & _)%list_elem_of_fmap.
        by rewrite length_fmap, length_seqZ.
Qed.

Lemma generated_game_always_renders_witness :
  ∃ w', play (world0 first_row_game)
          [LeftClick 2 1; RightClick 0 0; LeftClick 0 1] = Done w' ∧
        renderField (game w') = Done (field_of (game w')) ∧
        Z.of_nat (length (concat (field_of (game w')))) = 3 * 3.
Proof.
  apply (generated_game_always_renders 3 3 3 first_cells_rnd
           (world0 first_row_game)); [lia|lia|lia| | |].
  - repeat constructor; by vm_compute.
  - vm_compute. reflexivity.
  - repeat constructor; simpl; lia.
Defined.

(** ** The index drawn and the exact product *)

Lemma Qfloor_times u n : Qfloor (u * inject_Z n) = (Qnum u * n) / Z.pos (Qden u).
Proof. unfold Qfloor, Qmult, inject_Z. simpl. by rewrite Pos.mul_1_r. Qed.

(** Rounding to 53 bits stays between the multiples of a power of two
    that a double of at most 53 bits holds. *)
Lemma round53_between a k f :
  0 ≤ k → 0 ≤ f < 2 ^ 53 → f * 2 ^ k ≤ a < (f + 1) * 2 ^ k →
  f * 2 ^ k ≤ round53 a ≤ (f + 1) * 2 ^ k.
Proof.
  intros Hk Hf Ha. unfold round53.
  assert (0 < 2 ^ k) as HD by (apply Z.pow_pos_nonneg; lia).
  destruct (Z.log2 (Z.abs a) - 52 <=? 0) eqn:E; [lia|].
  apply Z.leb_gt in E.
  assert (0 ≤ a) as Ha0 by nia.
  rewrite Z.abs_eq in * by done.
  assert (0 < a) as Hpos.
  { destruct (decide (a = 0)) as [->|]; [by vm_compute in E|lia]. }
  rewrite Z.sgn_pos, Z.mul_1_l by done.
  set (s := Z.log2 a - 52) in *.
  assert (s ≤ k) as Hsk.
  { destruct (decide (s ≤ k)) as [|Hgt]; [done|]. exfalso.
    assert (2 ^ (k + 53) ≤ a).
    { transitivity (2 ^ Z.log2 a); [apply Z.pow_le_mono_r; lia|].
      apply Z.log2_spec. lia. }
    rewrite Z.pow_add_r in * by lia. nia. }
  assert (0 < 2 ^ s) as Hs by (apply Z.pow_pos_nonneg; lia).
  assert (2 ^ k = 2 ^ (k - s) * 2 ^ s) as HDs.
  { rewrite <- Z.pow_add_r by lia. f_equal. lia. }
  assert (0 < 2 ^ (k - s)) by (apply Z.pow_pos_nonneg; lia).
  pose proof (Z.div_mod a (2 ^ s) ltac:(lia)) as Hdm.
  pose proof (Z.mod_pos_bound a (2 ^ s) ltac:(lia)) as Hr.
  set (q := a / 2 ^ s) in *. set (r := a mod 2 ^ s) in *.
  set (e := 2 ^ (k - s)) in *. set (t := 2 ^ s) in *.
  rewrite HDs in Ha |- *. clearbody q r e t.
  assert (f * e ≤ q) by nia. assert (q + 1 ≤ (f + 1) * e) by nia.
  destruct (_ || _); nia.
Qed.

(** X25. The index that [Math.floor(Math.random() * n)] draws is a valid
    index: for every double from 0 up to but not including 1 and every
    size from 1, it lies from 0 to [n - 1], although the product is
    rounded before it is floored; and for a size up to [2 ^ 53] it is the
    floor of the exact product or one more. *)
Theorem random_index_is_valid u n :
  unit_interval u → 1 ≤ n →
  0 ≤ random_index u n < n ∧
  (n ≤ 2 ^ 53 →
   Qfloor (u * inject_Z n) ≤ random_index u n ≤ Qfloor (u * inject_Z n) + 1).
Proof.
  intros Hu Hn. split; [by apply random_index_range|]. intros Hmax.
  pose proof (random_index_range u n Hu Hn) as Hrange.
  destruct Hu as (H0 & H1 & Hd). rewrite Qfloor_times. unfold random_index in *.
  unfold is_double in Hd.
  apply andb_true_iff in Hd as [Hd _]. apply andb_true_iff in Hd as [Hden _].
  apply Z.eqb_eq in Hden.
  unfold Qle in H0. unfold Qlt in H1. simpl in H0, H1.
  set (a := Qnum u) in *. set (D := Z.pos (Qden u)) in *.
  set (k := Z.log2 D) in *.
  assert (0 ≤ k) by apply Z.log2_nonneg.
  assert (0 < D) by done.
  pose proof (Z.div_mod (a * n) D ltac:(lia)) as Hdm.
  pose proof (Z.mod_pos_bound (a * n) D ltac:(lia)) as Hr.
  set (f := a * n / D) in *.
  assert (0 ≤ f < n).
  { split; [apply Z.div_pos; nia|]. apply Z.div_lt_upper_bound; nia. }
  destruct (round53_between (a * n) k f) as [Hlo Hhi]; [lia|lia| |].
  { rewrite <- Hden. lia. }
  rewrite <- Hden in Hlo, Hhi. split.
  - apply Z.div_le_lower_bound; lia.
  - apply Z.lt_succ_r, Z.div_lt_upper_bound; lia.
Qed.

Lemma random_index_is_valid_witness :
  random_index double_0_3 10 = 3 ∧
  Qfloor (double_0_3 * inject_Z 10) = 2 ∧
  0 ≤ random_index double_0_3 10 < 10 ∧
  Qfloor (double_0_3 * inject_Z 10) ≤ random_index double_0_3 10
    ≤ Qfloor (double_0_3 * inject_Z 10) + 1.
Proof.
  split; [reflexivity|]. split; [reflexivity|].
  destruct (random_index_is_valid double_0_3 10) as [Hrange Hnear];
    [by vm_compute|lia|].
  split; [exact Hrange|]. apply Hnear. by vm_compute.
Defined.

(** ** Clicks on a board that cannot be shown *)



